(** * Asset-transfer chaincode: a shallow embedding and its properties

    The development models [chaincode/smartcontract.go]: the [Asset] record,
    its JSON codec (Go's [encoding/json] specialised to [Asset]), the ledger
    stub the contract talks to, and the eight transactions of
    [SmartContract].  Go strings and byte slices are Rocq [string]s (sequences
    of 8-bit characters); Go's [int] is a 64-bit signed integer carried in
    [Z]. *)

From Stdlib Require Import String Ascii NArith ZArith List Bool Lia.
From Stdlib Require Import DecimalString DecimalZ DecimalFacts DecimalPos.
From stdpp Require Import base option list gmap strings sorting.

#[local] Arguments String.append !s1 s2 /.

(** ** Bytes *)

Definition code (c : ascii) : N := N_of_ascii c.

(** Go's conversion [byte(x)]: the low eight bits. *)
Definition byte_of (n : N) : ascii := ascii_of_N (n mod 256).

Definition dquote : ascii := "034"%char.
Definition backslash : ascii := "\"%char.

(** [sq s] writes a JSON text with apostrophes standing for double quotes. *)
Fixpoint sq (s : string) : string :=
  match s with
  | EmptyString => EmptyString
  | String c t => String (if Ascii.eqb c "'" then dquote else c) (sq t)
  end.

Definition in_range (lo hi : N) (c : ascii) : bool :=
  ((lo <=? code c) && (code c <=? hi))%N.

(** ** Package [unicode/utf8] *)

Module utf8.
Local Open Scope N_scope.

Definition RuneError : N := 0xFFFD.
Definition RuneSelf : N := 0x80.
Definition MaxRune : N := 0x10FFFF.
Definition surrogateMin : N := 0xD800.
Definition surrogateMax : N := 0xDFFF.

Definition t2 : N := 0xC0.
Definition t3 : N := 0xE0.
Definition t4 : N := 0xF0.
Definition tx : N := 0x80.
Definition maskx : N := 0x3F.
Definition mask2 : N := 0x1F.
Definition mask3 : N := 0x0F.
Definition mask4 : N := 0x07.
Definition rune1Max : N := 0x7F.
Definition rune2Max : N := 0x7FF.
Definition rune3Max : N := 0xFFFF.
Definition locb : N := 0x80.
Definition hicb : N := 0xBF.

(** The table [first]: what a leading byte announces.  [Lead sz lo hi] is a
    sequence of [sz] bytes whose second byte must lie in [lo..hi]. *)
Inductive lead :=
| LeadASCII
| LeadInvalid
| Lead (sz : nat) (lo hi : N).

Definition first (c : ascii) : lead :=
  let n := code c in
  if n <? 0x80 then LeadASCII
  else if n <? 0xC2 then LeadInvalid
  else if n <? 0xE0 then Lead 2 locb hicb
  else if n =? 0xE0 then Lead 3 0xA0 hicb
  else if n <? 0xED then Lead 3 locb hicb
  else if n =? 0xED then Lead 3 locb 0x9F
  else if n <? 0xF0 then Lead 3 locb hicb
  else if n =? 0xF0 then Lead 4 0x90 hicb
  else if n <? 0xF4 then Lead 4 locb hicb
  else if n =? 0xF4 then Lead 4 locb 0x8F
  else LeadInvalid.

(** [utf8.DecodeRuneInString]: the first rune of [s] and its width in
    bytes; [(RuneError, 1)] on an invalid encoding, [(RuneError, 0)] on
    the empty string. *)
Definition DecodeRuneInString (s : string) : N * nat :=
  match s with
  | EmptyString => (RuneError, 0%nat)
  | String s0 r0 =>
    match first s0 with
    | LeadASCII => (code s0, 1%nat)
    | LeadInvalid => (RuneError, 1%nat)
    | Lead sz lo hi =>
      match r0 with
      | EmptyString => (RuneError, 1%nat)
      | String s1 r1 =>
        if (code s1 <? lo) || (hi <? code s1) then (RuneError, 1%nat)
        else if (sz <=? 2)%nat then
          (N.lor (N.shiftl (N.land (code s0) mask2) 6)
                 (N.land (code s1) maskx), 2%nat)
        else
          match r1 with
          | EmptyString => (RuneError, 1%nat)
          | String s2 r2 =>
            if (code s2 <? locb) || (hicb <? code s2) then (RuneError, 1%nat)
            else if (sz <=? 3)%nat then
              (N.lor (N.lor (N.shiftl (N.land (code s0) mask3) 12)
                            (N.shiftl (N.land (code s1) maskx) 6))
                     (N.land (code s2) maskx), 3%nat)
            else
              match r2 with
              | EmptyString => (RuneError, 1%nat)
              | String s3 _ =>
                if (code s3 <? locb) || (hicb <? code s3)
                then (RuneError, 1%nat)
                else
                  (N.lor (N.lor (N.lor
                     (N.shiftl (N.land (code s0) mask4) 18)
                     (N.shiftl (N.land (code s1) maskx) 12))
                     (N.shiftl (N.land (code s2) maskx) 6))
                     (N.land (code s3) maskx), 4%nat)
              end
          end
      end
    end
  end.

(** [utf8.AppendRune] on an empty buffer: the UTF-8 encoding of [r], with
    surrogates and out-of-range values replaced by [RuneError]. *)
Definition EncodeRune (r : N) : string :=
  if r <=? rune1Max then String (byte_of r) EmptyString
  else if r <=? rune2Max then
    String (byte_of (N.lor t2 (N.shiftr r 6)))
      (String (byte_of (N.lor tx (N.land r maskx))) EmptyString)
  else
    let r := if (MaxRune <? r) || ((surrogateMin <=? r) && (r <=? surrogateMax))
             then RuneError else r in
    if r <=? rune3Max then
      String (byte_of (N.lor t3 (N.shiftr r 12)))
        (String (byte_of (N.lor tx (N.land (N.shiftr r 6) maskx)))
          (String (byte_of (N.lor tx (N.land r maskx))) EmptyString))
    else
      String (byte_of (N.lor t4 (N.shiftr r 18)))
        (String (byte_of (N.lor tx (N.land (N.shiftr r 12) maskx)))
          (String (byte_of (N.lor tx (N.land (N.shiftr r 6) maskx)))
            (String (byte_of (N.lor tx (N.land r maskx))) EmptyString))).

(** The runes of a string in order, each with the bytes it was read from:
    the iteration [for i < len(s) { r, size := DecodeRuneInString(s[i:]);
    i += size }] that [encoding/json] performs. *)
Fixpoint runes (s : string) : list (N * string) :=
  match s with
  | EmptyString => []
  | String c0 r0 =>
    match DecodeRuneInString s with
    | (r, size) =>
      match size, r0 with
      | 2%nat, String c1 r1 =>
          (r, String c0 (String c1 EmptyString)) :: runes r1
      | 3%nat, String c1 (String c2 r2) =>
          (r, String c0 (String c1 (String c2 EmptyString))) :: runes r2
      | 4%nat, String c1 (String c2 (String c3 r3)) =>
          (r, String c0 (String c1 (String c2 (String c3 EmptyString))))
            :: runes r3
      | _, _ => (r, String c0 EmptyString) :: runes r0
      end
    end
  end.

(** One element of [runes] is an encoding error when it is [RuneError] read
    from a single byte. *)
Definition is_error (x : N * string) : bool :=
  (fst x =? RuneError) && (String.length (snd x) =? 1)%nat.

(** [utf8.ValidString]. *)
Definition ValidString (s : string) : bool :=
  forallb (fun x => negb (is_error x)) (runes s).
End utf8.

(** ** Package [unicode/utf16] *)

Module utf16.
Local Open Scope N_scope.

Definition surr1 : N := 0xD800.
Definition surr2 : N := 0xDC00.
Definition surr3 : N := 0xE000.
Definition surrSelf : N := 0x10000.

Definition IsSurrogate (r : N) : bool := (surr1 <=? r) && (r <? surr3).

(** [utf16.DecodeRune r1 r2]; [None] stands for a second argument that is
    not a rune at all (Go passes -1). *)
Definition DecodeRune (r1 : N) (r2 : option N) : N :=
  match r2 with
  | Some r2 =>
    if (surr1 <=? r1) && (r1 <? surr2) && (surr2 <=? r2) && (r2 <? surr3)
    then N.lor (N.shiftl (r1 - surr1) 10) (r2 - surr2) + surrSelf
    else utf8.RuneError
  | None => utf8.RuneError
  end.
End utf16.

(** ** Package [strconv] *)

Module strconv.
Local Open Scope Z_scope.

(** [strconv.FormatInt(z, 10)]. *)
Definition FormatInt (z : Z) : string := NilZero.string_of_int (Z.to_int z).

Definition minInt64 : Z := - 2 ^ 63.
Definition maxInt64 : Z := 2 ^ 63 - 1.

(** [strconv.ParseInt(s, 10, 64)]: an optional sign and decimal digits,
    within the 64-bit range; [None] on a syntax or range error. *)
Definition ParseInt (s : string) : option Z :=
  let digits := match s with
                | String c t =>
                  if Ascii.eqb c "+" then NilZero.int_of_string t
                  else NilZero.int_of_string s
                | EmptyString => None
                end in
  match digits with
  | Some d =>
    let z := Z.of_int d in
    if (minInt64 <=? z) && (z <=? maxInt64) then Some z else None
  | None => None
  end.
End strconv.

(** ** The [Asset] record *)

(** [type Asset struct]: the JSON names of the fields are [asset_id],
    [color], [size], [owner] and [appraisedValue]. *)
Record Asset := mkAsset {
  ID : string;
  Color : string;
  Size : Z;
  Owner : string;
  AppraisedValue : Z
}.

(** The zero value of the struct, what [var a Asset] holds. *)
Definition zeroAsset : Asset := mkAsset "" "" 0 "" 0.

Definition set_Owner (a : Asset) (o : string) : Asset :=
  mkAsset (ID a) (Color a) (Size a) o (AppraisedValue a).

(** ** Package [encoding/json], specialised to [Asset] *)

Module json.

Inductive error :=
| SyntaxError
| UnmarshalTypeError (value : string) (field : string).

Fixpoint flatten (l : list string) : string :=
  match l with
  | [] => EmptyString
  | x :: l => x +:+ flatten l
  end.

(** *** Encoding *)

Definition hex (n : N) : ascii :=
  match String.get (N.to_nat n) "0123456789abcdef" with
  | Some c => c
  | None => "0"%char
  end.

(** [htmlSafeSet]: the ASCII bytes written as they are. *)
Definition htmlSafeSet (b : ascii) : bool :=
  in_range 0x20 0x7F b
  && negb (Ascii.eqb b dquote) && negb (Ascii.eqb b "&")
  && negb (Ascii.eqb b "<") && negb (Ascii.eqb b ">")
  && negb (Ascii.eqb b backslash).

(** The escape written for an ASCII byte outside [htmlSafeSet]. *)
Definition escapeByte (b : ascii) : string :=
  if Ascii.eqb b backslash || Ascii.eqb b dquote
  then String backslash (String b EmptyString)
  else if Ascii.eqb b "008" then "\b"
  else if Ascii.eqb b "012" then "\f"
  else if Ascii.eqb b "010" then "\n"
  else if Ascii.eqb b "013" then "\r"
  else if Ascii.eqb b "009" then "\t"
  else "\u00" +:+ String (hex (N.shiftr (code b) 4))
                     (String (hex (N.land (code b) 0xF)) EmptyString).

(** One iteration of the loop of [appendString] (with [escapeHTML] set, as
    [Marshal] does), on a rune [c] read from the bytes [bs]. *)
Definition appendRune (x : N * string) : string :=
  let (c, bs) := x in
  match bs with
  | EmptyString => EmptyString
  | String b _ =>
    if (code b <? utf8.RuneSelf)%N then
      if htmlSafeSet b then bs else escapeByte b
    else if utf8.is_error x then String backslash "ufffd"
    else if (c =? 0x2028)%N || (c =? 0x2029)%N then
      "\u202" +:+ String (hex (N.land c 0xF)) EmptyString
    else bs
  end.

Definition appendBody (src : string) : string :=
  flatten (map appendRune (utf8.runes src)).

(** [appendString]: a Go string as a JSON string literal. *)
Definition appendString (src : string) : string :=
  String dquote (appendBody src +:+ String dquote EmptyString).

(** The quoted field name followed by a colon. *)
Definition nameQuoted (name : string) : string :=
  String dquote (name +:+ String dquote ":").

(** [json.Marshal] of an [Asset]: the struct encoder writes the fields in
    declaration order.  It has no failure for a struct of strings and
    integers, so the error of Go's signature is always nil. *)
Definition encode (a : Asset) : string :=
  "{" +:+ nameQuoted "asset_id" +:+ appendString (ID a)
  +:+ "," +:+ nameQuoted "color" +:+ appendString (Color a)
  +:+ "," +:+ nameQuoted "size" +:+ strconv.FormatInt (Size a)
  +:+ "," +:+ nameQuoted "owner" +:+ appendString (Owner a)
  +:+ "," +:+ nameQuoted "appraisedValue"
  +:+ strconv.FormatInt (AppraisedValue a) +:+ "}".

Definition Marshal (a : Asset) : string + error := inl (encode a).

(** *** Decoding: the scanner *)

#[warnings="-register-all"]
Inductive value :=
| Null
| Bool (b : bool)
| Number (lit : string)
| Str (s : string)
| Array (elems : list value)
| Object (members : list (string * value)).

Definition isSpace (c : ascii) : bool :=
  Ascii.eqb c " " || Ascii.eqb c "009" || Ascii.eqb c "013"
  || Ascii.eqb c "010".

Fixpoint skip_ws (s : string) : string :=
  match s with
  | EmptyString => EmptyString
  | String c t => if isSpace c then skip_ws t else s
  end.

Definition isDigit (c : ascii) : bool := in_range 48 57 c.

Definition unhex (c : ascii) : option N :=
  if isDigit c then Some (code c - 48)%N
  else if in_range 97 102 c then Some (code c - 97 + 10)%N
  else if in_range 65 70 c then Some (code c - 65 + 10)%N
  else None.

(** The four hexadecimal digits of a [\u] escape, as [getu4] reads them. *)
Definition hex4 (h1 h2 h3 h4 : ascii) : option N :=
  match unhex h1, unhex h2, unhex h3, unhex h4 with
  | Some a, Some b, Some c, Some d =>
      Some (((a * 16 + b) * 16 + c) * 16 + d)%N
  | _, _, _, _ => None
  end.

(** The character a one-letter escape stands for. *)
Definition unescape (e : ascii) : option ascii :=
  if Ascii.eqb e dquote || Ascii.eqb e backslash || Ascii.eqb e "/"
  then Some e
  else if Ascii.eqb e "b" then Some "008"%char
  else if Ascii.eqb e "f" then Some "012"%char
  else if Ascii.eqb e "n" then Some "010"%char
  else if Ascii.eqb e "r" then Some "013"%char
  else if Ascii.eqb e "t" then Some "009"%char
  else None.

Definition emit (chunk : string) (k : option (string * string))
  : option (string * string) :=
  match k with
  | Some (body, rest) => Some (chunk +:+ body, rest)
  | None => None
  end.

(** A string literal from just after its opening quote: the scanner's
    [stateInString] and [unquoteBytes] in one pass.  The result is the
    unquoted string and the input after the closing quote; [None] is a
    syntax error (a control character, a bad escape, no closing quote).
    Bytes that are not valid UTF-8 are replaced by U+FFFD, as are unpaired
    surrogate escapes. *)
Fixpoint unquote (s : string) : option (string * string) :=
  match s with
  | EmptyString => None
  | String c t =>
    if Ascii.eqb c dquote then Some (EmptyString, t)
    else if Ascii.eqb c backslash then
      match t with
      | EmptyString => None
      | String e t1 =>
        if Ascii.eqb e "u" then
          match t1 with
          | String h1 (String h2 (String h3 (String h4 t2))) =>
            match hex4 h1 h2 h3 h4 with
            | None => None
            | Some rr =>
              if utf16.IsSurrogate rr then
                match t2 with
                | String b (String u (String g1 (String g2
                    (String g3 (String g4 t3))))) =>
                  let rr1 := if Ascii.eqb b backslash && Ascii.eqb u "u"
                             then hex4 g1 g2 g3 g4 else None in
                  let dec := utf16.DecodeRune rr rr1 in
                  if (dec =? utf8.RuneError)%N
                  then emit (utf8.EncodeRune utf8.RuneError) (unquote t2)
                  else emit (utf8.EncodeRune dec) (unquote t3)
                | _ => emit (utf8.EncodeRune utf8.RuneError) (unquote t2)
                end
              else emit (utf8.EncodeRune rr) (unquote t2)
            end
          | _ => None
          end
        else
          match unescape e with
          | Some x => emit (String x EmptyString) (unquote t1)
          | None => None
          end
      end
    else if (code c <? 0x20)%N then None
    else if (code c <? utf8.RuneSelf)%N
    then emit (String c EmptyString) (unquote t)
    else
      match utf8.DecodeRuneInString s with
      | (rr, size) =>
        match size, t with
        | 2%nat, String _ t1 => emit (utf8.EncodeRune rr) (unquote t1)
        | 3%nat, String _ (String _ t2) =>
            emit (utf8.EncodeRune rr) (unquote t2)
        | 4%nat, String _ (String _ (String _ t3)) =>
            emit (utf8.EncodeRune rr) (unquote t3)
        | _, _ => emit (utf8.EncodeRune rr) (unquote t)
        end
      end
  end.

(** The longest prefix of decimal digits, and what follows it. *)
Fixpoint span_digits (s : string) : string * string :=
  match s with
  | EmptyString => (EmptyString, EmptyString)
  | String c t =>
    if isDigit c
    then let (ds, rest) := span_digits t in (String c ds, rest)
    else (EmptyString, s)
  end.

(** At least one digit. *)
Definition digits1 (s : string) : option (string * string) :=
  match span_digits s with
  | (EmptyString, _) => None
  | r => Some r
  end.

(** A number literal, by the scanner's grammar: an optional minus, an
    integer part without superfluous leading zero, an optional fraction and
    an optional exponent.  The result is the literal and what follows. *)
Definition scan_number (s : string) : option (string * string) :=
  let (sign, s1) :=
    match s with
    | String c t =>
        if Ascii.eqb c "-" then ("-", t) else (EmptyString, s)
    | EmptyString => (EmptyString, s)
    end in
  let int_part :=
    match s1 with
    | String c t =>
      if Ascii.eqb c "0" then Some ("0", t)
      else if isDigit c then Some (span_digits s1)
      else None
    | EmptyString => None
    end in
  match int_part with
  | None => None
  | Some (ip, s2) =>
    let frac :=
      match s2 with
      | String c t =>
        if Ascii.eqb c "." then
          match digits1 t with
          | Some (ds, s3) => Some (String c ds, s3)
          | None => None
          end
        else Some (EmptyString, s2)
      | EmptyString => Some (EmptyString, s2)
      end in
    match frac with
    | None => None
    | Some (fp, s3) =>
      let exp :=
        match s3 with
        | String c t =>
          if Ascii.eqb c "e" || Ascii.eqb c "E" then
            let (esign, t1) :=
              match t with
              | String d t' =>
                if Ascii.eqb d "+" || Ascii.eqb d "-"
                then (String d EmptyString, t') else (EmptyString, t)
              | EmptyString => (EmptyString, t)
              end in
            match digits1 t1 with
            | Some (ds, s4) => Some (String c (esign +:+ ds), s4)
            | None => None
            end
          else Some (EmptyString, s3)
        | EmptyString => Some (EmptyString, s3)
        end in
      match exp with
      | None => None
      | Some (ep, s4) => Some (sign +:+ ip +:+ fp +:+ ep, s4)
      end
    end
  end.

(** [strip p s] is what follows the prefix [p] of [s]. *)
Fixpoint strip (p s : string) : option string :=
  match p with
  | EmptyString => Some s
  | String a p' =>
    match s with
    | String b s' => if Ascii.eqb a b then strip p' s' else None
    | EmptyString => None
    end
  end.

Definition maxNestingDepth : N := 10000.

(** One JSON value at the head of [s] (white space already skipped), with
    what follows it.  [depth] counts the arrays and objects that are open;
    [fuel] bounds the recursion and is never exhausted when it exceeds the
    length of the input. *)
Fixpoint scan_value (fuel : nat) (depth : N) (s : string) {struct fuel}
  : option (value * string) :=
  match fuel with
  | O => None
  | S fuel =>
    match s with
    | EmptyString => None
    | String c t =>
      if Ascii.eqb c "{" then
        if (maxNestingDepth <? depth + 1)%N then None else
        match skip_ws t with
        | EmptyString => None
        | String c' t' =>
          if Ascii.eqb c' "}" then Some (Object [], t')
          else
            match scan_members fuel (depth + 1)%N (String c' t') with
            | Some (ms, rest) => Some (Object ms, rest)
            | None => None
            end
        end
      else if Ascii.eqb c "[" then
        if (maxNestingDepth <? depth + 1)%N then None else
        match skip_ws t with
        | EmptyString => None
        | String c' t' =>
          if Ascii.eqb c' "]" then Some (Array [], t')
          else
            match scan_elements fuel (depth + 1)%N (String c' t') with
            | Some (vs, rest) => Some (Array vs, rest)
            | None => None
            end
        end
      else if Ascii.eqb c dquote then
        match unquote t with
        | Some (str, rest) => Some (Str str, rest)
        | None => None
        end
      else if Ascii.eqb c "-" || isDigit c then
        match scan_number s with
        | Some (lit, rest) => Some (Number lit, rest)
        | None => None
        end
      else if Ascii.eqb c "t" then
        option_map (fun rest => (Bool true, rest)) (strip "true" s)
      else if Ascii.eqb c "f" then
        option_map (fun rest => (Bool false, rest)) (strip "false" s)
      else if Ascii.eqb c "n" then
        option_map (fun rest => (Null, rest)) (strip "null" s)
      else None
    end
  end
with scan_members (fuel : nat) (depth : N) (s : string) {struct fuel}
  : option (list (string * value) * string) :=
  match fuel with
  | O => None
  | S fuel =>
    match s with
    | EmptyString => None
    | String c t =>
      if negb (Ascii.eqb c dquote) then None else
      match unquote t with
      | None => None
      | Some (key, s1) =>
        match skip_ws s1 with
        | EmptyString => None
        | String colon s2 =>
          if negb (Ascii.eqb colon ":") then None else
          match scan_value fuel depth (skip_ws s2) with
          | None => None
          | Some (v, s3) =>
            match skip_ws s3 with
            | EmptyString => None
            | String sep s4 =>
              if Ascii.eqb sep "}" then Some ([(key, v)], s4)
              else if Ascii.eqb sep "," then
                match scan_members fuel depth (skip_ws s4) with
                | Some (ms, rest) => Some ((key, v) :: ms, rest)
                | None => None
                end
              else None
            end
          end
        end
      end
    end
  end
with scan_elements (fuel : nat) (depth : N) (s : string) {struct fuel}
  : option (list value * string) :=
  match fuel with
  | O => None
  | S fuel =>
    match scan_value fuel depth s with
    | None => None
    | Some (v, s1) =>
      match skip_ws s1 with
      | EmptyString => None
      | String sep s2 =>
        if Ascii.eqb sep "]" then Some ([v], s2)
        else if Ascii.eqb sep "," then
          match scan_elements fuel depth (skip_ws s2) with
          | Some (vs, rest) => Some (v :: vs, rest)
          | None => None
          end
        else None
      end
    end
  end.

(** [checkValid] and the reading of the value: the whole input is one JSON
    value between optional white space. *)
Definition parse (data : string) : option value :=
  match scan_value (S (String.length data)) 0 (skip_ws data) with
  | Some (v, rest) =>
    match skip_ws rest with
    | EmptyString => Some v
    | String _ _ => None
    end
  | None => None
  end.

(** *** Decoding: storing into the struct *)

Inductive field := F_ID | F_Color | F_Size | F_Owner | F_AppraisedValue.

Definition fields : list field :=
  [F_ID; F_Color; F_Size; F_Owner; F_AppraisedValue].

Definition name (f : field) : string :=
  match f with
  | F_ID => "asset_id"
  | F_Color => "color"
  | F_Size => "size"
  | F_Owner => "owner"
  | F_AppraisedValue => "appraisedValue"
  end.

(** [foldRune]: the smallest rune of the simple case-folding orbit of [r].
    Only the orbits that hold an ASCII letter are tabulated (those of [k]
    and [s] also hold U+212A and U+017F); every other rune is left as it is,
    which decides equality with the folding of an ASCII name in the same
    way. *)
Definition foldRune (r : N) : N :=
  if ((97 <=? r) && (r <=? 122))%N then (r - 32)%N
  else if (r =? 0x17F)%N then 83%N
  else if (r =? 0x212A)%N then 75%N
  else r.

Definition foldName (s : string) : string :=
  flatten (map (fun x => utf8.EncodeRune (foldRune (fst x))) (utf8.runes s)).

(** The field an object key names: an exact match, or else a match up to
    case folding. *)
Definition lookup_field (key : string) : option field :=
  match find (fun f => String.eqb key (name f)) fields with
  | Some f => Some f
  | None =>
    find (fun f => String.eqb (foldName key) (foldName (name f))) fields
  end.

(** Storing one member value into the field it names.  [null] leaves the
    field as it is; a value of the wrong kind, or a number that is not a
    64-bit integer, is an [UnmarshalTypeError]. *)
Definition store (f : field) (v : value) (a : Asset) : Asset + error :=
  match v with
  | Null => inl a
  | Str s =>
    match f with
    | F_ID => inl (mkAsset s (Color a) (Size a) (Owner a) (AppraisedValue a))
    | F_Color => inl (mkAsset (ID a) s (Size a) (Owner a) (AppraisedValue a))
    | F_Owner => inl (mkAsset (ID a) (Color a) (Size a) s (AppraisedValue a))
    | F_Size | F_AppraisedValue => inr (UnmarshalTypeError "string" (name f))
    end
  | Number lit =>
    match f with
    | F_Size =>
      match strconv.ParseInt lit with
      | Some z =>
          inl (mkAsset (ID a) (Color a) z (Owner a) (AppraisedValue a))
      | None => inr (UnmarshalTypeError ("number " +:+ lit) (name f))
      end
    | F_AppraisedValue =>
      match strconv.ParseInt lit with
      | Some z => inl (mkAsset (ID a) (Color a) (Size a) (Owner a) z)
      | None => inr (UnmarshalTypeError ("number " +:+ lit) (name f))
      end
    | F_ID | F_Color | F_Owner => inr (UnmarshalTypeError "number" (name f))
    end
  | Bool _ => inr (UnmarshalTypeError "bool" (name f))
  | Array _ => inr (UnmarshalTypeError "array" (name f))
  | Object _ => inr (UnmarshalTypeError "object" (name f))
  end.

(** The members of an object in order.  A key that names no field is
    skipped; the first type error is kept while decoding goes on. *)
Fixpoint object (ms : list (string * value)) (a : Asset)
    (savedError : option error) : Asset * option error :=
  match ms with
  | [] => (a, savedError)
  | (key, v) :: ms =>
    match lookup_field key with
    | None => object ms a savedError
    | Some f =>
      match store f v a with
      | inl a' => object ms a' savedError
      | inr e =>
        object ms a (match savedError with None => Some e | Some _ => savedError end)
      end
    end
  end.

(** [json.Unmarshal(data, &target)]: the struct after decoding, or the
    error.  [null] is accepted and changes nothing. *)
Definition Unmarshal (data : string) (target : Asset) : Asset + error :=
  match parse data with
  | None => inr SyntaxError
  | Some Null => inl target
  | Some (Object ms) =>
    match object ms target None with
    | (a, None) => inl a
    | (_, Some e) => inr e
    end
  | Some (Bool _) => inr (UnmarshalTypeError "bool" "")
  | Some (Number _) => inr (UnmarshalTypeError "number" "")
  | Some (Str _) => inr (UnmarshalTypeError "string" "")
  | Some (Array _) => inr (UnmarshalTypeError "array" "")
  end.
End json.

(** ** Errors a transaction returns *)

Inductive error :=
| ErrJSON (e : json.error)
    (* an error of [encoding/json], returned as it is *)
| ErrStub (msg : string)
    (* an error of the ledger stub, returned as it is *)
| ErrReadWorldState (cause : error)
    (* [fmt.Errorf("failed to read from world state: %v", err)] *)
| ErrPutWorldState (cause : error)
    (* [fmt.Errorf("failed to put to world state. %v", err)] *)
| ErrMarshal (cause : error)
    (* [fmt.Errorf("failed json.Marshal: %v", err)] *)
| ErrAlreadyExists (id : string)
    (* [fmt.Errorf("the asset %s already exists", id)] *)
| ErrNotExist (id : string).
    (* [fmt.Errorf("the asset %s does not exist", id)] *)

(** The taxonomy of the specification. *)
Inductive kind := DecodeError | AlreadyExists | NotFound | StoreError.

Definition kind_of (e : error) : kind :=
  match e with
  | ErrJSON _ => DecodeError
  | ErrMarshal _ => DecodeError
  | ErrStub _ => StoreError
  | ErrReadWorldState _ => StoreError
  | ErrPutWorldState _ => StoreError
  | ErrAlreadyExists _ => AlreadyExists
  | ErrNotExist _ => NotFound
  end.

(** ** The ledger stub *)

(** Modelled from the spec: the state store the host supplies ([get],
    [put], [delete], [rangeScan] over byte values keyed by strings, each of
    which may fail on an I/O failure of the host).  The world state is a
    finite map; a write is visible to the reads that follow it; a range scan
    lists the keys in bytewise lexicographic order.  The failures of the host
    are a schedule [faults]: every call to the stub takes the head of the
    schedule and fails with its message when there is one. *)
Module shim.

Inductive call :=
| GetStateCall (key : string)
| PutStateCall (key value : string)
| DelStateCall (key : string)
| GetStateByRangeCall (startKey endKey : string)
| NextCall
| CloseCall.

Inductive outcome := Done | Failed.

Record World := mkWorld {
  state : gmap string string;
  faults : list (option string);
  trace : list (call * outcome)
}.

(** State and error passing: a computation returns a value or an error,
    and the world it leaves. *)
Definition M (A : Type) : Type := World -> (A + error) * World.

Definition ret {A} (a : A) : M A := fun w => (inl a, w).

Definition bind {A B} (m : M A) (f : A -> M B) : M B :=
  fun w =>
    match m w with
    | (inl a, w') => f a w'
    | (inr e, w') => (inr e, w')
    end.

Definition throw {A} (e : error) : M A := fun w => (inr e, w).

(** [if err != nil { return fmt.Errorf(..., err) }]. *)
Definition wrap {A} (f : error -> error) (m : M A) : M A :=
  fun w =>
    match m w with
    | (inl a, w') => (inl a, w')
    | (inr e, w') => (inr (f e), w')
    end.

(** [defer cleanup()]: run on every exit path. *)
Definition defer {A} (cleanup : World -> World) (m : M A) : M A :=
  fun w => let (r, w') := m w in (r, cleanup w').

Definition of_json {A} (r : A + json.error) : M A :=
  match r with
  | inl a => ret a
  | inr e => throw (ErrJSON e)
  end.

(** One call to the stub: it is logged, and it fails when the schedule says
    so, leaving the state as it is. *)
Definition invoke {A} (c : call)
    (effect : gmap string string -> A * gmap string string) : M A :=
  fun w =>
    match head (faults w) with
    | Some (Some msg) =>
        (inr (ErrStub msg),
         mkWorld (state w) (tail (faults w)) (trace w ++ [(c, Failed)]))
    | _ =>
        (inl (fst (effect (state w))),
         mkWorld (snd (effect (state w))) (tail (faults w))
                 (trace w ++ [(c, Done)]))
    end.

(** [GetState]: the value, or [None] (Go's nil) for a key that is absent. *)
Definition GetState (key : string) : M (option string) :=
  invoke (GetStateCall key) (fun st => (st !! key, st)).

Definition PutState (key value : string) : M unit :=
  invoke (PutStateCall key value) (fun st => (tt, <[key := value]> st)).

Definition DelState (key : string) : M unit :=
  invoke (DelStateCall key) (fun st => (tt, delete key st)).

Definition key_le (x y : string * string) : Prop := String.le (fst x) (fst y).

#[global] Instance key_le_dec : RelDecision key_le.
Proof. intros x y. unfold key_le. apply _. Defined.

(** The keys from [startKey] on and before [endKey], an empty bound being
    no bound. *)
Definition in_bounds (startKey endKey : string) (kv : string * string) : bool :=
  (String.eqb startKey "" || String.leb startKey (fst kv))
  && (String.eqb endKey "" || String.ltb (fst kv) endKey).

Definition range (startKey endKey : string) (st : gmap string string)
  : list (string * string) :=
  List.filter (in_bounds startKey endKey) (merge_sort key_le (map_to_list st)).

(** [GetStateByRange]: the iterator is the list of the entries still to be
    read. *)
Definition GetStateByRange (startKey endKey : string)
  : M (list (string * string)) :=
  invoke (GetStateByRangeCall startKey endKey)
         (fun st => (range startKey endKey st, st)).

(** [resultsIterator.Next()], which may fail; the entry it returns is the
    head of the iterator. *)
Definition Next : M unit := invoke NextCall (fun st => (tt, st)).

(** [resultsIterator.Close()]. *)
Definition Close (w : World) : World :=
  mkWorld (state w) (faults w) (trace w ++ [(CloseCall, Done)]).
End shim.

(** ** Package [chaincode]: the transactions of [SmartContract] *)

Module chaincode.
Import shim.

Notation "'do' x <- m ;; k" := (bind m (fun x => k))
  (at level 10, x name, m at level 99, k at level 200, only parsing).

Definition seed : list Asset :=
  [ mkAsset "asset1" "blue" 5 "Tomoko" 300;
    mkAsset "asset2" "red" 5 "Brad" 400;
    mkAsset "asset3" "green" 10 "Jin Soo" 500;
    mkAsset "asset4" "yellow" 10 "Max" 600;
    mkAsset "asset5" "black" 15 "Adriana" 700;
    mkAsset "asset6" "white" 15 "Michel" 800 ].

(** The loop of [InitLedger]. *)
Fixpoint putAssets (assets : list Asset) : M unit :=
  match assets with
  | [] => ret tt
  | asset :: assets =>
    do assetJSON <- of_json (json.Marshal asset) ;;
    do _ <- wrap ErrPutWorldState (PutState (ID asset) assetJSON) ;;
    putAssets assets
  end.

Definition InitLedger : M unit := putAssets seed.

Definition AssetExists (id : string) : M bool :=
  do assetJSON <- wrap ErrReadWorldState (GetState id) ;;
  ret (match assetJSON with Some _ => true | None => false end).

Definition CreateAsset (rawAssetEnrollRequest : string) : M string :=
  do assetEnrollRequest <- of_json (json.Unmarshal rawAssetEnrollRequest zeroAsset) ;;
  do exists_ <- AssetExists (ID assetEnrollRequest) ;;
  if exists_ : bool then throw (ErrAlreadyExists (ID assetEnrollRequest)) else
  do result <- wrap ErrMarshal (of_json (json.Marshal assetEnrollRequest)) ;;
  do _ <- PutState (ID assetEnrollRequest) result ;;
  ret "CreateAsset OK".

Definition ReadAsset (rawAssetReadRequest : string) : M Asset :=
  do assetReadRequest <- of_json (json.Unmarshal rawAssetReadRequest zeroAsset) ;;
  do assetJSON <- wrap ErrReadWorldState (GetState (ID assetReadRequest)) ;;
  match assetJSON with
  | None => throw (ErrNotExist (ID assetReadRequest))
  | Some assetJSON =>
    do asset <- of_json (json.Unmarshal assetJSON zeroAsset) ;;
    ret asset
  end.

Definition UpdateAsset (rawAssetUpdateRequest : string) : M string :=
  do assetUpdateRequest <- of_json (json.Unmarshal rawAssetUpdateRequest zeroAsset) ;;
  do exists_ <- AssetExists (ID assetUpdateRequest) ;;
  if negb exists_ then throw (ErrNotExist (ID assetUpdateRequest)) else
  do result <- wrap ErrMarshal (of_json (json.Marshal assetUpdateRequest)) ;;
  do _ <- PutState (ID assetUpdateRequest) result ;;
  ret "UpdateAsset OK".

Definition DeleteAsset (rawAssetDeleteRequest : string) : M string :=
  do assetDeleteRequest <- of_json (json.Unmarshal rawAssetDeleteRequest zeroAsset) ;;
  do exists_ <- AssetExists (ID assetDeleteRequest) ;;
  if negb exists_ then throw (ErrNotExist (ID assetDeleteRequest)) else
  do _ <- DelState (ID assetDeleteRequest) ;;
  ret "CreateAsset OK".

Definition TransferAsset (rawAssetTransferRequest : string) : M string :=
  do assetTransferRequest <- of_json (json.Unmarshal rawAssetTransferRequest zeroAsset) ;;
  do exists_ <- AssetExists (ID assetTransferRequest) ;;
  if negb exists_ then throw (ErrNotExist (ID assetTransferRequest)) else
  do asset <- ReadAsset rawAssetTransferRequest ;;
  let asset := set_Owner asset (Owner assetTransferRequest) in
  do result <- wrap ErrMarshal (of_json (json.Marshal asset)) ;;
  do _ <- PutState (ID assetTransferRequest) result ;;
  ret "TransferAsset OK".

(** The loop of [GetAllAssets] over what the iterator still holds. *)
Fixpoint collect (resultsIterator : list (string * string))
    (assets : list Asset) : M (list Asset) :=
  match resultsIterator with
  | [] => ret assets
  | queryResponse :: resultsIterator =>
    do _ <- Next ;;
    do asset <- of_json (json.Unmarshal (snd queryResponse) zeroAsset) ;;
    collect resultsIterator (assets ++ [asset])
  end.

Definition GetAllAssets : M (list Asset) :=
  do resultsIterator <- GetStateByRange "" "" ;;
  defer Close (collect resultsIterator []).

(** A world with the given state in which the host never fails. *)
Definition world (st : gmap string string) : World := mkWorld st [] [].

(** The five transactions that take a request payload. *)
Inductive operation := Create | Read | Update | Delete | Transfer.

Definition failure {A} (r : A + error) : option error :=
  match r with
  | inl _ => None
  | inr e => Some e
  end.

(** Running a transaction for its error and its effect on the world. *)
Definition exec (op : operation) (raw : string) (w : World)
  : option error * World :=
  match op with
  | Create => let (r, w') := CreateAsset raw w in (failure r, w')
  | Read => let (r, w') := ReadAsset raw w in (failure r, w')
  | Update => let (r, w') := UpdateAsset raw w in (failure r, w')
  | Delete => let (r, w') := DeleteAsset raw w in (failure r, w')
  | Transfer => let (r, w') := TransferAsset raw w in (failure r, w')
  end.

(** What a transaction requires of the id it names before it writes. *)
Definition precondition (op : operation) (stored : option string) : Prop :=
  match op with
  | Create => stored = None
  | Read | Update | Delete | Transfer => is_Some stored
  end.

Definition is_write (c : call) : bool :=
  match c with
  | PutStateCall _ _ | DelStateCall _ => true
  | _ => false
  end.

Definition key_of (c : call) : string :=
  match c with
  | GetStateCall k | PutStateCall k _ | DelStateCall k => k
  | _ => ""
  end.

(** The host never fails from this world on. *)
Definition quiet (w : World) : Prop :=
  Forall (fun f => f = None) (faults w).

(** Every stored value decodes as an [Asset]. *)
Definition decodable (st : gmap string string) : Prop :=
  forall k v, st !! k = Some v ->
    exists a, json.Unmarshal v zeroAsset = inl a.

Definition int64 (z : Z) : Prop :=
  (strconv.minInt64 <= z <= strconv.maxInt64)%Z.

(** An [Asset] as a Go program can hold it and JSON can carry it: the
    integers are 64-bit and the strings are valid UTF-8. *)
Definition valid (a : Asset) : Prop :=
  utf8.ValidString (ID a) = true /\ utf8.ValidString (Color a) = true
  /\ utf8.ValidString (Owner a) = true
  /\ int64 (Size a) /\ int64 (AppraisedValue a).
End chaincode.

(** ** Notions used to state and prove the properties *)

Section Vocabulary.
Import utf8 json shim chaincode.
Local Open Scope N_scope.

(** A continuation byte. *)
Definition cont (c : ascii) : Prop := 0x80 <= code c <= 0xBF.

(** The second byte a leading byte admits. *)
Definition second_ok (c0 c1 : ascii) : Prop :=
  cont c1 /\
  (code c0 = 0xE0 -> 0xA0 <= code c1) /\
  (code c0 = 0xED -> code c1 <= 0x9F) /\
  (code c0 = 0xF0 -> 0x90 <= code c1) /\
  (code c0 = 0xF4 -> code c1 <= 0x8F).

(** The rune carried by two, three and four bytes, in arithmetic form. *)
Definition val2 (c0 c1 : ascii) : N := (code c0 - 192) * 64 + (code c1 - 128).
Definition val3 (c0 c1 c2 : ascii) : N :=
  (code c0 - 224) * 4096 + (code c1 - 128) * 64 + (code c2 - 128).
Definition val4 (c0 c1 c2 c3 : ascii) : N :=
  (code c0 - 240) * 262144 + (code c1 - 128) * 4096
  + (code c2 - 128) * 64 + (code c3 - 128).

(** What [DecodeRuneInString] finds at the head of a non-empty string. *)
Inductive decoded (c0 : ascii) (t : string) : N * nat -> Prop :=
| dec_ascii : code c0 < 0x80 -> decoded c0 t (code c0, 1%nat)
| dec_error : 0x80 <= code c0 -> decoded c0 t (RuneError, 1%nat)
| dec_2 c1 t1 :
    t = String c1 t1 -> 0xC2 <= code c0 <= 0xDF -> cont c1 ->
    decoded c0 t (val2 c0 c1, 2%nat)
| dec_3 c1 c2 t2 :
    t = String c1 (String c2 t2) ->
    0xE0 <= code c0 <= 0xEF -> second_ok c0 c1 -> cont c2 ->
    decoded c0 t (val3 c0 c1 c2, 3%nat)
| dec_4 c1 c2 c3 t3 :
    t = String c1 (String c2 (String c3 t3)) ->
    0xF0 <= code c0 <= 0xF4 -> second_ok c0 c1 -> cont c2 -> cont c3 ->
    decoded c0 t (val4 c0 c1 c2 c3, 4%nat).

(** One element of [runes]: a rune together with the bytes that carry
    it. *)
Inductive rune_item : N * string -> Prop :=
| item_ascii c : code c < 0x80 -> rune_item (code c, String c "")
| item_error c : 0x80 <= code c -> rune_item (RuneError, String c "")
| item_2 c0 c1 :
    0xC2 <= code c0 <= 0xDF -> cont c1 ->
    rune_item (val2 c0 c1, String c0 (String c1 ""))
| item_3 c0 c1 c2 :
    0xE0 <= code c0 <= 0xEF -> second_ok c0 c1 -> cont c2 ->
    rune_item (val3 c0 c1 c2, String c0 (String c1 (String c2 "")))
| item_4 c0 c1 c2 c3 :
    0xF0 <= code c0 <= 0xF4 -> second_ok c0 c1 -> cont c2 -> cont c3 ->
    rune_item (val4 c0 c1 c2 c3,
               String c0 (String c1 (String c2 (String c3 "")))).

(** The rune an encoding carries: surrogates and values beyond [MaxRune]
    are encoded as [RuneError]. *)
Definition scalar (r : N) : N :=
  if (MaxRune <? r) || ((surrogateMin <=? r) && (r <=? surrogateMax))
  then RuneError else r.

(** A string with every byte that is not part of a valid UTF-8 sequence
    replaced by U+FFFD: what [appendString] followed by [unquote] makes of
    it. *)
Definition sanitize (s : string) : string :=
  flatten (map (fun x => EncodeRune (fst x)) (runes s)).

(** What follows a number in the text [encode] writes. *)
Definition separator (c : ascii) : Prop := c = ","%char \/ c = "}"%char.

(** The value [parse] finds in the text [encode] writes. *)
Definition encoded_value (a : Asset) : value :=
  Object [ ("asset_id", Str (sanitize (ID a)));
           ("color", Str (sanitize (Color a)));
           ("size", Number (strconv.FormatInt (Size a)));
           ("owner", Str (sanitize (Owner a)));
           ("appraisedValue", Number (strconv.FormatInt (AppraisedValue a))) ].

(** What decoding the encoding of [a] gives: [a] with its strings coerced
    to valid UTF-8. *)
Definition sanitized (a : Asset) : Asset :=
  mkAsset (sanitize (ID a)) (sanitize (Color a)) (Size a)
          (sanitize (Owner a)) (AppraisedValue a).

(** A string value is valid UTF-8. *)
Definition clean (v : value) : Prop :=
  match v with
  | Str s => ValidString s = true
  | _ => True
  end.

(** What a successful scan says whatever the fuel: the input got shorter,
    and any fuel that covers the bytes consumed gives the same result. *)
Definition steady {A} (scan : nat -> N -> string -> option (A * string))
    (f : nat) : Prop :=
  forall d s r rest, scan f d s = Some (r, rest) ->
    (String.length rest < String.length s)%nat /\
    forall f', (String.length s - String.length rest <= f')%nat ->
      scan f' d s = Some (r, rest).

(** A member value that cannot be stored into the field: a value of the
    wrong kind, or a number that is not a 64-bit integer.  [null] is never
    mistyped. *)
Definition mistyped (f : field) (v : value) : bool :=
  match v with
  | Null => false
  | Str _ =>
    match f with
    | F_Size | F_AppraisedValue => true
    | F_ID | F_Color | F_Owner => false
    end
  | Number lit =>
    match f with
    | F_Size | F_AppraisedValue =>
      match strconv.ParseInt lit with
      | Some _ => false
      | None => true
      end
    | F_ID | F_Color | F_Owner => true
    end
  | Bool _ | Array _ | Object _ => true
  end.

(** The transactions of the contract, with their arguments. *)
Inductive transaction :=
| TxInitLedger
| TxCreateAsset (raw : string)
| TxReadAsset (raw : string)
| TxUpdateAsset (raw : string)
| TxDeleteAsset (raw : string)
| TxTransferAsset (raw : string)
| TxAssetExists (id : string)
| TxGetAllAssets.

(** The world a transaction leaves. *)
Definition after (tx : transaction) (w : World) : World :=
  match tx with
  | TxInitLedger => snd (InitLedger w)
  | TxCreateAsset raw => snd (CreateAsset raw w)
  | TxReadAsset raw => snd (ReadAsset raw w)
  | TxUpdateAsset raw => snd (UpdateAsset raw w)
  | TxDeleteAsset raw => snd (DeleteAsset raw w)
  | TxTransferAsset raw => snd (TransferAsset raw w)
  | TxAssetExists id => snd (AssetExists id w)
  | TxGetAllAssets => snd (GetAllAssets w)
  end.

(** The worlds reached from an empty ledger through the contract alone,
    whatever the failures of the host. *)
Inductive populated : World -> Prop :=
| populated_empty fs : populated (mkWorld ∅ fs [])
| populated_step tx w : populated w -> populated (after tx w).

(** Every value written is the encoding of a valid [Asset]. *)
Definition well_written (tr : list (call * outcome)) : Prop :=
  forall k v o, In (PutStateCall k v, o) tr ->
    exists a, valid a /\ v = encode a.

(** What a run started in [w0] has made of the world: the values it wrote
    are encodings of valid assets, and the state is decodable if it was. *)
Definition carries (w0 w : World) : Prop :=
  (decodable (state w0) -> decodable (state w)) /\
  exists t, trace w = trace w0 ++ t /\ well_written t.

(** A computation run inside such a run stays inside it, and its result
    satisfies [Q]. *)
Definition hoare {A} (w0 : World) (m : M A) (Q : A -> Prop) : Prop :=
  forall w, carries w0 w ->
    carries w0 (snd (m w)) /\ forall a, fst (m w) = inl a -> Q a.

(** A text on which decoding fails: not a JSON text, a JSON value that is
    neither an object nor [null], or an object with a mistyped member. *)
Definition malformed (data : string) : Prop :=
  match parse data with
  | None => True
  | Some Null => False
  | Some (Object ms) =>
    exists key v f,
      In (key, v) ms /\ lookup_field key = Some f /\ mistyped f v = true
  | Some _ => True
  end.
(** Requests and a stored record used to exercise the transactions. *)
Definition request7 : string :=
  sq "{'asset_id':'asset7','color':'pink','size':1,'owner':'Eve','appraisedValue':10}".

Definition asset7 : Asset := mkAsset "asset7" "pink" 1 "Eve" 10.

Definition request_id7 : string := sq "{'asset_id':'asset7'}".

Definition stored1 : string :=
  sq "{'asset_id':'asset1','color':'blue','size':5,'owner':'Tomoko','appraisedValue':300}".

Definition transfer1 : string :=
  sq "{'asset_id':'asset1','color':'pink','owner':'Bob'}".
End Vocabulary.

Section Outcomes.
Import shim chaincode.

(** The transactions that only read. *)
Definition is_query (tx : transaction) : bool :=
  match tx with
  | TxReadAsset _ | TxAssetExists _ | TxGetAllAssets => true
  | _ => false
  end.

(** The error a transaction returns, if any. *)
Definition error_of (tx : transaction) (w : World) : option error :=
  match tx with
  | TxInitLedger => failure (fst (InitLedger w))
  | TxCreateAsset raw => failure (fst (CreateAsset raw w))
  | TxReadAsset raw => failure (fst (ReadAsset raw w))
  | TxUpdateAsset raw => failure (fst (UpdateAsset raw w))
  | TxDeleteAsset raw => failure (fst (DeleteAsset raw w))
  | TxTransferAsset raw => failure (fst (TransferAsset raw w))
  | TxAssetExists id => failure (fst (AssetExists id w))
  | TxGetAllAssets => failure (fst (GetAllAssets w))
  end.

(** Every record is stored under its own id. *)
Definition keyed (st : gmap string string) : Prop :=
  forall k v, st !! k = Some v ->
    exists a, json.Unmarshal v zeroAsset = inl a /\ ID a = k.

(** What a successful run of a transaction with a payload requires of the
    request and of the state it starts from. *)
Definition accepted (op : operation) (req : Asset)
    (st : gmap string string) : Prop :=
  match op with
  | Create => st !! ID req = None
  | Update | Delete => is_Some (st !! ID req)
  | Read | Transfer =>
    exists stored a,
      st !! ID req = Some stored /\ json.Unmarshal stored zeroAsset = inl a
  end.
End Outcomes.

(** * Proofs *)

(** ** Bytes and UTF-8 *)

Ltac Zify.zify_post_hook ::= Z.to_euclidean_division_equations.

(** *** Bytes and bit operations *)

Lemma code_lt c : (code c < 256)%N.
Proof. apply N_ascii_bounded. Qed.

Lemma byte_of_code c : byte_of (code c) = c.
Proof.
  unfold byte_of, code. rewrite N.mod_small by apply N_ascii_bounded.
  apply ascii_N_embedding.
Qed.

Lemma code_byte_of n : (n < 256)%N -> code (byte_of n) = n.
Proof.
  intros H. unfold byte_of, code. rewrite N.mod_small by exact H.
  now apply N_ascii_embedding.
Qed.

Lemma code_inj c d : code c = code d -> c = d.
Proof. intros H. rewrite <- (byte_of_code c), <- (byte_of_code d). now rewrite H. Qed.

Section Bits.
Local Open Scope N_scope.

Lemma land_disjoint k a b : a mod 2 ^ k = 0 -> b < 2 ^ k -> N.land a b = 0.
Proof.
  intros Ha Hb. apply N.bits_inj. intros n.
  rewrite N.land_spec, N.bits_0.
  destruct (N.lt_ge_cases n k) as [Hn|Hn].
  - rewrite <- (N.mod_pow2_bits_low a k n Hn), Ha, N.bits_0. reflexivity.
  - destruct (N.eq_0_gt_0_cases b) as [->|Hpos].
    + rewrite N.bits_0. apply andb_false_r.
    + rewrite (N.bits_above_log2 b n), andb_false_r; [reflexivity|].
      apply N.lt_le_trans with k; [|exact Hn].
      now apply N.log2_lt_pow2.
Qed.

Lemma lor_add k a b : a mod 2 ^ k = 0 -> b < 2 ^ k -> N.lor a b = a + b.
Proof.
  intros Ha Hb. pose proof (land_disjoint k a b Ha Hb) as H.
  rewrite (N.add_nocarry_lxor a b H). symmetry. now apply N.lxor_lor.
Qed.

Lemma land_mod_64 x : N.land x 0x3F = x mod 64.
Proof. change 0x3F with (N.ones 6). now rewrite N.land_ones. Qed.
Lemma land_mod_32 x : N.land x 0x1F = x mod 32.
Proof. change 0x1F with (N.ones 5). now rewrite N.land_ones. Qed.
Lemma land_mod_16 x : N.land x 0x0F = x mod 16.
Proof. change 0x0F with (N.ones 4). now rewrite N.land_ones. Qed.
Lemma land_mod_8 x : N.land x 0x07 = x mod 8.
Proof. change 0x07 with (N.ones 3). now rewrite N.land_ones. Qed.

Lemma shiftl_6 x : N.shiftl x 6 = x * 64.
Proof. now rewrite N.shiftl_mul_pow2. Qed.
Lemma shiftl_10 x : N.shiftl x 10 = x * 1024.
Proof. now rewrite N.shiftl_mul_pow2. Qed.
Lemma shiftl_12 x : N.shiftl x 12 = x * 4096.
Proof. now rewrite N.shiftl_mul_pow2. Qed.
Lemma shiftl_18 x : N.shiftl x 18 = x * 262144.
Proof. now rewrite N.shiftl_mul_pow2. Qed.
Lemma shiftr_4 x : N.shiftr x 4 = x / 16.
Proof. now rewrite N.shiftr_div_pow2. Qed.
Lemma shiftr_6 x : N.shiftr x 6 = x / 64.
Proof. now rewrite N.shiftr_div_pow2. Qed.
Lemma shiftr_12 x : N.shiftr x 12 = x / 4096.
Proof. now rewrite N.shiftr_div_pow2. Qed.
Lemma shiftr_18 x : N.shiftr x 18 = x / 262144.
Proof. now rewrite N.shiftr_div_pow2. Qed.

Lemma join2 a b : b < 64 -> N.lor (a * 64) b = a * 64 + b.
Proof. intros. apply (lor_add 6); [|assumption]. change (2 ^ 6) with 64. lia. Qed.

Lemma join3 a b c :
  b < 64 -> c < 64 ->
  N.lor (N.lor (a * 4096) (b * 64)) c = a * 4096 + b * 64 + c.
Proof.
  intros. rewrite (lor_add 12 (a * 4096) (b * 64)).
  - apply (lor_add 6); [|assumption]. change (2 ^ 6) with 64. lia.
  - change (2 ^ 12) with 4096. lia.
  - change (2 ^ 12) with 4096. lia.
Qed.

Lemma join4 a b c d :
  b < 64 -> c < 64 -> d < 64 ->
  N.lor (N.lor (N.lor (a * 262144) (b * 4096)) (c * 64)) d
  = a * 262144 + b * 4096 + c * 64 + d.
Proof.
  intros. rewrite (lor_add 18 (a * 262144) (b * 4096)).
  - rewrite (lor_add 12 _ (c * 64)).
    + apply (lor_add 6); [|assumption]. change (2 ^ 6) with 64. lia.
    + change (2 ^ 12) with 4096. lia.
    + change (2 ^ 12) with 4096. lia.
  - change (2 ^ 18) with 262144. lia.
  - change (2 ^ 18) with 262144. lia.
Qed.

Lemma tag_t2 x : x < 64 -> N.lor 0xC0 x = 192 + x.
Proof. intros. now apply (lor_add 6). Qed.
Lemma tag_tx x : x < 64 -> N.lor 0x80 x = 128 + x.
Proof. intros. now apply (lor_add 6). Qed.
Lemma tag_t3 x : x < 16 -> N.lor 0xE0 x = 224 + x.
Proof. intros. now apply (lor_add 4). Qed.
Lemma tag_t4 x : x < 8 -> N.lor 0xF0 x = 240 + x.
Proof. intros. now apply (lor_add 3). Qed.
End Bits.

Ltac case_cmp :=
  match goal with
  | |- context [(?a <? ?b)%N] => destruct (N.ltb_spec a b)
  | |- context [(?a <=? ?b)%N] => destruct (N.leb_spec a b)
  | |- context [(?a =? ?b)%N] => destruct (N.eqb_spec a b)
  | |- context [(?a <=? ?b)%nat] => destruct (Nat.leb_spec a b)
  end.

Ltac decide_cmp :=
  repeat (progress (
    try match goal with
    | |- context [(?a <? ?b)%N] =>
      first [ rewrite (proj2 (N.ltb_lt a b)) by lia
            | rewrite (proj2 (N.ltb_ge a b)) by lia ]
    | |- context [(?a <=? ?b)%N] =>
      first [ rewrite (proj2 (N.leb_le a b)) by lia
            | rewrite (proj2 (N.leb_gt a b)) by lia ]
    | |- context [(?a =? ?b)%N] =>
      first [ rewrite (proj2 (N.eqb_eq a b)) by lia
            | rewrite (proj2 (N.eqb_neq a b)) by lia ]
    end; cbn [andb orb negb])).

Ltac unfold_utf8 :=
  unfold utf8.maskx, utf8.mask2, utf8.mask3, utf8.mask4, utf8.t2, utf8.t3,
    utf8.t4, utf8.tx, utf8.rune1Max, utf8.rune2Max, utf8.rune3Max,
    utf8.locb, utf8.hicb, utf8.MaxRune, utf8.surrogateMin, utf8.surrogateMax,
    utf8.RuneError, utf8.RuneSelf in *.

Ltac norm_bits :=
  rewrite ?land_mod_64, ?land_mod_32, ?land_mod_16, ?land_mod_8,
    ?shiftl_6, ?shiftl_12, ?shiftl_18, ?shiftr_6, ?shiftr_12, ?shiftr_18.

Section Encode.
Local Open Scope N_scope.
Import utf8.

Lemma first_ASCII c : first c = LeadASCII <-> code c < 0x80.
Proof.
  unfold first. unfold_utf8. cbv zeta.
  repeat (case_cmp; try (split; [discriminate || lia | discriminate || lia])).
  all: split; intros; (reflexivity || lia || discriminate).
Qed.

Lemma first_Invalid c :
  first c = LeadInvalid -> 0x80 <= code c.
Proof.
  unfold first. unfold_utf8. cbv zeta.
  repeat (case_cmp; try discriminate; try lia).
Qed.

Lemma first_Lead c sz lo hi :
  first c = Lead sz lo hi ->
  (sz = 2%nat /\ lo = 0x80 /\ hi = 0xBF /\ 0xC2 <= code c <= 0xDF) \/
  (sz = 3%nat /\ lo = 0xA0 /\ hi = 0xBF /\ code c = 0xE0) \/
  (sz = 3%nat /\ lo = 0x80 /\ hi = 0xBF /\
     (0xE1 <= code c <= 0xEC \/ 0xEE <= code c <= 0xEF)) \/
  (sz = 3%nat /\ lo = 0x80 /\ hi = 0x9F /\ code c = 0xED) \/
  (sz = 4%nat /\ lo = 0x90 /\ hi = 0xBF /\ code c = 0xF0) \/
  (sz = 4%nat /\ lo = 0x80 /\ hi = 0xBF /\ 0xF1 <= code c <= 0xF3) \/
  (sz = 4%nat /\ lo = 0x80 /\ hi = 0x8F /\ code c = 0xF4).
Proof.
  unfold first. unfold_utf8. cbv zeta.
  repeat (case_cmp; try discriminate); intros [= <- <- <-]; intuition lia.
Qed.

(** The encodings, in arithmetic form. *)
Lemma EncodeRune_1 r :
  r < 0x80 -> EncodeRune r = String (byte_of r) EmptyString.
Proof. intros. unfold EncodeRune. unfold_utf8. decide_cmp. reflexivity. Qed.

Lemma EncodeRune_2 r :
  0x80 <= r <= 0x7FF ->
  EncodeRune r = String (byte_of (192 + r / 64))
                   (String (byte_of (128 + r mod 64)) EmptyString).
Proof.
  intros. unfold EncodeRune. unfold_utf8. decide_cmp. norm_bits.
  rewrite tag_t2, tag_tx by lia. reflexivity.
Qed.

Lemma EncodeRune_3 r :
  0x800 <= r <= 0xFFFF -> ~ (0xD800 <= r <= 0xDFFF) ->
  EncodeRune r =
    String (byte_of (224 + r / 4096))
      (String (byte_of (128 + (r / 64) mod 64))
        (String (byte_of (128 + r mod 64)) EmptyString)).
Proof.
  intros. unfold EncodeRune. unfold_utf8. cbv zeta.
  assert ((55296 <=? r) && (r <=? 57343) = false) as ->.
  { apply andb_false_iff. rewrite N.leb_gt, N.leb_gt. lia. }
  decide_cmp. norm_bits.
  rewrite tag_t3, !tag_tx by lia. reflexivity.
Qed.

Lemma EncodeRune_4 r :
  0x10000 <= r <= 0x10FFFF ->
  EncodeRune r =
    String (byte_of (240 + r / 262144))
      (String (byte_of (128 + (r / 4096) mod 64))
        (String (byte_of (128 + (r / 64) mod 64))
          (String (byte_of (128 + r mod 64)) EmptyString))).
Proof.
  intros. unfold EncodeRune. unfold_utf8. cbv zeta. decide_cmp. norm_bits.
  rewrite tag_t4, !tag_tx by lia. reflexivity.
Qed.

Lemma EncodeRune_invalid r :
  0x10FFFF < r \/ 0xD800 <= r <= 0xDFFF ->
  EncodeRune r = EncodeRune RuneError.
Proof.
  intros. unfold EncodeRune at 1. unfold_utf8. cbv zeta.
  assert ((1114111 <? r) || (55296 <=? r) && (r <=? 57343) = true) as ->.
  { apply orb_true_iff. rewrite andb_true_iff, N.ltb_lt, !N.leb_le. lia. }
  decide_cmp. reflexivity.
Qed.
End Encode.

Section Decode1.
Local Open Scope N_scope.
Import utf8.

Lemma Decode_1 c X :
  code c < 0x80 -> DecodeRuneInString (String c X) = (code c, 1%nat).
Proof.
  intros H. unfold DecodeRuneInString.
  now rewrite (proj2 (first_ASCII c) H).
Qed.

Lemma Decode_2 c0 c1 X :
  0xC2 <= code c0 <= 0xDF -> cont c1 ->
  DecodeRuneInString (String c0 (String c1 X))
  = ((code c0 - 192) * 64 + (code c1 - 128), 2%nat).
Proof.
  unfold cont. intros H0 H1. unfold DecodeRuneInString, first. unfold_utf8.
  cbv zeta. decide_cmp. cbn [Nat.leb]. norm_bits.
  rewrite join2 by lia. f_equal. lia.
Qed.

Lemma Decode_3 c0 c1 c2 X :
  0xE0 <= code c0 <= 0xEF -> second_ok c0 c1 -> cont c2 ->
  DecodeRuneInString (String c0 (String c1 (String c2 X)))
  = ((code c0 - 224) * 4096 + (code c1 - 128) * 64 + (code c2 - 128), 3%nat).
Proof.
  unfold second_ok, cont. intros H0 H1 H2.
  unfold DecodeRuneInString, first. unfold_utf8. cbv zeta.
  destruct (N.eq_dec (code c0) 0xE0) as [E|E];
    [|destruct (N.lt_total (code c0) 0xED) as [E'|[E'|E']]].
  all: decide_cmp; cbn [Nat.leb]; norm_bits;
    rewrite join3 by lia; f_equal; lia.
Qed.

Lemma Decode_4 c0 c1 c2 c3 X :
  0xF0 <= code c0 <= 0xF4 -> second_ok c0 c1 -> cont c2 -> cont c3 ->
  DecodeRuneInString (String c0 (String c1 (String c2 (String c3 X))))
  = ((code c0 - 240) * 262144 + (code c1 - 128) * 4096
     + (code c2 - 128) * 64 + (code c3 - 128), 4%nat).
Proof.
  unfold second_ok, cont. intros H0 H1 H2 H3.
  unfold DecodeRuneInString, first. unfold_utf8. cbv zeta.
  destruct (N.eq_dec (code c0) 0xF0) as [E|E];
    [|destruct (N.lt_total (code c0) 0xF4) as [E'|[E'|E']]].
  all: try (exfalso; lia).
  all: decide_cmp; cbn [Nat.leb]; norm_bits;
    rewrite join4 by lia; f_equal; lia.
Qed.
End Decode1.

Section DecodeView.
Local Open Scope N_scope.
Import utf8.

Lemma decode_view c0 t : decoded c0 t (DecodeRuneInString (String c0 t)).
Proof.
  destruct (N.lt_ge_cases (code c0) 0x80) as [Ha|Ha].
  { rewrite Decode_1 by exact Ha. now constructor. }
  destruct (first c0) as [| |sz lo hi] eqn:Hf.
  - apply first_ASCII in Hf. lia.
  - unfold DecodeRuneInString. rewrite Hf. now apply dec_error.
  - pose proof (first_Lead _ _ _ _ Hf) as HL.
    destruct t as [|c1 t1];
      [unfold DecodeRuneInString; rewrite Hf; now apply dec_error|].
    destruct (N.lt_ge_cases (code c1) lo) as [H1|H1];
      [|destruct (N.lt_ge_cases hi (code c1)) as [H1'|H1']].
    1,2: unfold DecodeRuneInString; rewrite Hf; decide_cmp;
      now apply dec_error.
    assert (Hs : second_ok c0 c1)
      by (unfold second_ok, cont; decompose [and or] HL; subst; lia).
    destruct HL as [HL|HL].
    { destruct HL as (-> & -> & -> & Hc0).
      rewrite Decode_2 by (unfold cont; lia).
      eapply dec_2; [reflexivity| lia | unfold cont; lia]. }
    assert (Hsz2 : (sz <=? 2)%nat = false)
      by (decompose [and or] HL; subst; reflexivity).
    destruct t1 as [|c2 t2].
    { unfold DecodeRuneInString; rewrite Hf; decide_cmp. rewrite Hsz2.
      now apply dec_error. }
    destruct (N.lt_ge_cases (code c2) 0x80) as [H2|H2];
      [|destruct (N.lt_ge_cases 0xBF (code c2)) as [H2'|H2']].
    1,2: unfold DecodeRuneInString; rewrite Hf; unfold_utf8; decide_cmp;
      rewrite Hsz2; now apply dec_error.
    assert (H3lead : 0xE0 <= code c0 <= 0xEF \/
                     (sz = 4%nat /\ 0xF0 <= code c0 <= 0xF4))
      by (decompose [and or] HL; subst; lia).
    destruct H3lead as [Hc0|[Hsz Hc0]].
    { rewrite Decode_3 by (unfold cont; first [lia | assumption]).
      eapply dec_3; [reflexivity| lia | assumption | unfold cont; lia]. }
    destruct t2 as [|c3 t3].
    { unfold DecodeRuneInString; rewrite Hf; unfold_utf8; decide_cmp.
      subst sz. cbn [Nat.leb]. now apply dec_error. }
    destruct (N.lt_ge_cases (code c3) 0x80) as [H3|H3];
      [|destruct (N.lt_ge_cases 0xBF (code c3)) as [H3'|H3']].
    1,2: unfold DecodeRuneInString; rewrite Hf; unfold_utf8; decide_cmp;
      subst sz; cbn [Nat.leb]; now apply dec_error.
    rewrite Decode_4 by (unfold cont; first [lia | assumption]).
    eapply dec_4; [reflexivity| lia | assumption | unfold cont; lia ..].
Qed.
End DecodeView.

Lemma append_nil_r s : s +:+ "" = s.
Proof. induction s; cbn; congruence. Qed.

Lemma append_assoc s t u : (s +:+ t) +:+ u = s +:+ (t +:+ u).
Proof. induction s; cbn; congruence. Qed.

Lemma length_append s t : String.length (s +:+ t) = (String.length s + String.length t)%nat.
Proof. induction s; cbn; congruence. Qed.

Lemma string_length_ind (P : string -> Prop) :
  (forall s, (forall t, (String.length t < String.length s)%nat -> P t) -> P s) ->
  forall s, P s.
Proof.
  intros step s. remember (String.length s) as n eqn:Hn.
  revert s Hn. induction n as [n IH] using lt_wf_ind.
  intros s ->. apply step. intros t Ht. eapply IH; [exact Ht|reflexivity].
Qed.

Section Runes.
Local Open Scope N_scope.
Import utf8.

Lemma runes_cons c0 t :
  exists x rest,
    runes (String c0 t) = x :: runes rest /\ rune_item x /\
    String c0 t = snd x +:+ rest /\
    (String.length rest < String.length (String c0 t))%nat.
Proof.
  cbn [runes]. pose proof (decode_view c0 t) as D.
  destruct (DecodeRuneInString (String c0 t)) as [r n].
  inversion D; subst; cbn.
  - exists (code c0, String c0 ""), t. repeat split; [now constructor|lia].
  - exists (RuneError, String c0 ""), t. repeat split; [now constructor|lia].
  - eexists (_, _), _. repeat split; [now constructor|lia].
  - eexists (_, _), _. repeat split; [now constructor|lia].
  - eexists (_, _), _. repeat split; [now constructor|lia].
Qed.

Lemma runes_items s : Forall rune_item (runes s).
Proof.
  induction s as [s IH] using string_length_ind.
  destruct s as [|c0 t]; [constructor|].
  destruct (runes_cons c0 t) as (x & rest & -> & Hx & _ & Hlen).
  constructor; [exact Hx|]. now apply IH.
Qed.

Lemma runes_flatten s : json.flatten (map snd (runes s)) = s.
Proof.
  induction s as [s IH] using string_length_ind.
  destruct s as [|c0 t]; [reflexivity|].
  destruct (runes_cons c0 t) as (x & rest & -> & Hx & Heq & Hlen).
  cbn [map json.flatten]. rewrite (IH rest Hlen). now symmetry.
Qed.

(** Re-encoding a rune that was decoded from well-formed bytes gives the
    bytes back. *)
Lemma encode_item x :
  rune_item x -> is_error x = false -> EncodeRune (fst x) = snd x.
Proof.
  destruct 1 as [c Hc|c Hc|c0 c1 H0 H1|c0 c1 c2 H0 H1 H2|c0 c1 c2 c3 H0 H1 H2 H3];
    cbn [fst snd]; intros He; unfold second_ok, cont in *.
  - rewrite EncodeRune_1 by exact Hc. now rewrite byte_of_code.
  - unfold is_error in He. cbn in He. discriminate.
  - unfold val2. rewrite EncodeRune_2 by lia.
    repeat f_equal; apply code_inj; rewrite code_byte_of by lia; lia.
  - unfold val3. rewrite EncodeRune_3 by lia.
    repeat f_equal; apply code_inj; rewrite code_byte_of by lia; lia.
  - unfold val4. rewrite EncodeRune_4 by lia.
    repeat f_equal; apply code_inj; rewrite code_byte_of by lia; lia.
Qed.

(** Well-formed bytes are read back as the rune they carry, whatever
    follows them. *)
Lemma runes_item x rest :
  rune_item x -> is_error x = false ->
  runes (snd x +:+ rest) = x :: runes rest.
Proof.
  destruct 1 as [c Hc|c Hc|c0 c1 H0 H1|c0 c1 c2 H0 H1 H2|c0 c1 c2 c3 H0 H1 H2 H3];
    cbn [fst snd]; intros He.
  - cbn [String.append runes]. now rewrite Decode_1 by exact Hc.
  - unfold is_error in He. cbn in He. discriminate.
  - cbn [String.append runes]. now rewrite Decode_2 by assumption.
  - cbn [String.append runes]. now rewrite Decode_3 by assumption.
  - cbn [String.append runes]. now rewrite Decode_4 by assumption.
Qed.

Lemma is_error_multi r c0 c1 t :
  is_error (r, String c0 (String c1 t)) = false.
Proof. unfold is_error. cbn. apply andb_false_r. Qed.

Lemma encode_is_item r :
  rune_item (scalar r, EncodeRune r) /\
  is_error (scalar r, EncodeRune r) = false.
Proof.
  assert (Hbyte : forall n, n < 256 -> code (byte_of n) = n)
    by exact code_byte_of.
  unfold scalar. unfold_utf8.
  destruct (N.lt_ge_cases r 0x80) as [H1|H1].
  { decide_cmp. rewrite EncodeRune_1 by exact H1. split.
    - rewrite <- (code_byte_of r) at 1 by lia.
      apply item_ascii. rewrite code_byte_of; lia.
    - unfold is_error. cbn. unfold_utf8.
      rewrite (proj2 (N.eqb_neq r 65533)) by lia. reflexivity. }
  destruct (N.le_gt_cases r 0x7FF) as [H2|H2].
  { decide_cmp. rewrite EncodeRune_2 by lia. split; [|apply is_error_multi].
    set (c0 := byte_of (192 + r / 64)). set (c1 := byte_of (128 + r mod 64)).
    assert (E0 : code c0 = 192 + r / 64) by (apply Hbyte; lia).
    assert (E1 : code c1 = 128 + r mod 64) by (apply Hbyte; lia).
    replace r with (val2 c0 c1) at 1 by (unfold val2; lia).
    apply item_2; unfold cont; lia. }
  assert (H3item : forall q, 0x800 <= q <= 0xFFFF -> ~ (0xD800 <= q <= 0xDFFF) ->
            rune_item (q, EncodeRune q) /\ is_error (q, EncodeRune q) = false).
  { intros q Hq Hs. rewrite EncodeRune_3 by assumption. split; [|apply is_error_multi].
    set (c0 := byte_of (224 + q / 4096)).
    set (c1 := byte_of (128 + (q / 64) mod 64)).
    set (c2 := byte_of (128 + q mod 64)).
    assert (E0 : code c0 = 224 + q / 4096) by (apply Hbyte; lia).
    assert (E1 : code c1 = 128 + (q / 64) mod 64) by (apply Hbyte; lia).
    assert (E2 : code c2 = 128 + q mod 64) by (apply Hbyte; lia).
    replace q with (val3 c0 c1 c2) at 1 by (unfold val3; lia).
    apply item_3; unfold second_ok, cont; lia. }
  destruct (N.ltb_spec 1114111 r) as [H4|H4]; cbn [orb].
  { rewrite EncodeRune_invalid by (unfold_utf8; lia). apply (H3item 65533); lia. }
  destruct (N.leb_spec 55296 r) as [H5|H5]; cbn [andb];
    [destruct (N.leb_spec r 57343) as [H6|H6]|].
  { rewrite EncodeRune_invalid by (unfold_utf8; lia). apply (H3item 65533); lia. }
  all: destruct (N.le_gt_cases r 0xFFFF) as [H7|H7]; [apply H3item; lia|].
  all: try lia.
  rewrite EncodeRune_4 by lia. split; [|apply is_error_multi].
  set (c0 := byte_of (240 + r / 262144)).
  set (c1 := byte_of (128 + (r / 4096) mod 64)).
  set (c2 := byte_of (128 + (r / 64) mod 64)).
  set (c3 := byte_of (128 + r mod 64)).
  assert (E0 : code c0 = 240 + r / 262144) by (apply Hbyte; lia).
  assert (E1 : code c1 = 128 + (r / 4096) mod 64) by (apply Hbyte; lia).
  assert (E2 : code c2 = 128 + (r / 64) mod 64) by (apply Hbyte; lia).
  assert (E3 : code c3 = 128 + r mod 64) by (apply Hbyte; lia).
  replace r with (val4 c0 c1 c2 c3) at 1 by (unfold val4; lia).
  apply item_4; unfold second_ok, cont; lia.
Qed.
End Runes.

Section Strings.
Local Open Scope N_scope.
Import utf8 json.

Lemma eqb_code c d : code c <> code d -> Ascii.eqb c d = false.
Proof. intros H. apply Ascii.eqb_neq. congruence. Qed.

Lemma flatten_app l1 l2 : flatten (l1 ++ l2) = flatten l1 +:+ flatten l2.
Proof. induction l1; cbn; [reflexivity|]. now rewrite IHl1, append_assoc. Qed.

(** *** Equations of [unquote] *)

Lemma unquote_ascii c T :
  code c < 0x80 -> htmlSafeSet c = true ->
  unquote (String c T) = emit (String c "") (unquote T).
Proof.
  intros Hc. destruct c as [b0 b1 b2 b3 b4 b5 b6 b7].
  destruct b7; [exfalso; destruct b0, b1, b2, b3, b4, b5, b6;
                vm_compute in Hc; discriminate Hc|].
  destruct b0, b1, b2, b3, b4, b5, b6;
    first [ intros _; reflexivity | intros H; vm_compute in H; discriminate H ].
Qed.

Lemma unquote_escapeByte c T :
  code c < 0x80 -> htmlSafeSet c = false ->
  unquote (escapeByte c +:+ T) = emit (String c "") (unquote T).
Proof.
  intros Hc. destruct c as [b0 b1 b2 b3 b4 b5 b6 b7].
  destruct b7; [exfalso; destruct b0, b1, b2, b3, b4, b5, b6;
                vm_compute in Hc; discriminate Hc|].
  destruct b0, b1, b2, b3, b4, b5, b6;
    first [ intros _; reflexivity | intros H; vm_compute in H; discriminate H ].
Qed.

Lemma unquote_multi c0 t r n :
  0x80 <= code c0 ->
  DecodeRuneInString (String c0 t) = (r, n) ->
  unquote (String c0 t) =
    match n, t with
    | 2%nat, String _ t1 => emit (EncodeRune r) (unquote t1)
    | 3%nat, String _ (String _ t2) => emit (EncodeRune r) (unquote t2)
    | 4%nat, String _ (String _ (String _ t3)) =>
        emit (EncodeRune r) (unquote t3)
    | _, _ => emit (EncodeRune r) (unquote t)
    end.
Proof.
  intros Hc Hd. cbn [unquote]. rewrite Hd.
  rewrite !eqb_code by (vm_compute (code dquote); vm_compute (code backslash); lia).
  unfold RuneSelf. decide_cmp. reflexivity.
Qed.

Lemma unquote_replacement T :
  unquote (String backslash "ufffd" +:+ T)
  = emit (EncodeRune RuneError) (unquote T).
Proof. reflexivity. Qed.

Lemma unquote_line_separator (r : N) T :
  r = 0x2028 \/ r = 0x2029 ->
  unquote (("\u202" +:+ String (hex (N.land r 0xF)) "") +:+ T)
  = emit (EncodeRune r) (unquote T).
Proof. intros [->| ->]; reflexivity. Qed.

Lemma unquote_appendRune x T :
  rune_item x ->
  unquote (appendRune x +:+ T) = emit (EncodeRune (fst x)) (unquote T).
Proof.
  destruct 1 as [c Hc|c Hc|c0 c1 H0 H1|c0 c1 c2 H0 H1 H2|c0 c1 c2 c3 H0 H1 H2 H3];
    unfold appendRune; cbn [fst snd]; unfold RuneSelf.
  - rewrite (proj2 (N.ltb_lt _ _) Hc).
    rewrite EncodeRune_1, byte_of_code by exact Hc.
    destruct (htmlSafeSet c) eqn:Hs.
    + now apply unquote_ascii.
    + now apply unquote_escapeByte.
  - rewrite (proj2 (N.ltb_ge _ _) Hc).
    unfold is_error. cbn. apply unquote_replacement.
  - rewrite (proj2 (N.ltb_ge _ _)) by lia. rewrite is_error_multi.
    unfold cont in H1.
    replace ((val2 c0 c1 =? 8232) || (val2 c0 c1 =? 8233)) with false
      by (unfold val2; decide_cmp; reflexivity).
    cbn [String.append].
    rewrite (unquote_multi c0 _ _ _ ltac:(lia) (Decode_2 c0 c1 T H0 H1)).
    reflexivity.
  - rewrite (proj2 (N.ltb_ge _ _)) by lia. rewrite is_error_multi.
    destruct ((val3 c0 c1 c2 =? 8232) || (val3 c0 c1 c2 =? 8233)) eqn:Hls.
    + apply unquote_line_separator.
      apply orb_true_iff in Hls. rewrite !N.eqb_eq in Hls. exact Hls.
    + cbn [String.append].
      rewrite (unquote_multi c0 _ _ _ ltac:(lia) (Decode_3 c0 c1 c2 T H0 H1 H2)).
      reflexivity.
  - rewrite (proj2 (N.ltb_ge _ _)) by lia. rewrite is_error_multi.
    unfold second_ok, cont in *.
    replace ((val4 c0 c1 c2 c3 =? 8232) || (val4 c0 c1 c2 c3 =? 8233)) with false
      by (unfold val4; decide_cmp; reflexivity).
    cbn [String.append].
    rewrite (unquote_multi c0 _ _ _ ltac:(lia)
               (Decode_4 c0 c1 c2 c3 T H0 ltac:(unfold second_ok, cont; lia)
                         ltac:(unfold cont; lia) ltac:(unfold cont; lia))).
    reflexivity.
Qed.

Lemma unquote_items l rest :
  Forall rune_item l ->
  unquote (flatten (map appendRune l) +:+ String dquote rest)
  = Some (flatten (map (fun x => EncodeRune (fst x)) l), rest).
Proof.
  induction 1 as [|x l Hx Hl IH]; [reflexivity|].
  cbn [map flatten]. rewrite append_assoc, unquote_appendRune by exact Hx.
  now rewrite IH.
Qed.

(** A string literal written by [appendString] is read back, up to the
    replacement of invalid UTF-8. *)
Lemma unquote_appendBody s rest :
  unquote (appendBody s +:+ String dquote rest) = Some (sanitize s, rest).
Proof. apply unquote_items, runes_items. Qed.

Lemma sanitize_valid s : ValidString s = true -> sanitize s = s.
Proof.
  unfold ValidString, sanitize. intros Hv.
  rewrite <- (runes_flatten s) at 2.
  pose proof (runes_items s) as Hi.
  induction Hi as [|x l Hx Hl IH]; [reflexivity|].
  cbn in Hv. apply andb_true_iff in Hv as [Hx' Hv].
  cbn [map flatten]. rewrite IH by exact Hv.
  rewrite encode_item; [reflexivity|exact Hx|].
  now apply negb_true_iff.
Qed.
End Strings.

Lemma emit_Some chunk k body rest :
  json.emit chunk k = Some (body, rest) ->
  exists b, k = Some (b, rest) /\ body = chunk +:+ b.
Proof.
  destruct k as [[b r]|]; cbn; [|discriminate].
  intros [= <- <-]. eauto.
Qed.

Ltac emitted vtac :=
  match goal with
  | H : json.emit ?chunk (json.unquote ?s') = Some _ |- _ =>
    let b' := fresh "b" in
    let Hb := fresh "Hb" in
    apply emit_Some in H as (b' & Hb & ->);
    exists chunk, s', b'; split; [exact Hb|]; split; [reflexivity|];
    split; [cbn [String.length]; lia|]; intros; vtac
  end.

Section Valid.
Local Open Scope N_scope.
Import utf8 json.

Lemma valid_item x body :
  rune_item x -> is_error x = false ->
  ValidString (snd x +:+ body) = ValidString body.
Proof.
  intros Hx He. unfold ValidString. rewrite runes_item by assumption.
  cbn [forallb]. now rewrite He.
Qed.

Lemma valid_encode r body :
  ValidString (EncodeRune r +:+ body) = ValidString body.
Proof.
  destruct (encode_is_item r) as [Hi He].
  exact (valid_item (scalar r, EncodeRune r) body Hi He).
Qed.

Lemma valid_ascii c body :
  code c < 0x80 -> ValidString (String c body) = ValidString body.
Proof.
  intros Hc. apply (valid_item (code c, String c "") body).
  - now constructor.
  - unfold is_error. cbn. unfold RuneError.
    rewrite (proj2 (N.eqb_neq _ _)) by lia. reflexivity.
Qed.

Lemma unescape_ascii e x : unescape e = Some x -> code x < 0x80.
Proof.
  unfold unescape.
  destruct (Ascii.eqb e dquote) eqn:E1; cbn [orb].
  { apply Ascii.eqb_eq in E1. intros [= <-]. subst e. vm_compute. reflexivity. }
  destruct (Ascii.eqb e backslash) eqn:E2; cbn [orb].
  { apply Ascii.eqb_eq in E2. intros [= <-]. subst e. vm_compute. reflexivity. }
  destruct (Ascii.eqb e "/") eqn:E3; cbn [orb].
  { apply Ascii.eqb_eq in E3. intros [= <-]. subst e. vm_compute. reflexivity. }
  repeat match goal with
  | |- context [if ?b then _ else _] => destruct b
  end; intros [= <-]; vm_compute; reflexivity.
Qed.

(** What a step of [unquote] does: it stops at the closing quote, or it
    emits one well-formed chunk and goes on with a shorter input. *)
Lemma unquote_step s body rest :
  unquote s = Some (body, rest) ->
  (body = "" /\ (String.length rest < String.length s)%nat) \/
  exists chunk s' body',
    unquote s' = Some (body', rest) /\ body = chunk +:+ body' /\
    (String.length s' < String.length s)%nat /\
    (forall t, ValidString (chunk +:+ t) = ValidString t).
Proof.
  destruct s as [|c t]; [discriminate|]. cbn [unquote].
  destruct (Ascii.eqb c dquote).
  { intros [= <- <-]. left. split; [reflexivity|cbn; lia]. }
  intros H. right.
  destruct (Ascii.eqb c backslash).
  { destruct t as [|e t1]; [discriminate|].
    destruct (Ascii.eqb e "u").
    - destruct t1 as [|h1 [|h2 [|h3 [|h4 t2]]]]; try discriminate.
      destruct (hex4 h1 h2 h3 h4) as [rr|]; [|discriminate].
      destruct (utf16.IsSurrogate rr).
      + destruct t2 as [|b [|u [|g1 [|g2 [|g3 [|g4 t3]]]]]];
          try (emitted ltac:(apply valid_encode)).
        cbv zeta in H.
        destruct (_ =? RuneError); emitted ltac:(apply valid_encode).
      + emitted ltac:(apply valid_encode).
    - destruct (unescape e) as [x|] eqn:Hx; [|discriminate].
      emitted ltac:(apply valid_ascii; eapply unescape_ascii; eassumption). }
  destruct (code c <? 32); [discriminate|].
  destruct (N.ltb_spec (code c) RuneSelf) as [Hc|Hc].
  { emitted ltac:(now apply valid_ascii). }
  destruct (DecodeRuneInString (String c t)) as [rr size].
  destruct size as [|[|[|[|[|size]]]]];
    try (emitted ltac:(apply valid_encode)).
  - destruct t as [|c1 t1]; emitted ltac:(apply valid_encode).
  - destruct t as [|c1 [|c2 t2]]; emitted ltac:(apply valid_encode).
  - destruct t as [|c1 [|c2 [|c3 t3]]]; emitted ltac:(apply valid_encode).
Qed.

(** Whatever [unquote] returns is valid UTF-8, and it consumes input. *)
Lemma unquote_valid s : forall body rest,
  unquote s = Some (body, rest) ->
  ValidString body = true /\ (String.length rest < String.length s)%nat.
Proof.
  induction s as [s IH] using string_length_ind.
  intros body rest H.
  destruct (unquote_step s body rest H)
    as [[-> Hl]|(chunk & s' & body' & H' & -> & Hlen & Hv)].
  - split; [reflexivity|exact Hl].
  - destruct (IH s' Hlen body' rest H') as [Hb Hr].
    rewrite Hv. split; [exact Hb|lia].
Qed.
End Valid.

Ltac Zify.zify_post_hook ::= idtac.

(** ** The scanner, numbers and the codec *)

Section Fuel.
Import json.

Lemma skip_ws_length s : (String.length (skip_ws s) <= String.length s)%nat.
Proof.
  induction s as [|c t IH]; cbn; [lia|].
  destruct (isSpace c); cbn; lia.
Qed.

Lemma span_digits_length s ds rest :
  span_digits s = (ds, rest) ->
  (String.length rest <= String.length s)%nat.
Proof.
  revert ds rest. induction s as [|c t IH]; intros ds rest; cbn.
  - intros [= _ <-]. cbn. lia.
  - destruct (isDigit c).
    + destruct (span_digits t) as [ds' r] eqn:Ht. intros [= _ <-].
      specialize (IH _ _ eq_refl). lia.
    + intros [= _ <-]. cbn. lia.
Qed.

Lemma digits1_length s ds rest :
  digits1 s = Some (ds, rest) ->
  (String.length rest <= String.length s)%nat.
Proof.
  unfold digits1. destruct (span_digits s) as [[|c ds'] r] eqn:Hs;
    [discriminate|].
  intros [= _ <-]. eapply span_digits_length; eassumption.
Qed.

Lemma strip_length p : forall s rest,
  strip p s = Some rest ->
  (String.length rest + String.length p = String.length s)%nat.
Proof.
  induction p as [|a p IH]; intros s rest; cbn.
  - intros [= <-]. lia.
  - destruct s as [|b s]; [discriminate|].
    destruct (Ascii.eqb a b); [|discriminate].
    intros H. apply IH in H. cbn. lia.
Qed.

Lemma scan_number_length s lit rest :
  scan_number s = Some (lit, rest) ->
  (String.length rest < String.length s)%nat.
Proof.
  unfold scan_number.
  set (p := match s with
            | String c t => if Ascii.eqb c "-" then ("-", t) else (EmptyString, s)
            | EmptyString => (EmptyString, s)
            end).
  assert (Hp : (String.length (snd p) <= String.length s)%nat).
  { subst p. destruct s as [|c t]; cbn; [lia|].
    destruct (Ascii.eqb c "-"); cbn; lia. }
  destruct p as [sign s1]. cbn in Hp.
  destruct s1 as [|c1 t1]; [discriminate|].
  assert (Hint : forall ip s2,
    (if Ascii.eqb c1 "0" then Some ("0", t1)
     else if isDigit c1 then Some (span_digits (String c1 t1)) else None)
    = Some (ip, s2) -> (String.length s2 < String.length (String c1 t1))%nat).
  { intros ip s2. destruct (Ascii.eqb c1 "0"); [intros [= _ <-]; cbn; lia|].
    destruct (isDigit c1) eqn:Hd; [|discriminate].
    cbn [span_digits]. rewrite Hd.
    destruct (span_digits t1) as [ds r] eqn:Ht. intros [= _ <-].
    apply span_digits_length in Ht. cbn. lia. }
  destruct (if Ascii.eqb c1 "0" then _ else _) as [[ip s2]|]; [|discriminate].
  specialize (Hint _ _ eq_refl).
  match goal with |- match ?fr with _ => _ end = _ -> _ =>
    assert (Hfr : forall fp s3, fr = Some (fp, s3) ->
              (String.length s3 <= String.length s2)%nat);
    [|destruct fr as [[fp s3]|]; [specialize (Hfr _ _ eq_refl)|discriminate]]
  end.
  { intros fp s3. destruct s2 as [|c2 t2]; [intros [= _ <-]; cbn; lia|].
    destruct (Ascii.eqb c2 "."); [|intros [= _ <-]; cbn; lia].
    destruct (digits1 t2) as [[ds r]|] eqn:Hd; [|discriminate].
    intros [= _ <-]. apply digits1_length in Hd. cbn. lia. }
  match goal with |- match ?ex with _ => _ end = _ -> _ =>
    assert (Hex : forall ep s4, ex = Some (ep, s4) ->
              (String.length s4 <= String.length s3)%nat);
    [|destruct ex as [[ep s4]|]; [specialize (Hex _ _ eq_refl)|discriminate]]
  end.
  { intros ep s4. destruct s3 as [|c3 t3]; [intros [= _ <-]; cbn; lia|].
    destruct (_ || _); [|intros [= _ <-]; cbn; lia].
    destruct t3 as [|d t']; cbn [fst snd].
    - destruct (digits1 "") as [[ds r]|] eqn:Hd; [|discriminate].
      intros [= _ <-]. apply digits1_length in Hd. cbn in *. lia.
    - destruct (_ || _).
      + destruct (digits1 t') as [[ds r]|] eqn:Hd; [|discriminate].
        intros [= _ <-]. apply digits1_length in Hd. cbn in *. lia.
      + destruct (digits1 (String d t')) as [[ds r]|] eqn:Hd; [|discriminate].
        intros [= _ <-]. apply digits1_length in Hd. cbn in *. lia. }
  intros [= _ <-]. cbn in *. lia.
Qed.

Lemma scan_value_steady f :
  steady scan_members f -> steady scan_elements f -> steady scan_value (S f).
Proof.
  intros Hms Hes d s v rest. cbn [scan_value].
  destruct s as [|c t]; [discriminate|].
  destruct (Ascii.eqb c "{") eqn:Hobj.
  { destruct (_ <? _)%N eqn:Hdepth; [discriminate|].
    pose proof (skip_ws_length t) as Hws.
    destruct (skip_ws t) as [|c' t'] eqn:Ht; [discriminate|].
    destruct (Ascii.eqb c' "}") eqn:Hclose.
    - intros [= <- <-]. cbn in *. split; [lia|].
      intros [|f'] Hf'; [lia|]. cbn [scan_value].
      now rewrite Hobj, Hdepth, Ht, Hclose.
    - destruct (scan_members f _ _) as [[ms r]|] eqn:Hm; [|discriminate].
      intros [= <- <-]. destruct (Hms _ _ _ _ Hm) as [Hlen Hf].
      cbn in *. split; [lia|].
      intros [|f'] Hf'; [lia|]. cbn [scan_value].
      rewrite Hobj, Hdepth, Ht, Hclose, Hf; [reflexivity | cbn; lia]. }
  destruct (Ascii.eqb c "[") eqn:Harr.
  { destruct (_ <? _)%N eqn:Hdepth; [discriminate|].
    pose proof (skip_ws_length t) as Hws.
    destruct (skip_ws t) as [|c' t'] eqn:Ht; [discriminate|].
    destruct (Ascii.eqb c' "]") eqn:Hclose.
    - intros [= <- <-]. cbn in *. split; [lia|].
      intros [|f'] Hf'; [lia|]. cbn [scan_value].
      now rewrite Hobj, Harr, Hdepth, Ht, Hclose.
    - destruct (scan_elements f _ _) as [[vs r]|] eqn:He; [|discriminate].
      intros [= <- <-]. destruct (Hes _ _ _ _ He) as [Hlen Hf].
      cbn in *. split; [lia|].
      intros [|f'] Hf'; [lia|]. cbn [scan_value].
      rewrite Hobj, Harr, Hdepth, Ht, Hclose, Hf; [reflexivity | cbn; lia]. }
  assert (Hleaf : forall r0,
    (if Ascii.eqb c dquote
     then match unquote t with
          | Some (str, rest) => Some (Str str, rest)
          | None => None
          end
     else if Ascii.eqb c "-" || isDigit c
     then match scan_number (String c t) with
          | Some (lit, rest) => Some (Number lit, rest)
          | None => None
          end
     else if Ascii.eqb c "t"
     then option_map (fun rest => (Bool true, rest)) (strip "true" (String c t))
     else if Ascii.eqb c "f"
     then option_map (fun rest => (Bool false, rest)) (strip "false" (String c t))
     else if Ascii.eqb c "n"
     then option_map (fun rest => (Null, rest)) (strip "null" (String c t))
     else None) = Some r0 ->
    (String.length (snd r0) < String.length (String c t))%nat).
  { intros [v0 r0]. cbn [snd].
    destruct (Ascii.eqb c dquote).
    { destruct (unquote t) as [[str r]|] eqn:Hu; [|discriminate].
      intros [= _ <-]. apply unquote_valid in Hu. cbn. lia. }
    destruct (_ || _).
    { destruct (scan_number _) as [[lit r]|] eqn:Hn; [|discriminate].
      intros [= _ <-]. now apply scan_number_length in Hn. }
    destruct (Ascii.eqb c "t").
    { destruct (strip _ _) eqn:Hs; cbn; [|discriminate]. intros [= _ <-].
      apply strip_length in Hs. cbn in *. lia. }
    destruct (Ascii.eqb c "f").
    { destruct (strip _ _) eqn:Hs; cbn; [|discriminate]. intros [= _ <-].
      apply strip_length in Hs. cbn in *. lia. }
    destruct (Ascii.eqb c "n"); [|discriminate].
    destruct (strip _ _) eqn:Hs; cbn; [|discriminate]. intros [= _ <-].
    apply strip_length in Hs. cbn in *. lia. }
  intros H. pose proof (Hleaf _ H) as Hlen. cbn [snd] in Hlen.
  split; [exact Hlen|].
  intros [|f'] Hf'; [lia|]. cbn [scan_value]. rewrite Hobj, Harr. exact H.
Qed.

Lemma scan_members_steady f :
  steady scan_value f -> steady scan_members f -> steady scan_members (S f).
Proof.
  intros Hvs Hms d s ms rest. cbn [scan_members].
  destruct s as [|c t]; [discriminate|].
  destruct (negb _) eqn:Hq; [discriminate|].
  destruct (unquote t) as [[key s1]|] eqn:Hu; [|discriminate].
  pose proof (unquote_valid _ _ _ Hu) as [_ Hlu].
  pose proof (skip_ws_length s1) as Hw1.
  destruct (skip_ws s1) as [|colon s2] eqn:Hs1; [discriminate|].
  destruct (negb (Ascii.eqb colon ":")) eqn:Hc; [discriminate|].
  pose proof (skip_ws_length s2) as Hw2.
  destruct (scan_value f d (skip_ws s2)) as [[v s3]|] eqn:Hv; [|discriminate].
  destruct (Hvs _ _ _ _ Hv) as [Hlv Hfv].
  pose proof (skip_ws_length s3) as Hw3.
  destruct (skip_ws s3) as [|sep s4] eqn:Hs3; [discriminate|].
  destruct (Ascii.eqb sep "}") eqn:Hclose.
  { intros [= <- <-]. cbn in *. split; [lia|].
    intros [|f'] Hf'; [lia|]. cbn [scan_members].
    rewrite Hq, Hu, Hs1, Hc, Hfv by lia. now rewrite Hs3, Hclose. }
  destruct (Ascii.eqb sep ",") eqn:Hcomma; [|discriminate].
  pose proof (skip_ws_length s4) as Hw4.
  destruct (scan_members f d (skip_ws s4)) as [[ms' r]|] eqn:Hm; [|discriminate].
  destruct (Hms _ _ _ _ Hm) as [Hlm Hfm].
  intros [= <- <-]. cbn in *. split; [lia|].
  intros [|f'] Hf'; [lia|]. cbn [scan_members].
  rewrite Hq, Hu, Hs1, Hc, Hfv by lia. rewrite Hs3, Hclose, Hcomma, Hfm by lia.
  reflexivity.
Qed.

Lemma scan_elements_steady f :
  steady scan_value f -> steady scan_elements f -> steady scan_elements (S f).
Proof.
  intros Hvs Hes d s vs rest. cbn [scan_elements].
  destruct (scan_value f d s) as [[v s1]|] eqn:Hv; [|discriminate].
  destruct (Hvs _ _ _ _ Hv) as [Hlv Hfv].
  pose proof (skip_ws_length s1) as Hw1.
  destruct (skip_ws s1) as [|sep s2] eqn:Hs1; [discriminate|].
  destruct (Ascii.eqb sep "]") eqn:Hclose.
  { intros [= <- <-]. cbn in *. split; [lia|].
    intros [|f'] Hf'; [lia|]. cbn [scan_elements].
    rewrite Hfv by lia. now rewrite Hs1, Hclose. }
  destruct (Ascii.eqb sep ",") eqn:Hcomma; [|discriminate].
  pose proof (skip_ws_length s2) as Hw2.
  destruct (scan_elements f d (skip_ws s2)) as [[vs' r]|] eqn:He; [|discriminate].
  destruct (Hes _ _ _ _ He) as [Hle Hfe].
  intros [= <- <-]. cbn in *. split; [lia|].
  intros [|f'] Hf'; [lia|]. cbn [scan_elements].
  rewrite Hfv by lia. rewrite Hs1, Hclose, Hcomma, Hfe by lia. reflexivity.
Qed.

Lemma scan_steady f :
  steady scan_value f /\ steady scan_members f /\ steady scan_elements f.
Proof.
  induction f as [|f (Hv & Hm & He)].
  - split; [|split]; intros d s r rest H; discriminate H.
  - auto using scan_value_steady, scan_members_steady, scan_elements_steady.
Qed.

(** The fuel [parse] gives the scanner is never what makes it fail: a value
    found with any fuel at all is found by [parse]. *)
Lemma parse_fuel data fuel v rest :
  scan_value fuel 0 (skip_ws data) = Some (v, rest) ->
  skip_ws rest = EmptyString ->
  parse data = Some v.
Proof.
  intros Hv Hrest. unfold parse.
  destruct (scan_steady fuel) as (Hs & _ & _).
  destruct (Hs _ _ _ _ Hv) as [_ Hf].
  pose proof (skip_ws_length data).
  rewrite Hf by lia. now rewrite Hrest.
Qed.
End Fuel.

Section Numbers.
Import json.

(** The decimal digits of a positive number start with a digit other than
    zero. *)
Lemma to_uint_head p :
  match Pos.to_uint p with
  | Decimal.Nil | Decimal.D0 _ => False
  | _ => True
  end.
Proof.
  pose proof (Unsigned.to_of (Pos.to_uint p)) as H.
  rewrite Unsigned.of_to in H. cbn in H.
  pose proof (Unsigned.to_uint_nonzero p) as Hz.
  pose proof (Unsigned.to_uint_nonnil p) as Hn.
  revert H Hz Hn.
  destruct (Pos.to_uint p) as [|d| | | | | | | | |]; try (intros; exact I);
    intros H Hz Hn.
  - congruence.
  - rewrite unorm_D0 in H. unfold Decimal.unorm in H.
    destruct (Decimal.nzhead d) eqn:Hd;
      try (now apply nzhead_nonzero in Hd); try discriminate H.
    injection H as ->. now elim Hz.
Qed.

Lemma span_digits_uint d c r :
  separator c ->
  span_digits (NilEmpty.string_of_uint d +:+ String c r)
  = (NilEmpty.string_of_uint d, String c r).
Proof.
  intros Hc. induction d; cbn [NilEmpty.string_of_uint String.append span_digits];
    try (rewrite IHd; reflexivity).
  destruct Hc as [-> | ->]; reflexivity.
Qed.

Lemma scan_number_digits (sign : bool) c0 ds c r :
  isDigit c0 = true -> Ascii.eqb c0 "0" = false ->
  Ascii.eqb c0 "-" = false ->
  span_digits (String c0 ds +:+ String c r) = (String c0 ds, String c r) ->
  separator c ->
  scan_number ((if sign then "-" else "") +:+ String c0 ds +:+ String c r)
  = Some ((if sign then "-" else "") +:+ String c0 ds, String c r).
Proof.
  intros Hd H0 Hm Hspan Hc. unfold scan_number.
  destruct sign; cbn [String.append] in *.
  - change (Ascii.eqb "-" "-") with true. cbv iota. rewrite H0, Hd, Hspan.
    destruct Hc as [-> | ->]; cbn; rewrite ?append_nil_r; reflexivity.
  - rewrite Hm, H0, Hd, Hspan.
    destruct Hc as [-> | ->]; cbn; rewrite ?append_nil_r; reflexivity.
Qed.

Lemma scan_number_uint (sign : bool) p c r :
  separator c ->
  scan_number ((if sign then "-" else "")
               +:+ NilEmpty.string_of_uint (Pos.to_uint p) +:+ String c r)
  = Some ((if sign then "-" else "")
          +:+ NilEmpty.string_of_uint (Pos.to_uint p), String c r).
Proof.
  intros Hc. pose proof (to_uint_head p) as Hh.
  pose proof (span_digits_uint (Pos.to_uint p) c r Hc) as Hs.
  destruct (Pos.to_uint p) as [|d|d|d|d|d|d|d|d|d|d]; try contradiction;
    cbn [NilEmpty.string_of_uint] in *;
    apply scan_number_digits; auto.
Qed.

Lemma scan_number_FormatInt z c r :
  separator c ->
  scan_number (strconv.FormatInt z +:+ String c r)
  = Some (strconv.FormatInt z, String c r).
Proof.
  intros Hc. unfold strconv.FormatInt.
  destruct z as [|p|p]; cbn [Z.to_int NilZero.string_of_int].
  - destruct Hc as [-> | ->]; reflexivity.
  - pose proof (Unsigned.to_uint_nonnil p) as Hn.
    unfold NilZero.string_of_uint.
    pose proof (scan_number_uint false p c r Hc) as H.
    destruct (Pos.to_uint p); try congruence; exact H.
  - pose proof (Unsigned.to_uint_nonnil p) as Hn.
    unfold NilZero.string_of_uint.
    pose proof (scan_number_uint true p c r Hc) as H.
    destruct (Pos.to_uint p); try congruence; exact H.
Qed.

Lemma ParseInt_FormatInt z :
  (strconv.minInt64 <= z <= strconv.maxInt64)%Z ->
  strconv.ParseInt (strconv.FormatInt z) = Some z.
Proof.
  intros Hz. unfold strconv.ParseInt, strconv.FormatInt.
  assert (Hd : NilZero.int_of_string (NilZero.string_of_int (Z.to_int z))
               = Some (Z.to_int z)).
  { apply NilZero.isi; destruct z; cbn; try discriminate;
      intros [= E]; now apply Unsigned.to_uint_nonnil in E. }
  assert (Hplus :
    match NilZero.string_of_int (Z.to_int z) with
    | String c t =>
      if Ascii.eqb c "+" then NilZero.int_of_string t
      else NilZero.int_of_string (NilZero.string_of_int (Z.to_int z))
    | EmptyString => None
    end = Some (Z.to_int z)).
  { rewrite Hd. destruct z as [|p|p]; cbn [Z.to_int NilZero.string_of_int];
      try reflexivity.
    pose proof (to_uint_head p) as Hh. unfold NilZero.string_of_uint.
    destruct (Pos.to_uint p); try contradiction; reflexivity. }
  rewrite Hplus. rewrite DecimalZ.of_to.
  destruct Hz as [H1 H2].
  apply Z.leb_le in H1, H2. now rewrite H1, H2.
Qed.
End Numbers.

Section Codec.
Import json.

Lemma append_single c X : String c "" +:+ X = String c X.
Proof. reflexivity. Qed.

Lemma nameQuoted_app name X :
  nameQuoted name +:+ X = String dquote (name +:+ String dquote (String ":" X)).
Proof. unfold nameQuoted. cbn [String.append]. now rewrite append_assoc. Qed.

Lemma FormatInt_head z :
  exists c0 t, strconv.FormatInt z = String c0 t /\
    In c0 ["-"; "0"; "1"; "2"; "3"; "4"; "5"; "6"; "7"; "8"; "9"]%char.
Proof.
  unfold strconv.FormatInt.
  destruct z as [|p|p]; cbn [Z.to_int NilZero.string_of_int].
  - eexists _, _. split; [reflexivity|]. cbn. tauto.
  - pose proof (to_uint_head p) as Hh. unfold NilZero.string_of_uint.
    destruct (Pos.to_uint p); try contradiction;
      (eexists _, _; split; [reflexivity|]; cbn; tauto).
  - eexists _, _. split; [reflexivity|]. cbn. tauto.
Qed.

Lemma scan_value_string f d s X :
  scan_value (S f) d (appendString s +:+ X) = Some (Str (sanitize s), X).
Proof.
  unfold appendString. cbn [String.append scan_value].
  change (Ascii.eqb dquote "{") with false.
  change (Ascii.eqb dquote "[") with false.
  change (Ascii.eqb dquote dquote) with true. cbv iota.
  rewrite append_assoc. cbn [String.append].
  now rewrite unquote_appendBody.
Qed.

Lemma scan_value_int f d z c r :
  separator c ->
  scan_value (S f) d (strconv.FormatInt z +:+ String c r)
  = Some (Number (strconv.FormatInt z), String c r).
Proof.
  intros Hc. pose proof (scan_number_FormatInt z c r Hc) as Hn.
  destruct (FormatInt_head z) as (c0 & t & E & Hin).
  rewrite E in *. cbn [String.append scan_value] in *.
  cbn in Hin.
  decompose [or] Hin; try contradiction; subst c0;
    cbn [Ascii.eqb Bool.eqb orb isDigit in_range code N_of_ascii N_of_digits
         andb N.leb N.compare N.add N.mul Pos.compare Pos.compare_cont
         Pos.add Pos.mul dquote];
    cbv iota; now rewrite Hn.
Qed.

Lemma skip_ws_string s X : skip_ws (appendString s +:+ X) = appendString s +:+ X.
Proof. reflexivity. Qed.

Lemma skip_ws_int z X :
  skip_ws (strconv.FormatInt z +:+ X) = strconv.FormatInt z +:+ X.
Proof.
  destruct (FormatInt_head z) as (c0 & t & E & Hin). rewrite E.
  cbn in Hin. decompose [or] Hin; try contradiction; subst c0; reflexivity.
Qed.

Lemma scan_member_end f d name key VX v r :
  unquote (name +:+ String dquote (String ":" VX)) = Some (key, String ":" VX) ->
  skip_ws VX = VX ->
  scan_value f d VX = Some (v, String "}" r) ->
  scan_members (S f) d (String dquote (name +:+ String dquote (String ":" VX)))
  = Some ([(key, v)], r).
Proof.
  intros Hk Hs Hv. cbn [scan_members].
  change (Ascii.eqb dquote dquote) with true. cbn [negb].
  rewrite Hk. cbn [skip_ws].
  change (isSpace ":") with false. cbv iota.
  change (Ascii.eqb ":" ":") with true. cbn [negb].
  rewrite Hs, Hv. reflexivity.
Qed.

Lemma scan_member_next f d name key VX v r ms rest :
  unquote (name +:+ String dquote (String ":" VX)) = Some (key, String ":" VX) ->
  skip_ws VX = VX ->
  scan_value f d VX = Some (v, String "," r) ->
  skip_ws r = r ->
  scan_members f d r = Some (ms, rest) ->
  scan_members (S f) d (String dquote (name +:+ String dquote (String ":" VX)))
  = Some ((key, v) :: ms, rest).
Proof.
  intros Hk Hs Hv Hr Hm. cbn [scan_members].
  change (Ascii.eqb dquote dquote) with true. cbn [negb].
  rewrite Hk. cbn [skip_ws].
  change (isSpace ":") with false. cbv iota.
  change (Ascii.eqb ":" ":") with true. cbn [negb].
  rewrite Hs, Hv. cbn [skip_ws].
  change (isSpace ",") with false. cbv iota.
  change (Ascii.eqb "," "}") with false.
  change (Ascii.eqb "," ",") with true. cbv iota.
  now rewrite Hr, Hm.
Qed.

Lemma scan_encode f a :
  scan_value (S (S (S (S (S (S (S f))))))) 0 (encode a)
  = Some (encoded_value a, "").
Proof.
  unfold encode. rewrite !nameQuoted_app, !append_single.
  cbn [scan_value].
  change (Ascii.eqb "{" "{") with true. cbv iota.
  change (maxNestingDepth <? 0 + 1)%N with false. cbv iota.
  cbn [skip_ws]. change (isSpace dquote) with false. cbv iota.
  change (Ascii.eqb dquote "}") with false. cbv iota.
  erewrite scan_member_next; [reflexivity| reflexivity | reflexivity
    | apply scan_value_string | reflexivity |].
  erewrite scan_member_next; [reflexivity| reflexivity | reflexivity
    | apply scan_value_string | reflexivity |].
  erewrite scan_member_next; [reflexivity| reflexivity | apply skip_ws_int
    | apply scan_value_int; left; reflexivity | reflexivity |].
  erewrite scan_member_next; [reflexivity| reflexivity | reflexivity
    | apply scan_value_string | reflexivity |].
  erewrite scan_member_end; [reflexivity| reflexivity | apply skip_ws_int
    | apply scan_value_int; right; reflexivity ].
Qed.

Lemma length_encode a : (6 <= String.length (encode a))%nat.
Proof.
  unfold encode. rewrite !nameQuoted_app, !append_single.
  cbn [String.length]. rewrite !length_append. cbn [String.length]. lia.
Qed.

Lemma parse_encode a : parse (encode a) = Some (encoded_value a).
Proof.
  unfold parse. pose proof (length_encode a) as Hl.
  destruct (String.length (encode a)) as [|[|[|[|[|[|n]]]]]]; try lia.
  replace (skip_ws (encode a)) with (encode a) by reflexivity.
  now rewrite scan_encode.
Qed.

Lemma Unmarshal_encode a target :
  (strconv.minInt64 <= Size a <= strconv.maxInt64)%Z ->
  (strconv.minInt64 <= AppraisedValue a <= strconv.maxInt64)%Z ->
  Unmarshal (encode a) target = inl (sanitized a).
Proof.
  intros Hs Hv. unfold Unmarshal. rewrite parse_encode.
  unfold encoded_value. cbn [object].
  change (lookup_field "asset_id") with (Some F_ID).
  change (lookup_field "color") with (Some F_Color).
  change (lookup_field "size") with (Some F_Size).
  change (lookup_field "owner") with (Some F_Owner).
  change (lookup_field "appraisedValue") with (Some F_AppraisedValue).
  cbn [store]. rewrite !ParseInt_FormatInt by assumption. reflexivity.
Qed.
End Codec.

Import shim chaincode.

Section Decoded.
Import json.

Lemma scan_value_clean f d s v rest :
  scan_value f d s = Some (v, rest) -> clean v.
Proof.
  destruct f as [|f]; [discriminate|]. cbn [scan_value].
  destruct s as [|c t]; [discriminate|].
  destruct (Ascii.eqb c "{").
  { destruct (_ <? _)%N; [discriminate|].
    destruct (skip_ws t) as [|c' t']; [discriminate|].
    destruct (Ascii.eqb c' "}"); [now intros [= <- _]|].
    destruct (scan_members _ _ _) as [[ms r]|]; [|discriminate].
    now intros [= <- _]. }
  destruct (Ascii.eqb c "[").
  { destruct (_ <? _)%N; [discriminate|].
    destruct (skip_ws t) as [|c' t']; [discriminate|].
    destruct (Ascii.eqb c' "]"); [now intros [= <- _]|].
    destruct (scan_elements _ _ _) as [[ms r]|]; [|discriminate].
    now intros [= <- _]. }
  destruct (Ascii.eqb c dquote).
  { destruct (unquote t) as [[str r]|] eqn:Hu; [|discriminate].
    intros [= <- _]. cbn. now apply unquote_valid in Hu. }
  destruct (_ || _).
  { destruct (scan_number _) as [[lit r]|]; [|discriminate].
    now intros [= <- _]. }
  destruct (Ascii.eqb c "t").
  { destruct (strip _ _); cbn; [|discriminate]. now intros [= <- _]. }
  destruct (Ascii.eqb c "f").
  { destruct (strip _ _); cbn; [|discriminate]. now intros [= <- _]. }
  destruct (Ascii.eqb c "n").
  { destruct (strip _ _); cbn; [|discriminate]. now intros [= <- _]. }
  discriminate.
Qed.

Lemma scan_members_clean f : forall d s ms rest,
  scan_members f d s = Some (ms, rest) ->
  Forall (fun kv => clean (snd kv)) ms.
Proof.
  induction f as [|f IH]; intros d s ms rest; [discriminate|].
  cbn [scan_members].
  destruct s as [|c t]; [discriminate|].
  destruct (negb _); [discriminate|].
  destruct (unquote t) as [[key s1]|]; [|discriminate].
  destruct (skip_ws s1) as [|colon s2]; [discriminate|].
  destruct (negb _); [discriminate|].
  destruct (scan_value f d (skip_ws s2)) as [[v s3]|] eqn:Hv; [|discriminate].
  apply scan_value_clean in Hv.
  destruct (skip_ws s3) as [|sep s4]; [discriminate|].
  destruct (Ascii.eqb sep "}").
  { intros [= <- _]. now repeat constructor. }
  destruct (Ascii.eqb sep ","); [|discriminate].
  destruct (scan_members f d (skip_ws s4)) as [[ms' r]|] eqn:Hm; [|discriminate].
  intros [= <- _]. constructor; [exact Hv|]. eapply IH; eassumption.
Qed.

Lemma parse_clean data ms :
  parse data = Some (Object ms) -> Forall (fun kv => clean (snd kv)) ms.
Proof.
  unfold parse.
  destruct (scan_value _ _ _) as [[v rest]|] eqn:Hv; [|discriminate].
  destruct (skip_ws rest); [|discriminate]. intros [= ->].
  cbn [scan_value] in Hv.
  destruct (skip_ws data) as [|c t]; [discriminate|].
  destruct (Ascii.eqb c "{").
  { destruct (_ <? _)%N; [discriminate|].
    destruct (skip_ws t) as [|c' t']; [discriminate|].
    destruct (Ascii.eqb c' "}"); [injection Hv as <- _; constructor|].
    destruct (scan_members _ _ _) as [[ms' r]|] eqn:Hm; [|discriminate].
    injection Hv as <- _. eapply scan_members_clean; eassumption. }
  destruct (Ascii.eqb c "[").
  { destruct (_ <? _)%N; [discriminate|].
    destruct (skip_ws t) as [|c' t']; [discriminate|].
    destruct (Ascii.eqb c' "]"); [discriminate|].
    destruct (scan_elements _ _ _) as [[ms' r]|]; discriminate. }
  destruct (Ascii.eqb c dquote).
  { destruct (unquote t) as [[str r]|]; discriminate. }
  destruct (_ || _).
  { destruct (scan_number _) as [[lit r]|]; discriminate. }
  destruct (Ascii.eqb c "t").
  { destruct (strip _ _); cbn in Hv; discriminate. }
  destruct (Ascii.eqb c "f").
  { destruct (strip _ _); cbn in Hv; discriminate. }
  destruct (Ascii.eqb c "n").
  { destruct (strip _ _); cbn in Hv; discriminate. }
  discriminate.
Qed.

Lemma ParseInt_int64 lit z : strconv.ParseInt lit = Some z -> int64 z.
Proof.
  unfold strconv.ParseInt, int64.
  destruct (match lit with "" => None | String c t => _ end) as [d|];
    [|discriminate].
  destruct (_ <=? _)%Z eqn:H1; cbn [andb]; [|discriminate].
  destruct (Z.of_int d <=? _)%Z eqn:H2; [|discriminate].
  intros [= <-]. apply Z.leb_le in H1, H2. now split.
Qed.

Lemma store_valid f v a a' :
  store f v a = inl a' -> clean v -> valid a -> valid a'.
Proof.
  unfold valid. intros H Hc (H1 & H2 & H3 & H4 & H5).
  destruct v; cbn [store] in H; try discriminate.
  - now injection H as <-.
  - destruct f; try discriminate;
      destruct (strconv.ParseInt lit) as [z|] eqn:Hz; try discriminate;
      injection H as <-; apply ParseInt_int64 in Hz; cbn; auto.
  - cbn in Hc. destruct f; try discriminate; injection H as <-; cbn; auto.
Qed.

Lemma object_valid ms : forall a saved a',
  object ms a saved = (a', None) ->
  Forall (fun kv => clean (snd kv)) ms -> valid a -> valid a'.
Proof.
  induction ms as [|[key v] ms IH]; intros a saved a'; cbn [object].
  - now intros [= <- _].
  - intros H Hc Ha. inversion Hc as [|? ? Hv Hms]; subst.
    destruct (lookup_field key) as [f|]; [|eapply IH; eassumption].
    destruct (store f v a) as [a1|e] eqn:Hs.
    + eapply IH; [eassumption|assumption|].
      eapply store_valid; eassumption.
    + eapply IH; eassumption.
Qed.

(** Whatever [Unmarshal] stores into a valid struct leaves it valid. *)
Lemma Unmarshal_valid data target a :
  Unmarshal data target = inl a -> valid target -> valid a.
Proof.
  unfold Unmarshal. intros H Ht.
  destruct (parse data) as [v|] eqn:Hp; [|discriminate].
  destruct v; try discriminate.
  - now injection H as <-.
  - destruct (object members target None) as [a1 [e|]] eqn:Ho; [discriminate|].
    injection H as <-. eapply object_valid; [eassumption| |assumption].
    now apply parse_clean in Hp.
Qed.

Lemma valid_zero : valid zeroAsset.
Proof.
  unfold valid, int64, strconv.minInt64, strconv.maxInt64. cbn.
  repeat split; try reflexivity; lia.
Qed.

Lemma sanitized_valid a : valid a -> sanitized a = a.
Proof.
  intros (H1 & H2 & H3 & _). unfold sanitized.
  rewrite !sanitize_valid by assumption. now destruct a.
Qed.

(** The round trip. *)
Lemma Unmarshal_encode_valid a target :
  valid a -> Unmarshal (encode a) target = inl a.
Proof.
  intros Ha. destruct Ha as (H1 & H2 & H3 & H4 & H5).
  rewrite Unmarshal_encode by assumption.
  f_equal. apply sanitized_valid. unfold valid. auto.
Qed.
End Decoded.

(** ** The transactions *)

#[local] Arguments json.Unmarshal : simpl never.
#[local] Arguments json.encode : simpl never.
#[local] Arguments invoke : simpl never.

(** *** The stub and the monad *)

Lemma invoke_cases {A} c (eff : gmap string string -> A * gmap string string) w :
  (exists msg, head (faults w) = Some (Some msg) /\
     invoke c eff w = (inr (ErrStub msg),
       mkWorld (state w) (tail (faults w)) (trace w ++ [(c, Failed)])))
  \/ ((forall msg, head (faults w) <> Some (Some msg)) /\
     invoke c eff w = (inl (fst (eff (state w))),
       mkWorld (snd (eff (state w))) (tail (faults w)) (trace w ++ [(c, Done)]))).
Proof.
  unfold invoke. destruct (head (faults w)) as [[msg|]|]; eauto.
  all: right; split; [congruence | reflexivity].
Qed.

Lemma quiet_head w : quiet w -> forall msg, head (faults w) <> Some (Some msg).
Proof.
  unfold quiet. intros H msg. destruct (faults w) as [|f fs]; [discriminate|].
  inversion H; subst. discriminate.
Qed.

Lemma quiet_tail st w c : quiet w -> quiet (mkWorld st (tail (faults w)) c).
Proof.
  unfold quiet. simpl. intros H. destruct (faults w); simpl; [constructor|].
  now inversion H.
Qed.

Lemma invoke_quiet {A} c (eff : gmap string string -> A * gmap string string) w :
  quiet w ->
  invoke c eff w = (inl (fst (eff (state w))),
       mkWorld (snd (eff (state w))) (tail (faults w)) (trace w ++ [(c, Done)])).
Proof.
  intros Hq. destruct (invoke_cases c eff w) as [(msg & Hh & _)|[_ H]]; [|exact H].
  now apply quiet_head with (msg := msg) in Hq.
Qed.

Lemma quiet_world st : quiet (world st).
Proof. constructor. Qed.

Ltac unfold_ops :=
  unfold exec, TransferAsset, CreateAsset, ReadAsset, UpdateAsset, DeleteAsset,
    AssetExists, GetState, PutState, DelState, bind, wrap, of_json, ret, throw.

Ltac stub_call :=
  match goal with
  | |- context [invoke ?c ?e ?w] =>
    let Hi := fresh "Hi" in
    destruct (invoke_cases c e w) as [(? & ? & Hi)|(? & Hi)];
    rewrite Hi; clear Hi; cbn [fst snd state faults trace]
  | H : context [invoke ?c ?e ?w] |- _ =>
    let Hi := fresh "Hi" in
    destruct (invoke_cases c e w) as [(? & ? & Hi)|(? & Hi)];
    rewrite Hi in H; clear Hi; cbn [fst snd state faults trace] in H
  end.

Ltac stub_quiet :=
  match goal with
  | |- context [invoke ?c ?e ?w] =>
    rewrite (invoke_quiet c e w) by (eauto using quiet_tail);
    cbn [fst snd state faults trace]
  end.

(** C4. A delete request whose id is in the store: whenever [DeleteAsset]
    succeeds, the status it returns is the text "CreateAsset OK", the one
    [CreateAsset] returns; and it does succeed when the host does not fail,
    removing the key. *)
Theorem DeleteAsset_status raw w req :
  json.Unmarshal raw zeroAsset = inl req ->
  is_Some (state w !! ID req) ->
  (forall r w', DeleteAsset raw w = (inl r, w') -> r = "CreateAsset OK") /\
  (quiet w -> exists w', DeleteAsset raw w = (inl "CreateAsset OK", w') /\
                 state w' = delete (ID req) (state w)).
Proof.
  intros Hreq [v Hv]. split.
  - intros r w'. unfold_ops. rewrite Hreq. cbn.
    stub_call; [discriminate|]. rewrite Hv. cbn.
    stub_call; [discriminate|]. now intros [= <- _].
  - intros Hq. unfold_ops. rewrite Hreq. cbn.
    stub_quiet. rewrite Hv. cbn. stub_quiet. eauto.
Qed.

(** C8. A well-formed request naming an id that is absent from the store:
    each of [ReadAsset], [UpdateAsset], [DeleteAsset] and [TransferAsset]
    leaves the store as it is, and, the host not failing, fails with the
    error "does not exist" for that id, of kind [NotFound]. *)
Theorem missing_target_NotFound op raw w req :
  op <> Create ->
  json.Unmarshal raw zeroAsset = inl req ->
  state w !! ID req = None ->
  state (snd (exec op raw w)) = state w /\
  (quiet w ->
   fst (exec op raw w) = Some (ErrNotExist (ID req)) /\
   kind_of (ErrNotExist (ID req)) = NotFound).
Proof.
  intros Hop Hreq Habs. split.
  - destruct op; try congruence; unfold_ops; rewrite Hreq; cbn;
      (stub_call; [reflexivity|]); rewrite Habs; reflexivity.
  - intros Hq. split; [|reflexivity].
    destruct op; try congruence; unfold_ops; rewrite Hreq; cbn;
      stub_quiet; rewrite Habs; reflexivity.
Qed.

(** C2. After [CreateAsset] has succeeded for an asset, a second
    [CreateAsset] for the same asset does not succeed and changes no key of
    the store; the host not failing, its error is "already exists" for that
    id, of kind [AlreadyExists]. *)
Theorem duplicate_create raw1 raw2 a w r1 w1 :
  json.Unmarshal raw1 zeroAsset = inl a ->
  json.Unmarshal raw2 zeroAsset = inl a ->
  CreateAsset raw1 w = (inl r1, w1) ->
  state (snd (CreateAsset raw2 w1)) = state w1 /\
  (forall r2, fst (CreateAsset raw2 w1) <> inl r2) /\
  (quiet w1 ->
   fst (CreateAsset raw2 w1) = inr (ErrAlreadyExists (ID a)) /\
   kind_of (ErrAlreadyExists (ID a)) = AlreadyExists).
Proof.
  intros H1 H2. unfold_ops. rewrite H1, H2. cbn.
  stub_call; [discriminate|].
  destruct (state w !! ID a) eqn:Hold; cbn; [discriminate|].
  stub_call; [discriminate|]. intros [= _ <-]. cbn.
  split; [|split].
  - stub_call; [reflexivity|]. rewrite lookup_insert_eq. reflexivity.
  - intros r2. stub_call; [discriminate|]. rewrite lookup_insert_eq. discriminate.
  - intros Hq. split; [|reflexivity]. stub_quiet.
    rewrite lookup_insert_eq. reflexivity.
Qed.

Lemma world_eta w : mkWorld (state w) (faults w) (trace w) = w.
Proof. now destruct w. Qed.

Lemma malformed_rejected op raw w e :
  json.Unmarshal raw zeroAsset = inr e ->
  exec op raw w = (Some (ErrJSON e), w).
Proof.
  intros He. destruct op; unfold_ops; rewrite He; reflexivity.
Qed.

Ltac split_trace pre :=
  repeat (destruct pre as [|? pre]; simplify_eq/=); try discriminate.

Ltac close_trace :=
  match goal with
  | |- exists t, ?tr ++ ?a = ?tr ++ t /\ _ => exists a; split; [reflexivity|]
  | |- exists t, ?tr = ?tr ++ t /\ _ =>
      exists []; split; [now rewrite app_nil_r|]
  | |- exists t, (?tr ++ ?a) ++ ?b = ?tr ++ t /\ _ =>
      exists (a ++ b); split; [now rewrite app_assoc|]
  | |- exists t, ((?tr ++ ?a) ++ ?b) ++ ?c = ?tr ++ t /\ _ =>
      exists (a ++ b ++ c); split; [now rewrite !app_assoc|]
  end.

Lemma check_precedes_write op raw w :
  exists t, trace (snd (exec op raw w)) = trace w ++ t /\
    forall pre c o post, t = pre ++ (c, o) :: post -> is_write c = true ->
      exists req, json.Unmarshal raw zeroAsset = inl req /\
        key_of c = ID req /\
        In (GetStateCall (ID req), Done) pre /\
        precondition op (state w !! ID req).
Proof.
  destruct (json.Unmarshal raw zeroAsset) as [req|e] eqn:Hreq.
  2:{ rewrite (malformed_rejected _ _ _ _ Hreq). cbn. close_trace.
      intros pre c o post Ht. now destruct pre. }
  destruct op; unfold_ops; rewrite Hreq; cbn.
  - (* Create *)
    stub_call.
    { close_trace. intros pre c o post Ht Hwr. split_trace pre. }
    destruct (state w !! ID req) eqn:Hold; cbn.
    { close_trace. intros pre c o post Ht Hwr. split_trace pre. }
    stub_call; close_trace; intros pre c o post Ht Hwr; split_trace pre;
      exists req; cbn; rewrite ?Hold; auto.
  - (* Read *)
    stub_call.
    { close_trace. intros pre c o post Ht Hwr. split_trace pre. }
    destruct (state w !! ID req) eqn:Hold; cbn.
    2:{ close_trace. intros pre c o post Ht Hwr. split_trace pre. }
    destruct (json.Unmarshal s zeroAsset); cbn;
      close_trace; intros pre c o post Ht Hwr; split_trace pre.
  - (* Update *)
    stub_call.
    { close_trace. intros pre c o post Ht Hwr. split_trace pre. }
    destruct (state w !! ID req) eqn:Hold; cbn.
    2:{ close_trace. intros pre c o post Ht Hwr. split_trace pre. }
    stub_call; close_trace; intros pre c o post Ht Hwr; split_trace pre;
      exists req; cbn; rewrite ?Hold; auto.
  - (* Delete *)
    stub_call.
    { close_trace. intros pre c o post Ht Hwr. split_trace pre. }
    destruct (state w !! ID req) eqn:Hold; cbn.
    2:{ close_trace. intros pre c o post Ht Hwr. split_trace pre. }
    stub_call; close_trace; intros pre c o post Ht Hwr; split_trace pre;
      exists req; cbn; rewrite ?Hold; auto.
  - (* Transfer *)
    stub_call.
    { close_trace. intros pre c o post Ht Hwr. split_trace pre. }
    destruct (state w !! ID req) eqn:Hold; cbn.
    2:{ close_trace. intros pre c o post Ht Hwr. split_trace pre. }
    stub_call.
    { close_trace. intros pre c o post Ht Hwr. split_trace pre. }
    rewrite Hold.
    destruct (json.Unmarshal s zeroAsset); cbn.
    2:{ close_trace. intros pre c o post Ht Hwr. split_trace pre. }
    stub_call; close_trace; intros pre c o post Ht Hwr; split_trace pre;
      exists req; cbn; rewrite ?Hold; auto.
Qed.

Lemma in_range_all st k v :
  In (k, v) (range "" "" st) <-> st !! k = Some v.
Proof.
  unfold range. rewrite filter_In. cbn.
  rewrite <- list_elem_of_In, merge_sort_Permutation, elem_of_map_to_list.
  tauto.
Qed.

Lemma collect_state l : forall acc w, state (snd (collect l acc w)) = state w.
Proof.
  induction l as [|kv l IH]; intros acc w; cbn; [reflexivity|].
  unfold bind, Next, of_json, ret, throw.
  stub_call; [reflexivity|].
  destruct (json.Unmarshal kv.2 zeroAsset); cbn; [|reflexivity].
  now rewrite IH.
Qed.

Lemma collect_undecodable l : forall acc w kv e,
  In kv l -> json.Unmarshal (snd kv) zeroAsset = inr e ->
  (exists err, fst (collect l acc w) = inr err) /\
  (quiet w -> exists e', fst (collect l acc w) = inr (ErrJSON e')).
Proof.
  induction l as [|kv0 l IH]; intros acc w kv e Hin He; [destruct Hin|].
  cbn. unfold bind, Next, of_json, ret, throw. split.
  - stub_call; [eauto|].
    destruct (json.Unmarshal kv0.2 zeroAsset) as [a|e0] eqn:H0; cbn; [|eauto].
    destruct Hin as [->|Hin]; [cbn in H0; congruence|].
    eapply IH; eauto.
  - intros Hq. stub_quiet.
    destruct (json.Unmarshal kv0.2 zeroAsset) as [a|e0] eqn:H0; cbn; [|eauto].
    destruct Hin as [->|Hin]; [cbn in H0; congruence|].
    eapply IH; eauto using quiet_tail.
Qed.

(** C7. A store in which some value does not decode as an [Asset]:
    [GetAllAssets] returns an error and no list, whatever was accumulated
    before the failure; the host not failing, that error is the decode
    error. *)
Theorem GetAllAssets_undecodable w k v e :
  state w !! k = Some v ->
  json.Unmarshal v zeroAsset = inr e ->
  (exists err, fst (GetAllAssets w) = inr err) /\
  (quiet w -> exists e', fst (GetAllAssets w) = inr (ErrJSON e') /\
                         kind_of (ErrJSON e') = DecodeError).
Proof.
  intros Hk He. apply in_range_all in Hk.
  unfold GetAllAssets, bind, defer, GetStateByRange. split.
  - stub_call; [eauto|].
    match goal with |- context [collect ?l ?acc ?w] =>
      destruct (collect_undecodable l acc w (k, v) e Hk He) as [[err Herr] _];
      destruct (collect l acc w) as [r w'] end.
    cbn in *. eauto.
  - intros Hq. stub_quiet.
    match goal with |- context [collect ?l ?acc ?w] =>
      destruct (collect_undecodable l acc w (k, v) e Hk He) as [_ Hc];
      destruct Hc as [e' He']; [eauto using quiet_tail|];
      destruct (collect l acc w) as [r w'] end.
    cbn in *. eauto.
Qed.

Lemma collect_decodable l : forall acc w assets,
  Forall2 (fun kv a => json.Unmarshal (snd kv) zeroAsset = inl a) l assets ->
  quiet w ->
  fst (collect l acc w) = inl (acc ++ assets).
Proof.
  induction l as [|kv l IH]; intros acc w assets HF Hq.
  - inversion HF; subst. cbn. now rewrite app_nil_r.
  - inversion HF as [|? a ? rest Ha HF']; subst.
    cbn. unfold bind, Next, of_json, ret, throw. stub_quiet.
    rewrite Ha. cbn. rewrite (IH _ _ rest HF') by eauto using quiet_tail.
    now rewrite <- app_assoc.
Qed.

Lemma putAssets_quiet l : forall w,
  quiet w ->
  exists w', putAssets l w = (inl tt, w') /\ quiet w' /\
    state w' = fold_left (fun st a => <[ID a := json.encode a]> st) l (state w).
Proof.
  induction l as [|a l IH]; intros w Hq; cbn.
  - eexists; split; [reflexivity|]. auto.
  - unfold bind, wrap, of_json, ret, PutState. cbn. stub_quiet.
    match goal with |- context [putAssets l ?w0] =>
      destruct (IH w0) as (w' & Hw' & Hq' & Hst); [eauto using quiet_tail|]
    end.
    rewrite Hw'. eauto.
Qed.

Lemma seed_range :
  range "" "" (fold_left (fun st a => <[ID a := json.encode a]> st) seed ∅)
  = map (fun a => (ID a, json.encode a)) seed.
Proof. vm_compute. reflexivity. Qed.

Lemma seed_decodes :
  Forall2 (fun kv a => json.Unmarshal (snd kv) zeroAsset = inl a)
          (map (fun a => (ID a, json.encode a)) seed) seed.
Proof. repeat constructor. Qed.

(** C6. From an empty store and with a host that does not fail,
    [InitLedger] succeeds and [GetAllAssets] then returns exactly the six
    seed assets [asset1] to [asset6] with their field values, in the key order
    of the store. *)
Theorem seed_scenario w :
  state w = ∅ -> quiet w ->
  exists w1, InitLedger w = (inl tt, w1) /\
    fst (GetAllAssets w1) =
      inl [ mkAsset "asset1" "blue" 5 "Tomoko" 300;
            mkAsset "asset2" "red" 5 "Brad" 400;
            mkAsset "asset3" "green" 10 "Jin Soo" 500;
            mkAsset "asset4" "yellow" 10 "Max" 600;
            mkAsset "asset5" "black" 15 "Adriana" 700;
            mkAsset "asset6" "white" 15 "Michel" 800 ].
Proof.
  intros Hempty Hq.
  destruct (putAssets_quiet seed w Hq) as (w1 & Hw1 & Hq1 & Hst).
  exists w1. split; [exact Hw1|].
  unfold GetAllAssets, bind, defer, GetStateByRange. stub_quiet.
  rewrite Hst, Hempty, seed_range.
  match goal with |- context [collect ?l ?acc ?w] =>
    pose proof (collect_decodable l acc w seed seed_decodes) as Hc;
    destruct (collect l acc w) as [r w'] end.
  cbn in *. apply Hc. eauto using quiet_tail.
Qed.

(** C9. For every valid [Asset] (64-bit integers, UTF-8 strings),
    [json.Marshal] does not fail, and [json.Unmarshal] of the bytes it gives
    is that very asset, whatever the value the target held before. *)
Theorem round_trip a :
  valid a ->
  json.Marshal a = inl (json.encode a) /\
  forall target, json.Unmarshal (json.encode a) target = inl a.
Proof.
  intros Ha. split; [reflexivity|].
  intros target. now apply Unmarshal_encode_valid.
Qed.

Lemma round_trip_witness :
  valid (mkAsset "asset1" "blue" 5 "Tomoko" 300) /\
  json.Marshal (mkAsset "asset1" "blue" 5 "Tomoko" 300)
  = inl (sq "{'asset_id':'asset1','color':'blue','size':5,'owner':'Tomoko','appraisedValue':300}") /\
  json.Unmarshal
    (sq "{'asset_id':'asset1','color':'blue','size':5,'owner':'Tomoko','appraisedValue':300}")
    zeroAsset
  = inl (mkAsset "asset1" "blue" 5 "Tomoko" 300).
Proof.
  assert (Hv : valid (mkAsset "asset1" "blue" 5 "Tomoko" 300)).
  { unfold valid, int64, strconv.minInt64, strconv.maxInt64. cbn.
    repeat split; try reflexivity; lia. }
  split; [exact Hv|].
  destruct (round_trip (mkAsset "asset1" "blue" 5 "Tomoko" 300) Hv) as [Hm Hu].
  split; [exact Hm | exact (Hu zeroAsset)].
Defined.

Section Decode.
Import json.

Lemma store_mistyped f v a :
  mistyped f v = true -> exists e, store f v a = inr e.
Proof.
  destruct v, f; cbn; try discriminate; eauto;
    destruct (strconv.ParseInt lit); try discriminate; eauto.
Qed.

Lemma store_typed f v a :
  mistyped f v = false -> exists a', store f v a = inl a'.
Proof.
  destruct v, f; cbn; try discriminate; eauto;
    destruct (strconv.ParseInt lit); try discriminate; eauto.
Qed.

Lemma object_saved ms : forall a e, snd (object ms a (Some e)) = Some e.
Proof.
  induction ms as [|[key v] ms IH]; intros a e; cbn; [reflexivity|].
  destruct (lookup_field key); [|apply IH].
  destruct (store f v a); apply IH.
Qed.

Lemma object_mistyped ms : forall a saved key v f,
  In (key, v) ms -> lookup_field key = Some f -> mistyped f v = true ->
  exists e, snd (object ms a saved) = Some e.
Proof.
  induction ms as [|[key0 v0] ms IH]; intros a saved key v f Hin Hf Hm;
    [destruct Hin|].
  cbn. destruct Hin as [[= -> ->]|Hin].
  - rewrite Hf. destruct (store_mistyped f v a Hm) as [e ->].
    destruct saved; eauto using object_saved.
  - destruct (lookup_field key0); [|eauto].
    destruct (store f0 v0 a); eauto.
Qed.

Lemma object_typed ms : forall a e,
  snd (object ms a None) = Some e ->
  exists key v f,
    In (key, v) ms /\ lookup_field key = Some f /\ mistyped f v = true.
Proof.
  induction ms as [|[key0 v0] ms IH]; intros a e; cbn; [discriminate|].
  destruct (lookup_field key0) as [f|] eqn:Hf.
  - destruct (mistyped f v0) eqn:Hm.
    + intros _. exists key0, v0, f. auto.
    + destruct (store_typed f v0 a Hm) as [a' ->]. intros H.
      destruct (IH _ _ H) as (key & v & f' & Hin & H'). exists key, v, f'.
      split; [now right | exact H'].
  - intros H. destruct (IH _ _ H) as (key & v & f' & Hin & H').
    exists key, v, f'. split; [now right | exact H'].
Qed.

Lemma Unmarshal_malformed data target :
  (exists e, Unmarshal data target = inr e) <-> malformed data.
Proof.
  unfold Unmarshal, malformed.
  destruct (parse data) as [[| | | | |ms]|]; try (split; eauto; fail).
  - split; [intros [e [=]] | intros []].
  - split.
    + intros [e He]. destruct (object ms target None) as [a [e'|]] eqn:Ho;
        [|discriminate].
      apply (object_typed ms target e'). now rewrite Ho.
    + intros (key & v & f & Hin & Hf & Hm).
      destruct (object_mistyped ms target None key v f Hin Hf Hm) as [e He].
      destruct (object ms target None) as [a o]. cbn in He. subst o. eauto.
Qed.
End Decode.

(** C3, as stated, fails: the object [{"asset_id":"asset1"}], in which four
    fields of the schema are missing, decodes, to the asset whose other fields
    are zero, and [CreateAsset] accepts it and writes that asset. *)
Lemma missing_fields_decode :
  json.parse (sq "{'asset_id':'asset1'}")
  = Some (json.Object [("asset_id", json.Str "asset1")]) /\
  json.Unmarshal (sq "{'asset_id':'asset1'}") zeroAsset
  = inl (mkAsset "asset1" "" 0 "" 0) /\
  exec Create (sq "{'asset_id':'asset1'}") (world ∅)
  = (None,
     mkWorld {[ "asset1" :=
                sq "{'asset_id':'asset1','color':'','size':0,'owner':'','appraisedValue':0}" ]}
             []
             [ (GetStateCall "asset1", Done);
               (PutStateCall "asset1"
                  (sq "{'asset_id':'asset1','color':'','size':0,'owner':'','appraisedValue':0}"),
                Done) ]).
Proof. repeat split. Qed.

(** C3, amended. Decoding fails exactly on a malformed text: one that is
    not a JSON text, or whose value is neither an object nor [null], or an
    object with a member that names a field of the schema and holds a value
    of the wrong type.  Every transaction that decodes a request rejects a
    malformed payload with that [DecodeError], leaving the world as it
    is. *)
Theorem decode_failure data :
  (forall target, (exists e, json.Unmarshal data target = inr e) <-> malformed data) /\
  (malformed data ->
   forall op w, exists e,
     exec op data w = (Some (ErrJSON e), w) /\ kind_of (ErrJSON e) = DecodeError).
Proof.
  split; [intros target; apply Unmarshal_malformed|].
  intros Hm op w. apply (Unmarshal_malformed data zeroAsset) in Hm as [e He].
  exists e. split; [now apply malformed_rejected | reflexivity].
Qed.

Lemma decode_failure_witness :
  malformed (sq "{'asset_id':'asset1','size':'big'}") /\
  exists e,
    exec Update (sq "{'asset_id':'asset1','size':'big'}") (world ∅)
    = (Some (ErrJSON e), world ∅) /\ kind_of (ErrJSON e) = DecodeError.
Proof.
  assert (Hm : malformed (sq "{'asset_id':'asset1','size':'big'}")).
  { exists "size", (json.Str "big"), json.F_Size. repeat split. cbn. auto. }
  split; [exact Hm|].
  destruct (decode_failure (sq "{'asset_id':'asset1','size':'big'}")) as [_ H].
  exact (H Hm Update (world ∅)).
Defined.

Lemma valid_set_Owner a owner :
  valid a -> utf8.ValidString owner = true -> valid (set_Owner a owner).
Proof. unfold valid. cbn. tauto. Qed.

Lemma decoded_valid data a : json.Unmarshal data zeroAsset = inl a -> valid a.
Proof. intros H. exact (Unmarshal_valid _ _ _ H valid_zero). Qed.

(** C1. A successful [TransferAsset]: the request decodes, its id is in the
    store with a value that decodes to a record [old], and the only key
    written holds a value that decodes to [old] with its owner replaced by
    the owner of the request: id, color, size and appraised value are those
    of the stored record, not those of the request. *)
Theorem transfer_owner_only raw w r w' :
  TransferAsset raw w = (inl r, w') ->
  exists req stored old stored' new,
    json.Unmarshal raw zeroAsset = inl req /\
    state w !! ID req = Some stored /\
    json.Unmarshal stored zeroAsset = inl old /\
    state w' = <[ID req := stored']> (state w) /\
    json.Unmarshal stored' zeroAsset = inl new /\
    new = mkAsset (ID old) (Color old) (Size old) (Owner req) (AppraisedValue old).
Proof.
  unfold_ops.
  destruct (json.Unmarshal raw zeroAsset) as [req|e] eqn:Hreq; cbn; [|discriminate].
  stub_call; [discriminate|].
  destruct (state w !! ID req) as [stored|] eqn:Hst; cbn; [|discriminate].
  stub_call; [discriminate|]. rewrite Hst.
  destruct (json.Unmarshal stored zeroAsset) as [old|e] eqn:Hold; cbn; [|discriminate].
  stub_call; [discriminate|]. intros [= _ <-]. cbn.
  exists req, stored, old, (json.encode (set_Owner old (Owner req))),
    (set_Owner old (Owner req)).
  repeat split; try assumption.
  apply Unmarshal_encode_valid, valid_set_Owner.
  - eapply decoded_valid; eassumption.
  - apply (decoded_valid _ _ Hreq).
Qed.

Lemma transfer_owner_only_witness :
  TransferAsset (sq "{'asset_id':'asset1','color':'pink','owner':'Bob'}")
    (world {[ "asset1" :=
      sq "{'asset_id':'asset1','color':'blue','size':5,'owner':'Tomoko','appraisedValue':300}" ]})
  = (inl "TransferAsset OK",
     mkWorld {[ "asset1" :=
       sq "{'asset_id':'asset1','color':'blue','size':5,'owner':'Bob','appraisedValue':300}" ]}
       []
       [ (GetStateCall "asset1", Done); (GetStateCall "asset1", Done);
         (PutStateCall "asset1"
            (sq "{'asset_id':'asset1','color':'blue','size':5,'owner':'Bob','appraisedValue':300}"),
          Done) ])
  /\ exists req stored old stored' new,
    json.Unmarshal (sq "{'asset_id':'asset1','color':'pink','owner':'Bob'}") zeroAsset
      = inl req /\
    ({[ "asset1" :=
      sq "{'asset_id':'asset1','color':'blue','size':5,'owner':'Tomoko','appraisedValue':300}" ]}
      : gmap string string) !! ID req = Some stored /\
    json.Unmarshal stored zeroAsset = inl old /\
    ({[ "asset1" :=
       sq "{'asset_id':'asset1','color':'blue','size':5,'owner':'Bob','appraisedValue':300}" ]}
      : gmap string string) = <[ID req := stored']> {[ "asset1" :=
      sq "{'asset_id':'asset1','color':'blue','size':5,'owner':'Tomoko','appraisedValue':300}" ]} /\
    json.Unmarshal stored' zeroAsset = inl new /\
    new = mkAsset (ID old) (Color old) (Size old) (Owner req) (AppraisedValue old).
Proof.
  assert (H : TransferAsset (sq "{'asset_id':'asset1','color':'pink','owner':'Bob'}")
    (world {[ "asset1" :=
      sq "{'asset_id':'asset1','color':'blue','size':5,'owner':'Tomoko','appraisedValue':300}" ]})
  = (inl "TransferAsset OK",
     mkWorld {[ "asset1" :=
       sq "{'asset_id':'asset1','color':'blue','size':5,'owner':'Bob','appraisedValue':300}" ]}
       []
       [ (GetStateCall "asset1", Done); (GetStateCall "asset1", Done);
         (PutStateCall "asset1"
            (sq "{'asset_id':'asset1','color':'blue','size':5,'owner':'Bob','appraisedValue':300}"),
          Done) ])) by (vm_compute; reflexivity).
  split; [exact H|].
  exact (transfer_owner_only _ _ _ _ H).
Defined.

(** C5. For every transaction with a payload and every input: a payload
    that does not decode is rejected with the world as it is (no call to the
    stub); any call to the stub implies that the request decoded; and every
    write ([PutState], [DelState]) is on the id of the request and comes after
    a successful [GetState] of that id in the same run, the precondition of
    the transaction holding in the state it started from. *)
Theorem decode_check_write op raw w :
  (forall e, json.Unmarshal raw zeroAsset = inr e ->
     exec op raw w = (Some (ErrJSON e), w)) /\
  exists t, trace (snd (exec op raw w)) = trace w ++ t /\
    (t <> [] -> exists req, json.Unmarshal raw zeroAsset = inl req) /\
    forall pre c o post, t = pre ++ (c, o) :: post -> is_write c = true ->
      exists req, json.Unmarshal raw zeroAsset = inl req /\
        key_of c = ID req /\
        In (GetStateCall (ID req), Done) pre /\
        precondition op (state w !! ID req).
Proof.
  split; [intros e; apply malformed_rejected|].
  destruct (check_precedes_write op raw w) as (t & Ht & Hw).
  exists t. split; [exact Ht|]. split; [|exact Hw].
  intros Hne. destruct (json.Unmarshal raw zeroAsset) as [req|e] eqn:Hreq; [eauto|].
  rewrite (malformed_rejected _ _ _ _ Hreq) in Ht. cbn in Ht.
  rewrite <- (app_nil_r (trace w)) in Ht at 1.
  apply app_inv_head in Ht. congruence.
Qed.

(** *** The invariant of the ledger *)

Lemma well_written_nil : well_written [].
Proof. intros k v o []. Qed.

Lemma well_written_app t1 t2 :
  well_written t1 -> well_written t2 -> well_written (t1 ++ t2).
Proof.
  intros H1 H2 k v o Hin. apply in_app_or in Hin as [Hin|Hin]; eauto.
Qed.

Lemma well_written_read c o :
  (forall k v, c <> PutStateCall k v) -> well_written [(c, o)].
Proof. intros Hc k v o' [[= -> _]|[]]. now destruct (Hc k v). Qed.

Lemma well_written_put k a o :
  valid a -> well_written [(PutStateCall k (json.encode a), o)].
Proof. intros Ha k' v o' [[= _ <- _]|[]]. eauto. Qed.

Lemma decodable_insert st k a :
  valid a -> decodable st -> decodable (<[k := json.encode a]> st).
Proof.
  intros Ha Hst k' v. destruct (decide (k = k')) as [->|Hne].
  - rewrite lookup_insert_eq. intros [= <-]. exists a.
    now apply Unmarshal_encode_valid.
  - rewrite lookup_insert_ne by assumption. apply Hst.
Qed.

Lemma decodable_delete st k : decodable st -> decodable (delete k st).
Proof.
  intros Hst k' v Hk. apply lookup_delete_Some in Hk as [_ Hk]. eauto.
Qed.

Lemma carries_refl w : carries w w.
Proof.
  split; [auto|]. exists []. split; [now rewrite app_nil_r | apply well_written_nil].
Qed.

Lemma carries_step w0 w st fs t :
  carries w0 w ->
  (decodable (state w) -> decodable st) -> well_written t ->
  carries w0 (mkWorld st fs (trace w ++ t)).
Proof.
  intros [Hd (t0 & Ht0 & Hw0)] Hst Ht. split; cbn; [auto|].
  exists (t0 ++ t). rewrite Ht0, app_assoc. auto using well_written_app.
Qed.

Section Hoare.
Context {A B : Type} (w0 : World).

Lemma hoare_ret (a : A) (Q : A -> Prop) : Q a -> hoare w0 (ret a) Q.
Proof. intros Ha w Hw. cbn. split; [exact Hw|]. now intros ? [= <-]. Qed.

Lemma hoare_throw e (Q : A -> Prop) : hoare w0 (throw e) Q.
Proof. intros w Hw. cbn. split; [exact Hw | discriminate]. Qed.

Lemma hoare_bind (m : M A) (f : A -> M B) (P : A -> Prop) (Q : B -> Prop) :
  hoare w0 m P -> (forall a, P a -> hoare w0 (f a) Q) -> hoare w0 (bind m f) Q.
Proof.
  intros Hm Hf w Hw. unfold bind. destruct (Hm w Hw) as [Hw' Hp].
  destruct (m w) as [[a|e] w']; cbn in *.
  - apply Hf; auto.
  - split; [exact Hw' | discriminate].
Qed.

Lemma hoare_wrap f (m : M A) (Q : A -> Prop) :
  hoare w0 m Q -> hoare w0 (wrap f m) Q.
Proof.
  intros Hm w Hw. unfold wrap. destruct (Hm w Hw) as [Hw' Hq].
  destruct (m w) as [[a|e] w']; cbn in *; split; auto; discriminate.
Qed.

Lemma hoare_of_json (r : A + json.error) (Q : A -> Prop) :
  (forall a, r = inl a -> Q a) -> hoare w0 (of_json r) Q.
Proof.
  intros Hr. destruct r as [a|e]; [apply hoare_ret; auto | apply hoare_throw].
Qed.

Lemma hoare_weaken (m : M A) (P Q : A -> Prop) :
  hoare w0 m P -> (forall a, P a -> Q a) -> hoare w0 m Q.
Proof. intros Hm HPQ w Hw. destruct (Hm w Hw). split; auto. Qed.

Lemma hoare_invoke c (eff : gmap string string -> A * gmap string string) :
  well_written [(c, Done)] -> well_written [(c, Failed)] ->
  (forall st, decodable st -> decodable (snd (eff st))) ->
  hoare w0 (invoke c eff) (fun _ => True).
Proof.
  intros Hd Hf Heff w Hw.
  destruct (invoke_cases c eff w) as [(msg & _ & ->)|[_ ->]]; cbn;
    (split; [|auto]); apply carries_step; auto.
Qed.
End Hoare.

Lemma hoare_GetState w0 key : hoare w0 (GetState key) (fun _ => True).
Proof. apply hoare_invoke; auto; now apply well_written_read. Qed.

Lemma hoare_PutState w0 key a :
  valid a -> hoare w0 (PutState key (json.encode a)) (fun _ => True).
Proof.
  intros Ha. apply hoare_invoke; auto using well_written_put.
  intros st. cbn. now apply decodable_insert.
Qed.

Lemma hoare_DelState w0 key : hoare w0 (DelState key) (fun _ => True).
Proof.
  apply hoare_invoke; try now apply well_written_read.
  intros st. cbn. apply decodable_delete.
Qed.

Lemma hoare_Next w0 : hoare w0 Next (fun _ => True).
Proof. apply hoare_invoke; auto; now apply well_written_read. Qed.

Lemma hoare_GetStateByRange w0 s e :
  hoare w0 (GetStateByRange s e) (fun _ => True).
Proof. apply hoare_invoke; auto; now apply well_written_read. Qed.

Lemma hoare_defer_Close {A} w0 (m : M A) Q :
  hoare w0 m Q -> hoare w0 (defer Close m) Q.
Proof.
  intros Hm w Hw. unfold defer. destruct (Hm w Hw) as [Hw' Hq].
  destruct (m w) as [r w']. cbn in *. split; [|exact Hq].
  unfold Close. apply carries_step; auto. now apply well_written_read.
Qed.

Lemma hoare_Marshal w0 a :
  valid a ->
  hoare w0 (wrap ErrMarshal (of_json (json.Marshal a)))
        (fun result => result = json.encode a).
Proof.
  intros Ha. apply hoare_wrap, hoare_of_json. now intros ? [= <-].
Qed.

Lemma hoare_request w0 raw :
  hoare w0 (of_json (json.Unmarshal raw zeroAsset)) valid.
Proof. apply hoare_of_json. intros a Ha. exact (decoded_valid _ _ Ha). Qed.

Lemma hoare_AssetExists w0 id : hoare w0 (AssetExists id) (fun _ => True).
Proof.
  unfold AssetExists. eapply hoare_bind; [apply hoare_wrap, hoare_GetState|].
  intros ? _. now apply hoare_ret.
Qed.

Lemma hoare_putAssets w0 l :
  Forall valid l -> hoare w0 (putAssets l) (fun _ => True).
Proof.
  induction 1 as [|a l Ha _ IH]; cbn; [now apply hoare_ret|].
  eapply (hoare_bind _ _ _ (fun v => v = json.encode a)); [now apply hoare_ret|].
  intros v ->.
  eapply hoare_bind; [apply hoare_wrap, hoare_PutState, Ha|].
  intros _ _. exact IH.
Qed.

Lemma seed_valid : Forall valid seed.
Proof.
  repeat constructor; cbn; try reflexivity;
    unfold strconv.minInt64, strconv.maxInt64; lia.
Qed.

Lemma hoare_InitLedger w0 : hoare w0 InitLedger (fun _ => True).
Proof. apply hoare_putAssets, seed_valid. Qed.

Lemma hoare_CreateAsset w0 raw : hoare w0 (CreateAsset raw) (fun _ => True).
Proof.
  unfold CreateAsset.
  eapply hoare_bind; [apply hoare_request|]. intros req Hreq.
  eapply hoare_bind; [apply hoare_AssetExists|]. intros [] _; [apply hoare_throw|].
  eapply hoare_bind; [apply hoare_Marshal, Hreq|]. intros ? ->.
  eapply hoare_bind; [apply hoare_PutState, Hreq|]. intros _ _.
  now apply hoare_ret.
Qed.

Lemma hoare_ReadAsset w0 raw : hoare w0 (ReadAsset raw) valid.
Proof.
  unfold ReadAsset.
  eapply hoare_bind; [apply hoare_request|]. intros req Hreq.
  eapply hoare_bind; [apply hoare_wrap, hoare_GetState|].
  intros [stored|] _; [|apply hoare_throw].
  eapply hoare_bind; [apply hoare_request|]. intros a Ha. now apply hoare_ret.
Qed.

Lemma hoare_UpdateAsset w0 raw : hoare w0 (UpdateAsset raw) (fun _ => True).
Proof.
  unfold UpdateAsset.
  eapply hoare_bind; [apply hoare_request|]. intros req Hreq.
  eapply hoare_bind; [apply hoare_AssetExists|]. intros [] _; [|apply hoare_throw].
  cbn. eapply hoare_bind; [apply hoare_Marshal, Hreq|]. intros ? ->.
  eapply hoare_bind; [apply hoare_PutState, Hreq|]. intros _ _.
  now apply hoare_ret.
Qed.

Lemma hoare_DeleteAsset w0 raw : hoare w0 (DeleteAsset raw) (fun _ => True).
Proof.
  unfold DeleteAsset.
  eapply hoare_bind; [apply hoare_request|]. intros req Hreq.
  eapply hoare_bind; [apply hoare_AssetExists|]. intros [] _; [|apply hoare_throw].
  cbn. eapply hoare_bind; [apply hoare_DelState|]. intros _ _.
  now apply hoare_ret.
Qed.

Lemma hoare_TransferAsset w0 raw : hoare w0 (TransferAsset raw) (fun _ => True).
Proof.
  unfold TransferAsset.
  eapply hoare_bind; [apply hoare_request|]. intros req Hreq.
  eapply hoare_bind; [apply hoare_AssetExists|]. intros [] _; [|apply hoare_throw].
  cbn. eapply hoare_bind; [apply hoare_ReadAsset|]. intros old Hold.
  assert (Hnew : valid (set_Owner old (Owner req))).
  { apply valid_set_Owner; [exact Hold | apply Hreq]. }
  eapply hoare_bind; [apply hoare_Marshal, Hnew|]. intros ? ->.
  eapply hoare_bind; [apply hoare_PutState, Hnew|]. intros _ _.
  now apply hoare_ret.
Qed.

Lemma hoare_collect w0 l : forall acc, hoare w0 (collect l acc) (fun _ => True).
Proof.
  induction l as [|kv l IH]; intros acc; cbn; [now apply hoare_ret|].
  eapply hoare_bind; [apply hoare_Next|]. intros _ _.
  eapply hoare_bind; [apply hoare_request|]. intros a _. apply IH.
Qed.

Lemma hoare_GetAllAssets w0 : hoare w0 GetAllAssets (fun _ => True).
Proof.
  unfold GetAllAssets.
  eapply hoare_bind; [apply hoare_GetStateByRange|]. intros l _.
  apply hoare_defer_Close, hoare_collect.
Qed.

Lemma carries_after tx w : carries w (after tx w).
Proof.
  destruct tx; cbn.
  - apply (hoare_InitLedger w w), carries_refl.
  - apply (hoare_CreateAsset w raw w), carries_refl.
  - apply (hoare_ReadAsset w raw w), carries_refl.
  - apply (hoare_UpdateAsset w raw w), carries_refl.
  - apply (hoare_DeleteAsset w raw w), carries_refl.
  - apply (hoare_TransferAsset w raw w), carries_refl.
  - apply (hoare_AssetExists w id w), carries_refl.
  - apply (hoare_GetAllAssets w w), carries_refl.
Qed.

Lemma populated_ok w :
  populated w -> decodable (state w) /\ well_written (trace w).
Proof.
  induction 1 as [fs|tx w _ [Hd Hw]]; cbn.
  - split; [intros k v Hk; now rewrite lookup_empty in Hk | apply well_written_nil].
  - destruct (carries_after tx w) as [Hd' (t & -> & Ht)].
    auto using well_written_app.
Qed.

(** *** Reading a decodable store *)

Lemma ReadAsset_decodable raw w req e :
  decodable (state w) ->
  json.Unmarshal raw zeroAsset = inl req ->
  fst (ReadAsset raw w) <> inr (ErrJSON e).
Proof.
  intros Hd Hreq. unfold_ops. rewrite Hreq. cbn.
  stub_call; [discriminate|].
  destruct (state w !! ID req) as [stored|] eqn:Hst; cbn; [|discriminate].
  destruct (Hd _ _ Hst) as [a ->]. discriminate.
Qed.

Lemma collect_no_decode_error l : forall acc w e,
  (forall kv, In kv l -> exists a, json.Unmarshal (snd kv) zeroAsset = inl a) ->
  fst (collect l acc w) <> inr (ErrJSON e).
Proof.
  induction l as [|kv l IH]; intros acc w e Hl; cbn; [discriminate|].
  unfold bind, Next, of_json, ret, throw. stub_call; [discriminate|].
  destruct (Hl kv) as [a ->]; [now left|]. cbn.
  apply IH. intros kv' Hin. apply Hl. now right.
Qed.

Lemma GetAllAssets_decodable w e :
  decodable (state w) -> fst (GetAllAssets w) <> inr (ErrJSON e).
Proof.
  intros Hd. unfold GetAllAssets, bind, defer, GetStateByRange.
  stub_call; [discriminate|].
  match goal with |- context [collect ?l ?acc ?w] =>
    pose proof (collect_no_decode_error l acc w e) as Hc;
    destruct (collect l acc w) as [r w'] end.
  cbn in *. apply Hc. intros [k v] Hin. apply in_range_all in Hin. cbn. eauto.
Qed.

(** C10. Every value a transaction passes to [PutState] is the encoding of
    a valid [Asset]; every transaction keeps the store decodable; and in a
    world reached from the empty ledger through the transactions alone, the
    store is decodable, [ReadAsset] with a well-formed request never fails
    with a decode error, and neither does [GetAllAssets]. *)
Theorem written_values_decode tx w :
  (exists t, trace (after tx w) = trace w ++ t /\ well_written t) /\
  (decodable (state w) -> decodable (state (after tx w))) /\
  (populated w ->
   decodable (state w) /\
   (forall raw req e, json.Unmarshal raw zeroAsset = inl req ->
      fst (ReadAsset raw w) <> inr (ErrJSON e)) /\
   (forall e, fst (GetAllAssets w) <> inr (ErrJSON e))).
Proof.
  destruct (carries_after tx w) as [Hd Ht]. split; [exact Ht|]. split; [exact Hd|].
  intros Hp. apply populated_ok in Hp as [Hdw _]. split; [exact Hdw|].
  split.
  - intros raw req e. now apply ReadAsset_decodable.
  - intros e. now apply GetAllAssets_decodable.
Qed.

Lemma duplicate_create_witness :
  json.Unmarshal request7 zeroAsset = inl asset7 /\
  CreateAsset request7 (world ∅)
  = (inl "CreateAsset OK", snd (CreateAsset request7 (world ∅))) /\
  state (snd (CreateAsset request7 (snd (CreateAsset request7 (world ∅)))))
  = state (snd (CreateAsset request7 (world ∅))) /\
  fst (CreateAsset request7 (snd (CreateAsset request7 (world ∅))))
  = inr (ErrAlreadyExists "asset7").
Proof.
  assert (Hreq : json.Unmarshal request7 zeroAsset = inl asset7)
    by (vm_compute; reflexivity).
  assert (Hrun : CreateAsset request7 (world ∅)
            = (inl "CreateAsset OK", snd (CreateAsset request7 (world ∅))))
    by (vm_compute; reflexivity).
  assert (Hq : quiet (snd (CreateAsset request7 (world ∅))))
    by (vm_compute; constructor).
  destruct (duplicate_create request7 request7 asset7 (world ∅) _ _ Hreq Hreq Hrun)
    as (Hst & _ & Hfail).
  destruct (Hfail Hq) as [Hfail' _].
  repeat split; assumption.
Defined.

Lemma DeleteAsset_status_witness :
  json.Unmarshal request_id7 zeroAsset = inl (mkAsset "asset7" "" 0 "" 0) /\
  is_Some (state (world {[ "asset7" := request7 ]}) !! "asset7") /\
  exists w', DeleteAsset request_id7 (world {[ "asset7" := request7 ]})
             = (inl "CreateAsset OK", w') /\
             state w' = delete "asset7" (state (world {[ "asset7" := request7 ]})).
Proof.
  assert (Hreq : json.Unmarshal request_id7 zeroAsset = inl (mkAsset "asset7" "" 0 "" 0))
    by (vm_compute; reflexivity).
  assert (Hin : is_Some (state (world {[ "asset7" := request7 ]}) !! "asset7"))
    by (vm_compute; eauto).
  split; [exact Hreq|]. split; [exact Hin|].
  destruct (DeleteAsset_status request_id7 (world {[ "asset7" := request7 ]}) _ Hreq Hin)
    as [_ Hrun].
  apply Hrun, quiet_world.
Defined.

Lemma missing_target_NotFound_witness :
  Transfer <> Create /\
  json.Unmarshal transfer1 zeroAsset = inl (mkAsset "asset1" "pink" 0 "Bob" 0) /\
  state (world ∅) !! "asset1" = None /\
  state (snd (exec Transfer transfer1 (world ∅))) = state (world ∅) /\
  fst (exec Transfer transfer1 (world ∅)) = Some (ErrNotExist "asset1").
Proof.
  assert (Hreq : json.Unmarshal transfer1 zeroAsset
                 = inl (mkAsset "asset1" "pink" 0 "Bob" 0))
    by (vm_compute; reflexivity).
  assert (Hop : Transfer <> Create) by discriminate.
  assert (Habs : state (world ∅) !! "asset1" = None) by reflexivity.
  destruct (missing_target_NotFound Transfer transfer1 (world ∅) _ Hop Hreq Habs)
    as [Hst Hfail].
  destruct (Hfail (quiet_world ∅)) as [Hfail' _].
  repeat split; assumption.
Defined.

Lemma seed_scenario_witness :
  state (world ∅) = ∅ /\ quiet (world ∅) /\
  exists w1, InitLedger (world ∅) = (inl tt, w1) /\
    fst (GetAllAssets w1) =
      inl [ mkAsset "asset1" "blue" 5 "Tomoko" 300;
            mkAsset "asset2" "red" 5 "Brad" 400;
            mkAsset "asset3" "green" 10 "Jin Soo" 500;
            mkAsset "asset4" "yellow" 10 "Max" 600;
            mkAsset "asset5" "black" 15 "Adriana" 700;
            mkAsset "asset6" "white" 15 "Michel" 800 ].
Proof.
  split; [reflexivity|]. split; [apply quiet_world|].
  apply seed_scenario; [reflexivity | apply quiet_world].
Defined.

Lemma GetAllAssets_undecodable_witness :
  state (world {[ "asset1" := stored1; "asset2" := "not json" ]}) !! "asset2"
  = Some "not json" /\
  json.Unmarshal "not json" zeroAsset = inr json.SyntaxError /\
  exists e', fst (GetAllAssets (world {[ "asset1" := stored1; "asset2" := "not json" ]}))
             = inr (ErrJSON e') /\ kind_of (ErrJSON e') = DecodeError.
Proof.
  assert (Hk : state (world {[ "asset1" := stored1; "asset2" := "not json" ]}) !! "asset2"
               = Some "not json") by (vm_compute; reflexivity).
  assert (He : json.Unmarshal "not json" zeroAsset = inr json.SyntaxError)
    by (vm_compute; reflexivity).
  split; [exact Hk|]. split; [exact He|].
  destruct (GetAllAssets_undecodable _ _ _ _ Hk He) as [_ H].
  apply H, quiet_world.
Defined.

Lemma decode_check_write_witness :
  exec Update "not json" (world {[ "asset1" := stored1 ]})
  = (Some (ErrJSON json.SyntaxError), world {[ "asset1" := stored1 ]}).
Proof.
  destruct (decode_check_write Update "not json" (world {[ "asset1" := stored1 ]}))
    as [H _].
  apply H. vm_compute. reflexivity.
Defined.

Lemma written_values_decode_witness :
  populated (after (TxCreateAsset request7) (after TxInitLedger (world ∅))) /\
  decodable (state (after (TxCreateAsset request7) (after TxInitLedger (world ∅)))) /\
  decodable (state (after (TxTransferAsset transfer1)
               (after (TxCreateAsset request7) (after TxInitLedger (world ∅))))).
Proof.
  assert (Hp : populated (after (TxCreateAsset request7) (after TxInitLedger (world ∅)))).
  { apply populated_step, populated_step, populated_empty. }
  destruct (written_values_decode (TxTransferAsset transfer1)
              (after (TxCreateAsset request7) (after TxInitLedger (world ∅))))
    as (_ & Hkeep & Hpop).
  destruct (Hpop Hp) as [Hd _].
  split; [exact Hp|]. split; [exact Hd|]. exact (Hkeep Hd).
Defined.

(** ** Further properties of the transactions *)

(** *** How the transactions compose *)

Ltac unfold_ops_in H :=
  unfold exec, TransferAsset, CreateAsset, ReadAsset, UpdateAsset, DeleteAsset,
    AssetExists, GetState, PutState, DelState, bind, wrap, of_json, ret, throw
    in H.

Lemma Forall_tail {A} (P : A -> Prop) l : Forall P l -> Forall P (tail l).
Proof. destruct 1; [constructor | assumption]. Qed.

Ltac still_quiet :=
  unfold quiet in *; cbn [faults] in *;
  repeat first [assumption | apply Forall_tail].

Ltac stub_quiet3 :=
  match goal with
  | |- context [invoke ?c ?e ?w] =>
    rewrite (invoke_quiet c e w) by still_quiet;
    cbn [fst snd state faults trace]
  end.

Lemma reencode data a :
  json.Unmarshal data zeroAsset = inl a ->
  json.Unmarshal (json.encode a) zeroAsset = inl a.
Proof. intros H. apply Unmarshal_encode_valid, (decoded_valid _ _ H). Qed.

(** X1. A successful [CreateAsset]: the request decodes to an asset whose id
    was absent, the status is "CreateAsset OK", the state is the old one with
    the encoding of that asset under its id; and, the host not failing after
    it, [AssetExists] of that id is true and [ReadAsset] with the same request
    returns the asset. *)
Theorem CreateAsset_then_read raw w r w1 :
  CreateAsset raw w = (inl r, w1) ->
  exists a,
    json.Unmarshal raw zeroAsset = inl a /\
    state w !! ID a = None /\
    r = "CreateAsset OK" /\
    state w1 = <[ID a := json.encode a]> (state w) /\
    (quiet w1 ->
     fst (AssetExists (ID a) w1) = inl true /\ fst (ReadAsset raw w1) = inl a).
Proof.
  intros Hrun. unfold_ops_in Hrun.
  destruct (json.Unmarshal raw zeroAsset) as [a|e] eqn:Hreq; cbn in Hrun;
    [|discriminate Hrun].
  stub_call; [discriminate Hrun|].
  destruct (state w !! ID a) eqn:Hold; cbn in Hrun; [discriminate Hrun|].
  stub_call; [discriminate Hrun|]. injection Hrun as <- <-.
  exists a. split; [reflexivity|]. split; [exact Hold|].
  split; [reflexivity|]. split; [reflexivity|].
  intros Hq. unfold_ops. rewrite Hreq. cbn. split.
  - stub_quiet. now rewrite lookup_insert_eq.
  - stub_quiet. rewrite lookup_insert_eq. cbn. now rewrite (reencode _ _ Hreq).
Qed.

Lemma CreateAsset_then_read_witness :
  CreateAsset request7 (world ∅)
  = (inl "CreateAsset OK", snd (CreateAsset request7 (world ∅))) /\
  exists a,
    json.Unmarshal request7 zeroAsset = inl a /\
    state (world ∅) !! ID a = None /\
    "CreateAsset OK" = "CreateAsset OK" /\
    state (snd (CreateAsset request7 (world ∅)))
    = <[ID a := json.encode a]> (state (world ∅)) /\
    (quiet (snd (CreateAsset request7 (world ∅))) ->
     fst (AssetExists (ID a) (snd (CreateAsset request7 (world ∅)))) = inl true /\
     fst (ReadAsset request7 (snd (CreateAsset request7 (world ∅)))) = inl a).
Proof.
  assert (Hrun : CreateAsset request7 (world ∅)
            = (inl "CreateAsset OK", snd (CreateAsset request7 (world ∅))))
    by (vm_compute; reflexivity).
  split; [exact Hrun|].
  exact (CreateAsset_then_read _ _ _ _ Hrun).
Defined.

(** X2. A successful [DeleteAsset]: the request decodes, its id was in the
    store and is removed, the other keys are as they were; and, the host not
    failing after it, [AssetExists] of that id is false and [ReadAsset] with
    the same request fails with "does not exist". *)
Theorem DeleteAsset_then_read raw w r w1 :
  DeleteAsset raw w = (inl r, w1) ->
  exists req,
    json.Unmarshal raw zeroAsset = inl req /\
    is_Some (state w !! ID req) /\
    state w1 = delete (ID req) (state w) /\
    (quiet w1 ->
     fst (AssetExists (ID req) w1) = inl false /\
     fst (ReadAsset raw w1) = inr (ErrNotExist (ID req))).
Proof.
  intros Hrun. unfold_ops_in Hrun.
  destruct (json.Unmarshal raw zeroAsset) as [req|e] eqn:Hreq; cbn in Hrun;
    [|discriminate Hrun].
  stub_call; [discriminate Hrun|].
  destruct (state w !! ID req) eqn:Hold; cbn in Hrun; [|discriminate Hrun].
  stub_call; [discriminate Hrun|]. injection Hrun as _ <-.
  exists req. split; [reflexivity|]. split; [eauto|]. split; [reflexivity|].
  intros Hq. unfold_ops. rewrite Hreq. cbn.
  split; stub_quiet; now rewrite lookup_delete_eq.
Qed.

Lemma DeleteAsset_then_read_witness :
  DeleteAsset request_id7 (world {[ "asset7" := request7 ]})
  = (inl "CreateAsset OK",
     snd (DeleteAsset request_id7 (world {[ "asset7" := request7 ]}))) /\
  exists req,
    json.Unmarshal request_id7 zeroAsset = inl req /\
    is_Some (state (world {[ "asset7" := request7 ]}) !! ID req) /\
    state (snd (DeleteAsset request_id7 (world {[ "asset7" := request7 ]})))
    = delete (ID req) (state (world {[ "asset7" := request7 ]})) /\
    (quiet (snd (DeleteAsset request_id7 (world {[ "asset7" := request7 ]}))) ->
     fst (AssetExists (ID req)
            (snd (DeleteAsset request_id7 (world {[ "asset7" := request7 ]}))))
     = inl false /\
     fst (ReadAsset request_id7
            (snd (DeleteAsset request_id7 (world {[ "asset7" := request7 ]}))))
     = inr (ErrNotExist (ID req))).
Proof.
  assert (Hrun : DeleteAsset request_id7 (world {[ "asset7" := request7 ]})
    = (inl "CreateAsset OK",
       snd (DeleteAsset request_id7 (world {[ "asset7" := request7 ]}))))
    by (vm_compute; reflexivity).
  split; [exact Hrun|].
  exact (DeleteAsset_then_read _ _ _ _ Hrun).
Defined.

(** X3. A successful [UpdateAsset] replaces the whole record: the request
    decodes, its id was in the store, the status is "UpdateAsset OK", and the
    state is the old one with the encoding of the request under its id,
    whatever was stored there; the host not failing after it, [ReadAsset]
    returns the request, fields the payload left out being zero. *)
Theorem UpdateAsset_replaces raw w r w1 :
  UpdateAsset raw w = (inl r, w1) ->
  exists req,
    json.Unmarshal raw zeroAsset = inl req /\
    is_Some (state w !! ID req) /\
    r = "UpdateAsset OK" /\
    state w1 = <[ID req := json.encode req]> (state w) /\
    (quiet w1 -> fst (ReadAsset raw w1) = inl req).
Proof.
  intros Hrun. unfold_ops_in Hrun.
  destruct (json.Unmarshal raw zeroAsset) as [req|e] eqn:Hreq; cbn in Hrun;
    [|discriminate Hrun].
  stub_call; [discriminate Hrun|].
  destruct (state w !! ID req) eqn:Hold; cbn in Hrun; [|discriminate Hrun].
  stub_call; [discriminate Hrun|]. injection Hrun as <- <-.
  exists req. split; [reflexivity|]. split; [eauto|].
  split; [reflexivity|]. split; [reflexivity|].
  intros Hq. unfold_ops. rewrite Hreq. cbn.
  stub_quiet. rewrite lookup_insert_eq. cbn.
  now rewrite (reencode _ _ Hreq).
Qed.

Lemma UpdateAsset_replaces_witness :
  UpdateAsset request_id7 (world {[ "asset7" := request7 ]})
  = (inl "UpdateAsset OK",
     snd (UpdateAsset request_id7 (world {[ "asset7" := request7 ]}))) /\
  exists req,
    json.Unmarshal request_id7 zeroAsset = inl req /\
    is_Some (state (world {[ "asset7" := request7 ]}) !! ID req) /\
    "UpdateAsset OK" = "UpdateAsset OK" /\
    state (snd (UpdateAsset request_id7 (world {[ "asset7" := request7 ]})))
    = <[ID req := json.encode req]> (state (world {[ "asset7" := request7 ]})) /\
    (quiet (snd (UpdateAsset request_id7 (world {[ "asset7" := request7 ]}))) ->
     fst (ReadAsset request_id7
            (snd (UpdateAsset request_id7 (world {[ "asset7" := request7 ]}))))
     = inl req).
Proof.
  assert (Hrun : UpdateAsset request_id7 (world {[ "asset7" := request7 ]})
    = (inl "UpdateAsset OK",
       snd (UpdateAsset request_id7 (world {[ "asset7" := request7 ]}))))
    by (vm_compute; reflexivity).
  split; [exact Hrun|].
  exact (UpdateAsset_replaces _ _ _ _ Hrun).
Defined.

(** X4. After a successful [TransferAsset], the host not failing,
    [ReadAsset] with the same request returns the record that was stored
    with its owner replaced by the owner of the request, and the status was
    "TransferAsset OK". *)
Theorem TransferAsset_then_read raw w r w1 :
  TransferAsset raw w = (inl r, w1) ->
  exists req stored old,
    json.Unmarshal raw zeroAsset = inl req /\
    state w !! ID req = Some stored /\
    json.Unmarshal stored zeroAsset = inl old /\
    r = "TransferAsset OK" /\
    (quiet w1 -> fst (ReadAsset raw w1) = inl (set_Owner old (Owner req))).
Proof.
  intros Hrun. unfold_ops_in Hrun.
  destruct (json.Unmarshal raw zeroAsset) as [req|e] eqn:Hreq; cbn in Hrun;
    [|discriminate Hrun].
  stub_call; [discriminate Hrun|].
  destruct (state w !! ID req) as [stored|] eqn:Hst; cbn in Hrun; [|discriminate Hrun].
  stub_call; [discriminate Hrun|]. rewrite Hst in Hrun.
  destruct (json.Unmarshal stored zeroAsset) as [old|e] eqn:Hold; cbn in Hrun;
    [|discriminate Hrun].
  stub_call; [discriminate Hrun|]. injection Hrun as <- <-.
  exists req, stored, old. split; [reflexivity|]. split; [exact Hst|].
  split; [exact Hold|]. split; [reflexivity|].
  intros Hq. unfold_ops. rewrite Hreq. cbn.
  stub_quiet. rewrite lookup_insert_eq. cbn.
  rewrite Unmarshal_encode_valid; [reflexivity|].
  apply valid_set_Owner; [exact (decoded_valid _ _ Hold) | apply (decoded_valid _ _ Hreq)].
Qed.

Lemma TransferAsset_then_read_witness :
  TransferAsset transfer1 (world {[ "asset1" := stored1 ]})
  = (inl "TransferAsset OK",
     snd (TransferAsset transfer1 (world {[ "asset1" := stored1 ]}))) /\
  exists req stored old,
    json.Unmarshal transfer1 zeroAsset = inl req /\
    state (world {[ "asset1" := stored1 ]}) !! ID req = Some stored /\
    json.Unmarshal stored zeroAsset = inl old /\
    "TransferAsset OK" = "TransferAsset OK" /\
    (quiet (snd (TransferAsset transfer1 (world {[ "asset1" := stored1 ]}))) ->
     fst (ReadAsset transfer1
            (snd (TransferAsset transfer1 (world {[ "asset1" := stored1 ]}))))
     = inl (set_Owner old (Owner req))).
Proof.
  assert (Hrun : TransferAsset transfer1 (world {[ "asset1" := stored1 ]})
    = (inl "TransferAsset OK",
       snd (TransferAsset transfer1 (world {[ "asset1" := stored1 ]}))))
    by (vm_compute; reflexivity).
  split; [exact Hrun|].
  exact (TransferAsset_then_read _ _ _ _ Hrun).
Defined.

(** *** The queries *)

Lemma collect_trace l : forall acc w,
  exists t, trace (snd (collect l acc w)) = trace w ++ t /\
            Forall (fun x => fst x = NextCall) t.
Proof.
  induction l as [|kv l IH]; intros acc w; cbn.
  - exists []. now rewrite app_nil_r.
  - unfold bind, Next, of_json, ret, throw. stub_call.
    { exists [(NextCall, Failed)]. split; [reflexivity|]. now repeat constructor. }
    destruct (json.Unmarshal kv.2 zeroAsset); cbn.
    + match goal with |- context [collect l ?acc' ?w'] =>
        destruct (IH acc' w') as (t & Ht & HF) end.
      exists ((NextCall, Done) :: t). cbn in Ht. rewrite Ht, <- app_assoc.
      split; [reflexivity|]. now constructor.
    + exists [(NextCall, Done)]. split; [reflexivity|]. now repeat constructor.
Qed.

Lemma GetAllAssets_reads w :
  state (snd (GetAllAssets w)) = state w /\
  exists t, trace (snd (GetAllAssets w)) = trace w ++ t /\
            Forall (fun x => is_write (fst x) = false) t.
Proof.
  unfold GetAllAssets, bind, defer, GetStateByRange. stub_call.
  { split; [reflexivity|]. eexists; split; [reflexivity|]. now repeat constructor. }
  match goal with |- context [collect ?l ?acc ?w'] =>
    destruct (collect_trace l acc w') as (t & Ht & HF);
    pose proof (collect_state l acc w') as Hst;
    destruct (collect l acc w') as [r w''] end.
  cbn in *. split; [exact Hst|].
  exists ((GetStateByRangeCall "" "", Done) :: t ++ [(CloseCall, Done)]).
  rewrite Ht, <- !app_assoc. split; [reflexivity|].
  constructor; [reflexivity|]. apply Forall_app. split.
  - eapply Forall_impl; [exact HF|]. intros [c o] Hc. cbn in *. now subst c.
  - now repeat constructor.
Qed.

(** X6. [GetAllAssets] releases the iterator on every path: either
    [GetStateByRange] fails, the error of the stub is returned and nothing
    else is called, or it is followed by calls to [Next] only and then by one
    [Close], the last call of the run, also when [Next] or the decoding of a
    value fails. *)
Theorem GetAllAssets_closes_iterator w :
  (trace (snd (GetAllAssets w)) = trace w ++ [(GetStateByRangeCall "" "", Failed)]
   /\ exists msg, fst (GetAllAssets w) = inr (ErrStub msg))
  \/ exists t,
       trace (snd (GetAllAssets w))
       = trace w ++ (GetStateByRangeCall "" "", Done) :: t ++ [(CloseCall, Done)]
       /\ Forall (fun x => fst x = NextCall) t.
Proof.
  unfold GetAllAssets, bind, defer, GetStateByRange. stub_call.
  { left. eauto. }
  right.
  match goal with |- context [collect ?l ?acc ?w'] =>
    destruct (collect_trace l acc w') as (t & Ht & HF);
    destruct (collect l acc w') as [r w''] end.
  cbn in *. exists t. rewrite Ht, <- !app_assoc. auto.
Qed.

Lemma queries_state tx w :
  is_query tx = true ->
  state (after tx w) = state w /\
  exists t, trace (after tx w) = trace w ++ t /\
            Forall (fun x => is_write (fst x) = false) t.
Proof.
  destruct tx; try discriminate; intros _; cbn [after].
  - unfold_ops.
    destruct (json.Unmarshal raw zeroAsset) as [req|e]; cbn.
    2:{ split; [reflexivity|]. exists []. now rewrite app_nil_r. }
    stub_call.
    { split; [reflexivity|]. eexists; split; [reflexivity|]. now repeat constructor. }
    destruct (state w !! ID req) as [stored|]; cbn.
    2:{ split; [reflexivity|]. eexists; split; [reflexivity|]. now repeat constructor. }
    destruct (json.Unmarshal stored zeroAsset); cbn;
      (split; [reflexivity|]); eexists; (split; [reflexivity|]);
      now repeat constructor.
  - unfold_ops. stub_call;
      (split; [reflexivity|]); eexists; (split; [reflexivity|]);
      now repeat constructor.
  - apply GetAllAssets_reads.
Qed.

(** X5. [ReadAsset], [AssetExists] and [GetAllAssets] only read: whatever
    the request, the state and the failures of the host, the state after
    them is the state before, and none of the calls they make is a
    [PutState] or a [DelState]. *)
Theorem queries_read_only tx w :
  is_query tx = true ->
  state (after tx w) = state w /\
  exists t, trace (after tx w) = trace w ++ t /\
            Forall (fun x => is_write (fst x) = false) t.
Proof. apply queries_state. Qed.

Lemma queries_read_only_witness :
  is_query TxGetAllAssets = true /\
  state (after TxGetAllAssets (mkWorld {[ "asset1" := stored1 ]} [None; Some "down"] []))
  = state (mkWorld {[ "asset1" := stored1 ]} [None; Some "down"] []) /\
  exists t,
    trace (after TxGetAllAssets
             (mkWorld {[ "asset1" := stored1 ]} [None; Some "down"] []))
    = trace (mkWorld {[ "asset1" := stored1 ]} [None; Some "down"] []) ++ t /\
    Forall (fun x => is_write (fst x) = false) t.
Proof.
  split; [reflexivity|].
  exact (queries_read_only TxGetAllAssets
           (mkWorld {[ "asset1" := stored1 ]} [None; Some "down"] []) eq_refl).
Defined.

(** *** The listing *)

#[global] Instance key_le_trans : Transitive key_le.
Proof. intros x y z. unfold key_le. apply transitivity. Qed.

#[global] Instance key_le_total : Total key_le.
Proof. intros x y. unfold key_le. apply total, _. Qed.

Lemma range_all st : range "" "" st = merge_sort key_le (map_to_list st).
Proof.
  unfold range. induction (merge_sort key_le (map_to_list st)) as [|kv l IH];
    [reflexivity|].
  cbn. now rewrite IH.
Qed.

Lemma decode_all (l : list (string * string)) :
  (forall kv, In kv l -> exists a, json.Unmarshal (snd kv) zeroAsset = inl a) ->
  exists assets,
    Forall2 (fun kv a => json.Unmarshal (snd kv) zeroAsset = inl a) l assets.
Proof.
  induction l as [|kv l IH]; intros Hl; [exists []; constructor|].
  destruct (Hl kv) as [a Ha]; [now left|].
  destruct IH as [assets HF]; [intros kv' Hin; apply Hl; now right|].
  exists (a :: assets). now constructor.
Qed.

Lemma GetAllAssets_entries w :
  quiet w -> decodable (state w) ->
  exists assets,
    fst (GetAllAssets w) = inl assets /\
    Forall2 (fun kv a => json.Unmarshal (snd kv) zeroAsset = inl a)
            (range "" "" (state w)) assets.
Proof.
  intros Hq Hd.
  destruct (decode_all (range "" "" (state w))) as [assets HF].
  { intros [k v] Hin. apply in_range_all in Hin. cbn. eauto. }
  exists assets. split; [|exact HF].
  unfold GetAllAssets, bind, defer, GetStateByRange. stub_quiet.
  match goal with |- context [collect ?l ?acc ?w'] =>
    pose proof (collect_decodable l acc w' assets HF) as Hc;
    destruct (collect l acc w') as [r w''] end.
  cbn in *. apply Hc, quiet_tail. exact Hq.
Qed.

(** X7. With a host that does not fail and a store whose values all decode,
    [GetAllAssets] succeeds and returns one asset per entry of the store, each
    the decoding of the value, in ascending order of the keys; on an empty
    store the list is empty. *)
Theorem GetAllAssets_lists w :
  quiet w -> decodable (state w) ->
  exists entries assets,
    fst (GetAllAssets w) = inl assets /\
    entries ≡ₚ map_to_list (state w) /\
    StronglySorted key_le entries /\
    Forall2 (fun kv a => json.Unmarshal (snd kv) zeroAsset = inl a) entries assets.
Proof.
  intros Hq Hd. destruct (GetAllAssets_entries w Hq Hd) as (assets & Hrun & HF).
  exists (range "" "" (state w)), assets. split; [exact Hrun|].
  split; [|split; [|exact HF]].
  - rewrite range_all. apply merge_sort_Permutation.
  - rewrite range_all. apply StronglySorted_merge_sort; apply _.
Qed.

Lemma GetAllAssets_lists_witness :
  quiet (world {[ "b" := stored1; "a" := request7 ]}) /\
  decodable (state (world {[ "b" := stored1; "a" := request7 ]})) /\
  exists entries assets,
    fst (GetAllAssets (world {[ "b" := stored1; "a" := request7 ]})) = inl assets /\
    entries ≡ₚ map_to_list (state (world {[ "b" := stored1; "a" := request7 ]})) /\
    StronglySorted key_le entries /\
    Forall2 (fun kv a => json.Unmarshal (snd kv) zeroAsset = inl a) entries assets.
Proof.
  assert (Hd : decodable (state (world {[ "b" := stored1; "a" := request7 ]}))).
  { intros k v. cbn. intros Hk.
    apply lookup_insert_Some in Hk as [[_ <-]|[_ Hk]].
    - eexists. vm_compute. reflexivity.
    - apply lookup_singleton_Some in Hk as [_ <-]. eexists. vm_compute. reflexivity. }
  split; [apply quiet_world|]. split; [exact Hd|].
  apply GetAllAssets_lists; [apply quiet_world | exact Hd].
Defined.

(** *** The errors *)

Lemma putAssets_error l : forall w e,
  fst (putAssets l w) = inr e -> exists msg, e = ErrPutWorldState (ErrStub msg).
Proof.
  induction l as [|a l IH]; intros w e; cbn; [discriminate|].
  unfold bind, wrap, PutState. cbn. stub_call.
  - intros [= <-]. eauto.
  - apply IH.
Qed.

Lemma collect_error l : forall acc w e,
  fst (collect l acc w) = inr e ->
  (exists msg, e = ErrStub msg) \/ exists je, e = ErrJSON je.
Proof.
  induction l as [|kv l IH]; intros acc w e; cbn; [discriminate|].
  unfold bind, Next, of_json, ret, throw. stub_call.
  - intros [= <-]. eauto.
  - destruct (json.Unmarshal kv.2 zeroAsset); cbn; [apply IH|].
    intros [= <-]. eauto.
Qed.

(** X8. The errors of the transactions: whatever the transaction, the
    request, the state and the failures of the host, the error is never the
    "failed json.Marshal" one (encoding an [Asset] cannot fail), and a
    "failed to read from world state" or "failed to put to world state" error
    always wraps an error of the stub. *)
Theorem error_taxonomy tx w e :
  error_of tx w = Some e ->
  match e with
  | ErrMarshal _ => False
  | ErrReadWorldState cause | ErrPutWorldState cause =>
      exists msg, cause = ErrStub msg
  | ErrJSON _ | ErrStub _ | ErrAlreadyExists _ | ErrNotExist _ => True
  end.
Proof.
  destruct tx; cbn [error_of].
  - destruct (fst (InitLedger w)) as [|e'] eqn:He; [discriminate|].
    intros [= <-]. apply putAssets_error in He as [msg ->]. eauto.
  - unfold_ops. destruct (json.Unmarshal raw zeroAsset) as [req|je]; cbn;
      [|now intros [= <-]].
    stub_call; [intros [= <-]; eauto|].
    destruct (state w !! ID req); cbn; [now intros [= <-]|].
    stub_call; [now intros [= <-] | discriminate].
  - unfold_ops. destruct (json.Unmarshal raw zeroAsset) as [req|je]; cbn;
      [|now intros [= <-]].
    stub_call; [intros [= <-]; eauto|].
    destruct (state w !! ID req) as [stored|]; cbn; [|now intros [= <-]].
    destruct (json.Unmarshal stored zeroAsset); cbn;
      [discriminate | now intros [= <-]].
  - unfold_ops. destruct (json.Unmarshal raw zeroAsset) as [req|je]; cbn;
      [|now intros [= <-]].
    stub_call; [intros [= <-]; eauto|].
    destruct (state w !! ID req); cbn; [|now intros [= <-]].
    stub_call; [now intros [= <-] | discriminate].
  - unfold_ops. destruct (json.Unmarshal raw zeroAsset) as [req|je]; cbn;
      [|now intros [= <-]].
    stub_call; [intros [= <-]; eauto|].
    destruct (state w !! ID req); cbn; [|now intros [= <-]].
    stub_call; [now intros [= <-] | discriminate].
  - unfold_ops. destruct (json.Unmarshal raw zeroAsset) as [req|je]; cbn;
      [|now intros [= <-]].
    stub_call; [intros [= <-]; eauto|].
    destruct (state w !! ID req) as [stored|] eqn:Hst; cbn; [|now intros [= <-]].
    stub_call; [intros [= <-]; eauto|]. rewrite Hst.
    destruct (json.Unmarshal stored zeroAsset); cbn; [|now intros [= <-]].
    stub_call; [now intros [= <-] | discriminate].
  - unfold_ops. stub_call; [intros [= <-]; eauto | discriminate].
  - unfold GetAllAssets, bind, defer, GetStateByRange. stub_call;
      [now intros [= <-]|].
    match goal with |- context [collect ?l ?acc ?w'] =>
      pose proof (collect_error l acc w') as Hc;
      destruct (collect l acc w') as [[r|e'] w''] end; cbn in *; [discriminate|].
    intros [= <-]. destruct (Hc e' eq_refl) as [[msg ->]|[je ->]]; exact I.
Qed.

Lemma error_taxonomy_witness :
  error_of (TxCreateAsset request7) (mkWorld ∅ [Some "down"] [])
  = Some (ErrReadWorldState (ErrStub "down")) /\
  exists msg, ErrStub "down" = ErrStub msg.
Proof.
  assert (H : error_of (TxCreateAsset request7) (mkWorld ∅ [Some "down"] [])
              = Some (ErrReadWorldState (ErrStub "down")))
    by (vm_compute; reflexivity).
  split; [exact H|].
  exact (error_taxonomy _ _ _ H).
Defined.

(** *** [InitLedger] *)

Lemma putAssets_success l : forall w w',
  putAssets l w = (inl tt, w') ->
  state w' = fold_left (fun st a => <[ID a := json.encode a]> st) l (state w) /\
  trace w' = trace w ++ map (fun a => (PutStateCall (ID a) (json.encode a), Done)) l.
Proof.
  induction l as [|a l IH]; intros w w'; cbn.
  - intros [= <-]. now rewrite app_nil_r.
  - unfold bind, wrap, PutState. cbn. stub_call; [discriminate|].
    intros Hrun. apply IH in Hrun as [-> ->]. cbn. now rewrite <- app_assoc.
Qed.

Lemma fold_insert_other (l : list Asset) : forall (st : gmap string string) k,
  (forall a, In a l -> ID a <> k) ->
  fold_left (fun st a => <[ID a := json.encode a]> st) l st !! k = st !! k.
Proof.
  induction l as [|b l IH]; intros st k Hk; cbn; [reflexivity|].
  rewrite IH by (intros a Ha; apply Hk; now right).
  apply lookup_insert_ne, Hk. now left.
Qed.

Lemma fold_insert_in (l : list Asset) : forall (st : gmap string string) a,
  NoDup (map ID l) -> In a l ->
  fold_left (fun st a => <[ID a := json.encode a]> st) l st !! ID a
  = Some (json.encode a).
Proof.
  induction l as [|b l IH]; intros st a Hnd Hin; [destruct Hin|].
  cbn in *. apply NoDup_cons in Hnd as [Hb Hnd].
  destruct Hin as [->|Hin]; [|now apply IH].
  rewrite fold_insert_other; [apply lookup_insert_eq|].
  intros a' Ha' Heq. apply Hb. rewrite <- Heq.
  apply list_elem_of_In. apply (List.in_map ID). exact Ha'.
Qed.

Lemma seed_ids : NoDup (map ID seed).
Proof. apply (bool_decide_unpack (NoDup (map ID seed))). vm_compute. exact I. Qed.

(** X9. A successful [InitLedger] writes without looking: its calls to the
    stub are exactly six [PutState], one per seed asset in order, and no
    [GetState]; after it every seed id holds the encoding of its seed asset,
    whatever it held before, and every other key is as it was. *)
Theorem InitLedger_overwrites w w' :
  InitLedger w = (inl tt, w') ->
  trace w' = trace w
             ++ map (fun a => (PutStateCall (ID a) (json.encode a), Done)) seed /\
  (forall a, In a seed -> state w' !! ID a = Some (json.encode a)) /\
  (forall k, (forall a, In a seed -> ID a <> k) -> state w' !! k = state w !! k).
Proof.
  intros H. apply putAssets_success in H as [Hst Htr].
  split; [exact Htr|]. rewrite Hst. split.
  - intros a Ha. apply fold_insert_in; [apply seed_ids | exact Ha].
  - intros k Hk. now apply fold_insert_other.
Qed.

Lemma InitLedger_overwrites_witness :
  InitLedger (world {[ "asset1" := "junk"; "asset9" := stored1 ]})
  = (inl tt, snd (InitLedger (world {[ "asset1" := "junk"; "asset9" := stored1 ]})))
  /\ state (snd (InitLedger (world {[ "asset1" := "junk"; "asset9" := stored1 ]})))
     !! "asset1" = Some stored1
  /\ state (snd (InitLedger (world {[ "asset1" := "junk"; "asset9" := stored1 ]})))
     !! "asset9" = Some stored1.
Proof.
  assert (Hrun : InitLedger (world {[ "asset1" := "junk"; "asset9" := stored1 ]})
    = (inl tt, snd (InitLedger (world {[ "asset1" := "junk"; "asset9" := stored1 ]}))))
    by (vm_compute; reflexivity).
  split; [exact Hrun|].
  destruct (InitLedger_overwrites _ _ Hrun) as (_ & Hin & Hout). split.
  - apply (Hin (mkAsset "asset1" "blue" 5 "Tomoko" 300)). now left.
  - rewrite Hout; [reflexivity|].
    intros a Ha. repeat (destruct Ha as [<-|Ha]; [discriminate|]). destruct Ha.
Defined.

(** *** Writes and failures *)

(** X10. A transaction with a payload that returns an error has written
    nothing: whatever the error and the failures of the host, the state
    after it is the state before. *)
Theorem failed_writes_nothing op raw w e :
  fst (exec op raw w) = Some e ->
  state (snd (exec op raw w)) = state w.
Proof.
  destruct (json.Unmarshal raw zeroAsset) as [req|je] eqn:Hreq.
  2:{ now rewrite (malformed_rejected _ _ _ _ Hreq). }
  destruct op; unfold_ops; rewrite Hreq; cbn.
  - stub_call; [reflexivity|].
    destruct (state w !! ID req); cbn; [reflexivity|].
    stub_call; [reflexivity | discriminate].
  - stub_call; [reflexivity|].
    destruct (state w !! ID req) as [stored|]; cbn; [|reflexivity].
    destruct (json.Unmarshal stored zeroAsset); reflexivity.
  - stub_call; [reflexivity|].
    destruct (state w !! ID req); cbn; [|reflexivity].
    stub_call; [reflexivity | discriminate].
  - stub_call; [reflexivity|].
    destruct (state w !! ID req); cbn; [|reflexivity].
    stub_call; [reflexivity | discriminate].
  - stub_call; [reflexivity|].
    destruct (state w !! ID req) as [stored|] eqn:Hst; cbn; [|reflexivity].
    stub_call; [reflexivity|]. rewrite Hst.
    destruct (json.Unmarshal stored zeroAsset); cbn; [|reflexivity].
    stub_call; [reflexivity | discriminate].
Qed.

Lemma failed_writes_nothing_witness :
  fst (exec Transfer transfer1
         (mkWorld {[ "asset1" := stored1 ]} [None; None; Some "down"] []))
  = Some (ErrStub "down") /\
  state (snd (exec Transfer transfer1
                (mkWorld {[ "asset1" := stored1 ]} [None; None; Some "down"] [])))
  = {[ "asset1" := stored1 ]}.
Proof.
  assert (H : fst (exec Transfer transfer1
         (mkWorld {[ "asset1" := stored1 ]} [None; None; Some "down"] []))
    = Some (ErrStub "down")) by (vm_compute; reflexivity).
  split; [exact H|].
  exact (failed_writes_nothing _ _ _ _ H).
Defined.

Ltac last_call :=
  close_trace; 
  let pre := fresh "pre" in
  intros pre ? ? ? ? ?; split_trace pre; eauto.

(** X11. A transaction with a payload writes at most once, and last: a
    [PutState] or [DelState] in its run is the final call to the stub; the
    transaction succeeds when that call does and returns the error of the
    stub, as it is, when it fails. *)
Theorem single_write_last op raw w :
  exists t, trace (snd (exec op raw w)) = trace w ++ t /\
    forall pre c o post, t = pre ++ (c, o) :: post -> is_write c = true ->
      post = [] /\
      match o with
      | Done => fst (exec op raw w) = None
      | Failed => exists msg, fst (exec op raw w) = Some (ErrStub msg)
      end.
Proof.
  destruct (json.Unmarshal raw zeroAsset) as [req|e] eqn:Hreq.
  2:{ rewrite (malformed_rejected _ _ _ _ Hreq). cbn. close_trace.
      intros pre c o post Ht. now destruct pre. }
  destruct op; unfold_ops; rewrite Hreq; cbn.
  - stub_call; [last_call|].
    destruct (state w !! ID req); cbn; [last_call|].
    stub_call; last_call.
  - stub_call; [last_call|].
    destruct (state w !! ID req) as [stored|]; cbn; [|last_call].
    destruct (json.Unmarshal stored zeroAsset); cbn; last_call.
  - stub_call; [last_call|].
    destruct (state w !! ID req); cbn; [|last_call].
    stub_call; last_call.
  - stub_call; [last_call|].
    destruct (state w !! ID req); cbn; [|last_call].
    stub_call; last_call.
  - stub_call; [last_call|].
    destruct (state w !! ID req) as [stored|] eqn:Hst; cbn; [|last_call].
    stub_call; [last_call|]. rewrite Hst.
    destruct (json.Unmarshal stored zeroAsset); cbn; [|last_call].
    stub_call; last_call.
Qed.

Ltac aborts :=
  close_trace; split;
  [ cbn; split;
    [ intros [? Hin]; repeat (destruct Hin as [Hin|Hin]; simplify_eq/=);
      try contradiction; eauto
    | intros (? & ? & ?); simplify_eq/=; eauto 6 ]
  | let pre := fresh "pre" in intros pre ? ? ?; split_trace pre; eauto ].

(** X12. No failure of the stub is recovered: in a transaction with a
    payload, a call to the stub fails exactly when the transaction returns an
    error of kind [StoreError], and the failed call is the last one the
    transaction makes. *)
Theorem store_failure_aborts op raw w :
  exists t, trace (snd (exec op raw w)) = trace w ++ t /\
    ((exists c, In (c, Failed) t) <->
     exists e, fst (exec op raw w) = Some e /\ kind_of e = StoreError) /\
    forall pre c post, t = pre ++ (c, Failed) :: post -> post = [].
Proof.
  destruct (json.Unmarshal raw zeroAsset) as [req|e] eqn:Hreq.
  2:{ rewrite (malformed_rejected _ _ _ _ Hreq). cbn. aborts. }
  destruct op; unfold_ops; rewrite Hreq; cbn.
  - stub_call; [aborts|].
    destruct (state w !! ID req); cbn; [aborts|].
    stub_call; aborts.
  - stub_call; [aborts|].
    destruct (state w !! ID req) as [stored|]; cbn; [|aborts].
    destruct (json.Unmarshal stored zeroAsset); cbn; aborts.
  - stub_call; [aborts|].
    destruct (state w !! ID req); cbn; [|aborts].
    stub_call; aborts.
  - stub_call; [aborts|].
    destruct (state w !! ID req); cbn; [|aborts].
    stub_call; aborts.
  - stub_call; [aborts|].
    destruct (state w !! ID req) as [stored|] eqn:Hst; cbn; [|aborts].
    stub_call; [aborts|]. rewrite Hst.
    destruct (json.Unmarshal stored zeroAsset); cbn; [|aborts].
    stub_call; aborts.
Qed.

(** *** When a transaction succeeds *)

(** X13. With a host that does not fail, a transaction with a payload
    succeeds exactly when the payload decodes and the state meets what the
    transaction asks of the id: absent for [CreateAsset], present for
    [UpdateAsset] and [DeleteAsset], present with a value that decodes for
    [ReadAsset] and [TransferAsset]. *)
Theorem exec_succeeds op raw w :
  quiet w ->
  (fst (exec op raw w) = None <->
   exists req, json.Unmarshal raw zeroAsset = inl req /\ accepted op req (state w)).
Proof.
  intros Hq.
  destruct (json.Unmarshal raw zeroAsset) as [req|e] eqn:Hreq.
  2:{ rewrite (malformed_rejected _ _ _ _ Hreq). cbn.
      split; [discriminate | intros (req & [=] & _)]. }
  assert (Hiff : fst (exec op raw w) = None <-> accepted op req (state w)).
  2:{ rewrite Hiff. split; [eauto | now intros (req' & [= <-] & H)]. }
  destruct op; unfold_ops; rewrite Hreq; cbn.
  - stub_quiet. destruct (state w !! ID req); cbn; [now split|].
    stub_quiet. now split.
  - stub_quiet. destruct (state w !! ID req) as [stored|]; cbn.
    + destruct (json.Unmarshal stored zeroAsset) as [a|e] eqn:Hst; cbn.
      * split; [eauto | reflexivity].
      * split; [discriminate | intros (? & ? & [= <-] & ?); congruence].
    + split; [discriminate | now intros (? & ? & [=] & _)].
  - stub_quiet. destruct (state w !! ID req); cbn.
    + stub_quiet. split; [eauto | reflexivity].
    + split; [discriminate | now intros [? [=]]].
  - stub_quiet. destruct (state w !! ID req); cbn.
    + stub_quiet. split; [eauto | reflexivity].
    + split; [discriminate | now intros [? [=]]].
  - stub_quiet. destruct (state w !! ID req) as [stored|] eqn:Hk; cbn.
    + stub_quiet. rewrite Hk.
      destruct (json.Unmarshal stored zeroAsset) as [a|e] eqn:Hst; cbn.
      * stub_quiet3. split; [eauto | reflexivity].
      * split; [discriminate | intros (? & ? & [= <-] & ?); congruence].
    + split; [discriminate | now intros (? & ? & [=] & _)].
Qed.

Lemma exec_succeeds_witness :
  quiet (world {[ "asset1" := stored1 ]}) /\
  (fst (exec Transfer transfer1 (world {[ "asset1" := stored1 ]})) = None <->
   exists req, json.Unmarshal transfer1 zeroAsset = inl req /\
               accepted Transfer req (state (world {[ "asset1" := stored1 ]}))).
Proof.
  split; [apply quiet_world|].
  apply exec_succeeds, quiet_world.
Defined.

(** *** Records and their keys *)

Section Preserved.
Variable P : gmap string string -> Prop.
Hypothesis P_put : forall st a,
  valid a -> P st -> P (<[ID a := json.encode a]> st).
Hypothesis P_delete : forall st k, P st -> P (delete k st).
Hypothesis P_owner : forall st req stored old,
  valid req -> st !! ID req = Some stored ->
  json.Unmarshal stored zeroAsset = inl old ->
  P st -> P (<[ID req := json.encode (set_Owner old (Owner req))]> st).

Lemma putAssets_preserves l : forall w,
  Forall valid l -> P (state w) -> P (state (snd (putAssets l w))).
Proof.
  induction l as [|a l IH]; intros w Hl Hw; cbn; [exact Hw|].
  inversion Hl; subst.
  unfold bind, wrap, PutState. cbn. stub_call; [exact Hw|].
  apply IH; cbn; auto.
Qed.

(** Whatever holds of the state and is kept by the three kinds of write
    the contract makes is kept by every transaction. *)
Lemma after_preserves tx w : P (state w) -> P (state (after tx w)).
Proof.
  intros Hw. destruct tx; cbn [after].
  - apply putAssets_preserves; [apply seed_valid | exact Hw].
  - unfold_ops.
    destruct (json.Unmarshal raw zeroAsset) as [req|e] eqn:Hreq; cbn; [|exact Hw].
    stub_call; [exact Hw|].
    destruct (state w !! ID req); cbn; [exact Hw|].
    stub_call; [exact Hw|]. apply P_put; [exact (decoded_valid _ _ Hreq) | exact Hw].
  - destruct (queries_state (TxReadAsset raw) w eq_refl) as [Hs _]. cbn in Hs. now rewrite Hs.
  - unfold_ops.
    destruct (json.Unmarshal raw zeroAsset) as [req|e] eqn:Hreq; cbn; [|exact Hw].
    stub_call; [exact Hw|].
    destruct (state w !! ID req); cbn; [|exact Hw].
    stub_call; [exact Hw|]. apply P_put; [exact (decoded_valid _ _ Hreq) | exact Hw].
  - unfold_ops.
    destruct (json.Unmarshal raw zeroAsset) as [req|e] eqn:Hreq; cbn; [|exact Hw].
    stub_call; [exact Hw|].
    destruct (state w !! ID req); cbn; [|exact Hw].
    stub_call; [exact Hw|]. now apply P_delete.
  - unfold_ops.
    destruct (json.Unmarshal raw zeroAsset) as [req|e] eqn:Hreq; cbn; [|exact Hw].
    stub_call; [exact Hw|].
    destruct (state w !! ID req) as [stored|] eqn:Hst; cbn; [|exact Hw].
    stub_call; [exact Hw|]. rewrite Hst.
    destruct (json.Unmarshal stored zeroAsset) as [old|e] eqn:Hold; cbn;
      [|exact Hw].
    stub_call; [exact Hw|].
    eapply P_owner; eauto using decoded_valid.
  - destruct (queries_state (TxAssetExists id) w eq_refl) as [Hs _]. cbn in Hs. now rewrite Hs.
  - destruct (queries_state TxGetAllAssets w eq_refl) as [Hs _]. cbn in Hs. now rewrite Hs.
Qed.
End Preserved.

Lemma keyed_put st a : valid a -> keyed st -> keyed (<[ID a := json.encode a]> st).
Proof.
  intros Ha Hst k v. destruct (decide (ID a = k)) as [<-|Hne].
  - rewrite lookup_insert_eq. intros [= <-]. exists a.
    split; [now apply Unmarshal_encode_valid | reflexivity].
  - rewrite lookup_insert_ne by assumption. apply Hst.
Qed.

Lemma keyed_delete st k : keyed st -> keyed (delete k st).
Proof.
  intros Hst k' v Hk. apply lookup_delete_Some in Hk as [_ Hk]. eauto.
Qed.

Lemma keyed_owner st req stored old :
  valid req -> st !! ID req = Some stored ->
  json.Unmarshal stored zeroAsset = inl old ->
  keyed st -> keyed (<[ID req := json.encode (set_Owner old (Owner req))]> st).
Proof.
  intros Hreq Hst Hold Hk.
  destruct (Hk _ _ Hst) as (a & Ha & Hid).
  assert (a = old) by congruence. subst a.
  assert (Hnew : valid (set_Owner old (Owner req))).
  { apply valid_set_Owner; [exact (decoded_valid _ _ Hold) | apply Hreq]. }
  replace (ID req) with (ID (set_Owner old (Owner req))) by exact Hid.
  now apply keyed_put.
Qed.

Lemma keyed_after tx w : keyed (state w) -> keyed (state (after tx w)).
Proof.
  apply after_preserves;
    auto using keyed_put, keyed_delete; intros; eapply keyed_owner; eauto.
Qed.

Lemma populated_keyed w : populated w -> keyed (state w).
Proof.
  induction 1 as [fs|tx w _ IH]; cbn [state].
  - intros k v Hk. now rewrite lookup_empty in Hk.
  - now apply keyed_after.
Qed.

Lemma keyed_decodable st : keyed st -> decodable st.
Proof. intros Hk k v Hv. destruct (Hk k v Hv) as (a & Ha & _). eauto. Qed.

(** X14. Every record is stored under its own id: a store with that
    property keeps it through every transaction, whatever the failures of
    the host, and every ledger reached from the empty one through the
    transactions alone has it. *)
Theorem records_keyed tx w :
  (keyed (state w) -> keyed (state (after tx w))) /\
  (populated w -> keyed (state w)).
Proof. split; [apply keyed_after | apply populated_keyed]. Qed.

Lemma records_keyed_witness :
  populated (after (TxTransferAsset transfer1) (after TxInitLedger (world ∅))) /\
  keyed (state (after (TxTransferAsset transfer1) (after TxInitLedger (world ∅)))).
Proof.
  assert (Hp : populated
            (after (TxTransferAsset transfer1) (after TxInitLedger (world ∅)))).
  { apply populated_step, populated_step, populated_empty. }
  split; [exact Hp|].
  destruct (records_keyed TxGetAllAssets
              (after (TxTransferAsset transfer1) (after TxInitLedger (world ∅))))
    as [_ H].
  exact (H Hp).
Defined.

Lemma entries_ids (entries : list (string * string)) assets :
  Forall2 (fun kv a => json.Unmarshal (snd kv) zeroAsset = inl a /\ ID a = fst kv)
          entries assets ->
  map ID assets = map fst entries.
Proof. induction 1 as [|kv a l l' [_ Hid] _ IH]; cbn; congruence. Qed.

Lemma entries_keyed st (entries : list (string * string)) assets :
  keyed st -> (forall k v, In (k, v) entries -> st !! k = Some v) ->
  Forall2 (fun kv a => json.Unmarshal (snd kv) zeroAsset = inl a) entries assets ->
  Forall2 (fun kv a => json.Unmarshal (snd kv) zeroAsset = inl a /\ ID a = fst kv)
          entries assets.
Proof.
  intros Hk Hin HF. induction HF as [|[k v] a l l' Ha _ IH]; constructor.
  - split; [exact Ha|]. cbn in *.
    destruct (Hk k v) as (a' & Ha' & Hid); [apply Hin; now left|]. congruence.
  - apply IH. intros k' v' H. apply Hin. now right.
Qed.

Lemma StronglySorted_keys (l : list (string * string)) :
  StronglySorted key_le l -> StronglySorted String.le (map fst l).
Proof.
  induction 1 as [|kv l _ IH Hall]; cbn; constructor; [exact IH|].
  apply Forall_forall. intros k Hk. apply list_elem_of_In, in_map_iff in Hk
    as (kv' & <- & Hin).
  rewrite Forall_forall in Hall. apply Hall, list_elem_of_In, Hin.
Qed.

(** X15. In a ledger reached from the empty one through the transactions
    alone, the host not failing, [GetAllAssets] returns the assets in
    ascending order of their ids, no id twice, and an id is listed exactly
    when it is a key of the state. *)
Theorem populated_listing w :
  populated w -> quiet w ->
  exists assets,
    fst (GetAllAssets w) = inl assets /\
    StronglySorted String.le (map ID assets) /\
    NoDup (map ID assets) /\
    forall id, In id (map ID assets) <-> is_Some (state w !! id).
Proof.
  intros Hp Hq. pose proof (populated_keyed w Hp) as Hk.
  destruct (GetAllAssets_entries w Hq (keyed_decodable _ Hk)) as (assets & Hrun & HF).
  exists assets. split; [exact Hrun|].
  apply (entries_keyed (state w)) in HF; [|exact Hk|intros k v; apply in_range_all].
  rewrite (entries_ids _ _ HF), range_all.
  assert (Hperm : map fst (merge_sort key_le (map_to_list (state w)))
                  ≡ₚ map fst (map_to_list (state w))).
  { apply fmap_Permutation, merge_sort_Permutation. }
  split; [|split].
  - apply StronglySorted_keys, StronglySorted_merge_sort; apply _.
  - rewrite Hperm. apply NoDup_fst_map_to_list.
  - intros id. rewrite <- list_elem_of_In, Hperm, list_elem_of_fmap. split.
    + intros ([k v] & -> & Hin). apply elem_of_map_to_list in Hin. cbn. eauto.
    + intros [v Hv]. exists (id, v). split; [reflexivity|].
      now apply elem_of_map_to_list.
Qed.

Lemma populated_listing_witness :
  populated (after (TxDeleteAsset (sq "{'asset_id':'asset2'}"))
               (after (TxCreateAsset request7) (after TxInitLedger (world ∅)))) /\
  quiet (after (TxDeleteAsset (sq "{'asset_id':'asset2'}"))
           (after (TxCreateAsset request7) (after TxInitLedger (world ∅)))) /\
  exists assets,
    fst (GetAllAssets
           (after (TxDeleteAsset (sq "{'asset_id':'asset2'}"))
              (after (TxCreateAsset request7) (after TxInitLedger (world ∅)))))
    = inl assets /\
    StronglySorted String.le (map ID assets) /\
    NoDup (map ID assets) /\
    forall id, In id (map ID assets) <->
      is_Some (state (after (TxDeleteAsset (sq "{'asset_id':'asset2'}"))
                 (after (TxCreateAsset request7) (after TxInitLedger (world ∅))))
               !! id).
Proof.
  assert (Hp : populated (after (TxDeleteAsset (sq "{'asset_id':'asset2'}"))
               (after (TxCreateAsset request7) (after TxInitLedger (world ∅))))).
  { apply populated_step, populated_step, populated_step, populated_empty. }
  assert (Hq : quiet (after (TxDeleteAsset (sq "{'asset_id':'asset2'}"))
           (after (TxCreateAsset request7) (after TxInitLedger (world ∅))))).
  { vm_compute. constructor. }
  split; [exact Hp|]. split; [exact Hq|].
  exact (populated_listing _ Hp Hq).
Defined.

(** *** The codec as the transactions use it *)

(** X16. What [json.Unmarshal] gives is always a valid [Asset] when the
    target was one, and encoding it and decoding the result gives it back:
    a request or a stored value that decodes is stored and read again without
    loss. *)
Theorem decoded_reencodes data target a :
  valid target ->
  json.Unmarshal data target = inl a ->
  valid a /\ forall target', json.Unmarshal (json.encode a) target' = inl a.
Proof.
  intros Ht Ha. pose proof (Unmarshal_valid _ _ _ Ha Ht) as Hv.
  split; [exact Hv|]. intros target'. now apply Unmarshal_encode_valid.
Qed.

Lemma decoded_reencodes_witness :
  valid zeroAsset /\
  json.Unmarshal transfer1 zeroAsset = inl (mkAsset "asset1" "pink" 0 "Bob" 0) /\
  valid (mkAsset "asset1" "pink" 0 "Bob" 0) /\
  forall target',
    json.Unmarshal (json.encode (mkAsset "asset1" "pink" 0 "Bob" 0)) target'
    = inl (mkAsset "asset1" "pink" 0 "Bob" 0).
Proof.
  assert (Ha : json.Unmarshal transfer1 zeroAsset
               = inl (mkAsset "asset1" "pink" 0 "Bob" 0))
    by (vm_compute; reflexivity).
  split; [apply valid_zero|]. split; [exact Ha|].
  exact (decoded_reencodes _ _ _ valid_zero Ha).
Defined.

(** X17. Distinct valid assets have distinct encodings. *)
Theorem encode_injective a b :
  valid a -> valid b -> json.encode a = json.encode b -> a = b.
Proof.
  intros Ha Hb Heq.
  pose proof (Unmarshal_encode_valid a zeroAsset Ha) as H1.
  pose proof (Unmarshal_encode_valid b zeroAsset Hb) as H2.
  rewrite Heq in H1. congruence.
Qed.

Lemma encode_injective_witness :
  valid asset7 /\ valid asset7 /\ json.encode asset7 = json.encode asset7 /\
  asset7 = asset7.
Proof.
  assert (Hv : valid asset7).
  { unfold valid, int64, strconv.minInt64, strconv.maxInt64. cbn.
    repeat split; try reflexivity; lia. }
  split; [exact Hv|]. split; [exact Hv|]. split; [reflexivity|].
  exact (encode_injective asset7 asset7 Hv Hv eq_refl).
Defined.

(** *** More on how the transactions compose *)

(** X18. [AssetExists] and [ReadAsset] agree on absence: with a host that
    does not fail and a request that decodes, [AssetExists] of the id of the
    request is false exactly when [ReadAsset] fails with "does not exist";
    a value that is present but does not decode exists all the same. *)
Theorem exists_iff_found raw req w :
  quiet w ->
  json.Unmarshal raw zeroAsset = inl req ->
  (fst (AssetExists (ID req) w) = inl false <->
   fst (ReadAsset raw w) = inr (ErrNotExist (ID req))) /\
  (fst (AssetExists (ID req) w) = inl true <-> is_Some (state w !! ID req)).
Proof.
  intros Hq Hreq. unfold_ops. rewrite Hreq. cbn. stub_quiet.
  destruct (state w !! ID req) as [stored|]; cbn.
  - split; (split; [try discriminate; eauto|]).
    + destruct (json.Unmarshal stored zeroAsset); discriminate.
    + reflexivity.
  - split; (split; [try discriminate; eauto|]).
    + reflexivity.
    + now intros [? [=]].
Qed.

Lemma exists_iff_found_witness :
  quiet (world {[ "asset7" := "junk" ]}) /\
  json.Unmarshal request_id7 zeroAsset = inl (mkAsset "asset7" "" 0 "" 0) /\
  fst (AssetExists "asset7" (world {[ "asset7" := "junk" ]})) = inl true.
Proof.
  assert (Hreq : json.Unmarshal request_id7 zeroAsset
                 = inl (mkAsset "asset7" "" 0 "" 0)) by (vm_compute; reflexivity).
  split; [apply quiet_world|]. split; [exact Hreq|].
  destruct (exists_iff_found request_id7 _ (world {[ "asset7" := "junk" ]})
              (quiet_world _) Hreq) as [_ H].
  apply H. vm_compute. eauto.
Defined.

(** X19. The keys of the store after a successful transaction with a
    payload: [CreateAsset] adds the id of the request, which was not a key;
    [DeleteAsset] removes it; [ReadAsset], [UpdateAsset] and [TransferAsset]
    leave the set of keys as it is. *)
Theorem key_set_effect op raw w :
  fst (exec op raw w) = None ->
  exists req,
    json.Unmarshal raw zeroAsset = inl req /\
    dom (state (snd (exec op raw w)))
    = match op with
      | Create => {[ ID req ]} ∪ dom (state w)
      | Delete => dom (state w) ∖ {[ ID req ]}
      | Read | Update | Transfer => dom (state w)
      end /\
    (ID req ∈ dom (state w) <-> op <> Create).
Proof.
  destruct (json.Unmarshal raw zeroAsset) as [req|e] eqn:Hreq.
  2:{ now rewrite (malformed_rejected _ _ _ _ Hreq). }
  intros Hrun. exists req. split; [reflexivity|]. revert Hrun.
  destruct op; unfold_ops; rewrite Hreq; cbn.
  - stub_call; [discriminate|].
    destruct (state w !! ID req) eqn:Hk; cbn; [discriminate|].
    stub_call; [discriminate|]. intros _. split; [apply dom_insert_L|].
    apply not_elem_of_dom in Hk. tauto.
  - stub_call; [discriminate|].
    destruct (state w !! ID req) as [stored|] eqn:Hk; cbn; [|discriminate].
    destruct (json.Unmarshal stored zeroAsset); cbn; [|discriminate].
    intros _. split; [reflexivity|].
    split; [discriminate | intros _; apply elem_of_dom; eauto].
  - stub_call; [discriminate|].
    destruct (state w !! ID req) eqn:Hk; cbn; [|discriminate].
    stub_call; [discriminate|]. intros _.
    assert (Hin : ID req ∈ dom (state w)) by (apply elem_of_dom; eauto).
    split; [|split; [discriminate | auto]].
    apply dom_insert_lookup_L. eauto.
  - stub_call; [discriminate|].
    destruct (state w !! ID req) eqn:Hk; cbn; [|discriminate].
    stub_call; [discriminate|]. intros _.
    split; [apply dom_delete_L|].
    split; [discriminate | intros _; apply elem_of_dom; eauto].
  - stub_call; [discriminate|].
    destruct (state w !! ID req) as [stored|] eqn:Hk; cbn; [|discriminate].
    stub_call; [discriminate|]. rewrite Hk.
    destruct (json.Unmarshal stored zeroAsset); cbn; [|discriminate].
    stub_call; [discriminate|]. intros _.
    assert (Hin : ID req ∈ dom (state w)) by (apply elem_of_dom; eauto).
    split; [|split; [discriminate | auto]].
    apply dom_insert_lookup_L. eauto.
Qed.

Lemma key_set_effect_witness :
  fst (exec Create request7 (world {[ "asset1" := stored1 ]})) = None /\
  exists req,
    json.Unmarshal request7 zeroAsset = inl req /\
    dom (state (snd (exec Create request7 (world {[ "asset1" := stored1 ]}))))
    = {[ ID req ]} ∪ dom (state (world {[ "asset1" := stored1 ]})) /\
    (ID req ∈ dom (state (world {[ "asset1" := stored1 ]})) <-> Create <> Create).
Proof.
  assert (Hrun : fst (exec Create request7 (world {[ "asset1" := stored1 ]})) = None)
    by (vm_compute; reflexivity).
  split; [exact Hrun|].
  exact (key_set_effect Create request7 _ Hrun).
Defined.

(** X20. Sending an [UpdateAsset] or a [TransferAsset] again changes
    nothing: after one has succeeded, the host not failing, the same
    transaction with the same payload succeeds again and leaves the state as
    the first run left it. *)
Theorem resend_changes_nothing op raw w :
  op = Update \/ op = Transfer ->
  fst (exec op raw w) = None ->
  quiet (snd (exec op raw w)) ->
  fst (exec op raw (snd (exec op raw w))) = None /\
  state (snd (exec op raw (snd (exec op raw w)))) = state (snd (exec op raw w)).
Proof.
  intros Hop.
  destruct (json.Unmarshal raw zeroAsset) as [req|e] eqn:Hreq.
  2:{ now rewrite (malformed_rejected _ _ _ _ Hreq). }
  destruct Hop as [-> | ->]; unfold_ops; rewrite Hreq; cbn.
  - stub_call; [discriminate|].
    destruct (state w !! ID req) eqn:Hk; cbn; [|discriminate].
    stub_call; [discriminate|]. intros _ Hq. cbn.
    stub_quiet. rewrite lookup_insert_eq. cbn. stub_quiet3.
    split; [reflexivity|]. apply insert_insert_eq.
  - stub_call; [discriminate|].
    destruct (state w !! ID req) as [stored|] eqn:Hk; cbn; [|discriminate].
    stub_call; [discriminate|]. rewrite Hk.
    destruct (json.Unmarshal stored zeroAsset) as [old|e] eqn:Hold; cbn;
      [|discriminate].
    stub_call; [discriminate|]. intros _ Hq. cbn.
    stub_quiet. rewrite lookup_insert_eq. cbn.
    stub_quiet3. rewrite lookup_insert_eq.
    rewrite Unmarshal_encode_valid.
    2:{ apply valid_set_Owner; [exact (decoded_valid _ _ Hold)
                               | apply (decoded_valid _ _ Hreq)]. }
    cbn. stub_quiet3. split; [reflexivity|]. apply insert_insert_eq.
Qed.

Lemma resend_changes_nothing_witness :
  (Transfer = Update \/ Transfer = Transfer) /\
  fst (exec Transfer transfer1 (world {[ "asset1" := stored1 ]})) = None /\
  quiet (snd (exec Transfer transfer1 (world {[ "asset1" := stored1 ]}))) /\
  fst (exec Transfer transfer1
         (snd (exec Transfer transfer1 (world {[ "asset1" := stored1 ]})))) = None /\
  state (snd (exec Transfer transfer1
                (snd (exec Transfer transfer1 (world {[ "asset1" := stored1 ]})))))
  = state (snd (exec Transfer transfer1 (world {[ "asset1" := stored1 ]}))).
Proof.
  assert (Hrun : fst (exec Transfer transfer1 (world {[ "asset1" := stored1 ]})) = None)
    by (vm_compute; reflexivity).
  assert (Hq : quiet (snd (exec Transfer transfer1 (world {[ "asset1" := stored1 ]}))))
    by (vm_compute; constructor).
  split; [now right|]. split; [exact Hrun|]. split; [exact Hq|].
  exact (resend_changes_nothing Transfer transfer1 _ (or_intror eq_refl) Hrun Hq).
Defined.

(** *** The calls a transaction makes *)

(** X21. The calls of a successful transaction with a payload, all on the
    id of the request: [CreateAsset] and [UpdateAsset] make one [GetState]
    and one [PutState] of the encoded request, [ReadAsset] one [GetState],
    [DeleteAsset] one [GetState] and one [DelState], and [TransferAsset] two
    [GetState] (one for the existence check, one to read the record) and one
    [PutState] of the stored record with the new owner. *)
Theorem success_calls op raw w :
  fst (exec op raw w) = None ->
  exists req,
    json.Unmarshal raw zeroAsset = inl req /\
    match op with
    | Create | Update =>
      trace (snd (exec op raw w))
      = trace w ++ [ (GetStateCall (ID req), Done);
                     (PutStateCall (ID req) (json.encode req), Done) ]
    | Read =>
      trace (snd (exec op raw w)) = trace w ++ [ (GetStateCall (ID req), Done) ]
    | Delete =>
      trace (snd (exec op raw w))
      = trace w ++ [ (GetStateCall (ID req), Done); (DelStateCall (ID req), Done) ]
    | Transfer =>
      exists stored old,
        state w !! ID req = Some stored /\
        json.Unmarshal stored zeroAsset = inl old /\
        trace (snd (exec op raw w))
        = trace w ++ [ (GetStateCall (ID req), Done);
                       (GetStateCall (ID req), Done);
                       (PutStateCall (ID req)
                          (json.encode (set_Owner old (Owner req))), Done) ]
    end.
Proof.
  destruct (json.Unmarshal raw zeroAsset) as [req|e] eqn:Hreq.
  2:{ now rewrite (malformed_rejected _ _ _ _ Hreq). }
  intros Hrun. exists req. split; [reflexivity|]. revert Hrun.
  destruct op; unfold_ops; rewrite Hreq; cbn.
  - stub_call; [discriminate|].
    destruct (state w !! ID req); cbn; [discriminate|].
    stub_call; [discriminate|]. intros _. now rewrite <- app_assoc.
  - stub_call; [discriminate|].
    destruct (state w !! ID req) as [stored|]; cbn; [|discriminate].
    destruct (json.Unmarshal stored zeroAsset); cbn; [|discriminate].
    reflexivity.
  - stub_call; [discriminate|].
    destruct (state w !! ID req); cbn; [|discriminate].
    stub_call; [discriminate|]. intros _. now rewrite <- app_assoc.
  - stub_call; [discriminate|].
    destruct (state w !! ID req); cbn; [|discriminate].
    stub_call; [discriminate|]. intros _. now rewrite <- app_assoc.
  - stub_call; [discriminate|].
    destruct (state w !! ID req) as [stored|] eqn:Hk; cbn; [|discriminate].
    stub_call; [discriminate|]. rewrite Hk.
    destruct (json.Unmarshal stored zeroAsset) as [old|e] eqn:Hold; cbn;
      [|discriminate].
    stub_call; [discriminate|]. intros _.
    exists stored, old. split; [reflexivity|]. split; [exact Hold|].
    now rewrite <- !app_assoc.
Qed.

Lemma success_calls_witness :
  fst (exec Delete request_id7 (world {[ "asset7" := request7 ]})) = None /\
  exists req,
    json.Unmarshal request_id7 zeroAsset = inl req /\
    trace (snd (exec Delete request_id7 (world {[ "asset7" := request7 ]})))
    = trace (world {[ "asset7" := request7 ]})
      ++ [ (GetStateCall (ID req), Done); (DelStateCall (ID req), Done) ].
Proof.
  assert (Hrun : fst (exec Delete request_id7 (world {[ "asset7" := request7 ]})) = None)
    by (vm_compute; reflexivity).
  split; [exact Hrun|].
  exact (success_calls Delete request_id7 _ Hrun).
Defined.

Lemma putAssets_failure l : forall w e,
  fst (putAssets l w) = inr e ->
  exists n a msg,
    l !! n = Some a /\ e = ErrPutWorldState (ErrStub msg) /\
    trace (snd (putAssets l w))
    = trace w
      ++ map (fun a => (PutStateCall (ID a) (json.encode a), Done)) (take n l)
      ++ [ (PutStateCall (ID a) (json.encode a), Failed) ] /\
    state (snd (putAssets l w))
    = fold_left (fun st a => <[ID a := json.encode a]> st) (take n l) (state w).
Proof.
  induction l as [|a l IH]; intros w e; cbn; [discriminate|].
  unfold bind, wrap, PutState. cbn. stub_call.
  - intros [= <-]. exists 0%nat, a. eexists. repeat split.
  - intros Hrun. apply IH in Hrun as (n & b & msg & Hn & -> & Htr & Hst).
    exists (S n), b, msg. split; [exact Hn|]. split; [reflexivity|].
    rewrite Htr, Hst. cbn. now rewrite <- app_assoc.
Qed.

(** X22. A failing [InitLedger] stops at the first [PutState] that fails:
    the seed assets before it have been put, in order, the error is the
    error of the stub wrapped as "failed to put to world state", and nothing
    is called after it. *)
Theorem InitLedger_stops_at_failure w e :
  fst (InitLedger w) = inr e ->
  exists n a msg,
    seed !! n = Some a /\ e = ErrPutWorldState (ErrStub msg) /\
    trace (snd (InitLedger w))
    = trace w
      ++ map (fun a => (PutStateCall (ID a) (json.encode a), Done)) (take n seed)
      ++ [ (PutStateCall (ID a) (json.encode a), Failed) ] /\
    state (snd (InitLedger w))
    = fold_left (fun st a => <[ID a := json.encode a]> st) (take n seed) (state w).
Proof. apply putAssets_failure. Qed.

Lemma InitLedger_stops_at_failure_witness :
  fst (InitLedger (mkWorld ∅ [None; None; Some "down"] []))
  = inr (ErrPutWorldState (ErrStub "down")) /\
  exists n a msg,
    seed !! n = Some a /\
    ErrPutWorldState (ErrStub "down") = ErrPutWorldState (ErrStub msg) /\
    trace (snd (InitLedger (mkWorld ∅ [None; None; Some "down"] [])))
    = trace (mkWorld ∅ [None; None; Some "down"] [])
      ++ map (fun a => (PutStateCall (ID a) (json.encode a), Done)) (take n seed)
      ++ [ (PutStateCall (ID a) (json.encode a), Failed) ] /\
    state (snd (InitLedger (mkWorld ∅ [None; None; Some "down"] [])))
    = fold_left (fun st a => <[ID a := json.encode a]> st) (take n seed)
                (state (mkWorld ∅ [None; None; Some "down"] [])).
Proof.
  assert (H : fst (InitLedger (mkWorld ∅ [None; None; Some "down"] []))
              = inr (ErrPutWorldState (ErrStub "down")))
    by (vm_compute; reflexivity).
  split; [exact H|].
  exact (InitLedger_stops_at_failure _ _ H).
Defined.
